(** * database-dumper-cli: a shallow embedding of the acquisition and dump core

    The development follows the TypeScript sources module by module:

    - [JS]            the few JavaScript string and truthiness primitives the code uses;
    - [Path]          Node's [path] module (POSIX flavour): [join], [resolve], [dirname];
    - [FS]            the file system the code acts on (fs-extra calls);
    - [Types]         src/types.ts and src/platform.ts;
    - [Paths]         src/paths.ts;
    - [OutputPaths]   src/outputPaths.ts;
    - [Heap]          the objects and arrays the configuration functions mutate;
    - [ConfigStore]   src/configStore.ts;
    - [Secrets]       src/secrets.ts;
    - [Downloader]    src/downloader.ts;
    - [VersionMap]    src/versionMap.ts;
    - [BinaryManager] src/checksum.ts and src/binaryManager.ts;
    - [Events]        what the event loop delivers while a child process runs, and promises;
    - [ConnectionTester] src/connectionTester.ts;
    - [DumpRunner]    src/dumpRunner.ts.

    JavaScript numbers that occur in these modules (schema version, port,
    exit code, HTTP status, byte counts) are integers and are modelled by [Z].
    Strings are modelled by [string]: a JavaScript string is represented
    by the bytes of its UTF-8 encoding, so a character outside ASCII takes
    two to four bytes. *)

From Stdlib Require Import ZArith Ascii String List Lia.
From stdpp Require Import base option list gmap strings pretty.
From Equations Require Import Equations.

Open Scope Z_scope.

(* ===================================================================== *)
(** * JavaScript primitives *)
(* ===================================================================== *)

Module JS.

Definition number := Z.

(** [undefined], [null] or a value: what a lookup that may miss yields. *)
Inductive maybe (A : Type) :=
| Undefined
| Null
| Val (a : A).
Arguments Undefined {A}.
Arguments Null {A}.
Arguments Val {A} a.

(** Truthiness of a string: only the empty string is falsy. *)
Definition truthy_str (s : string) : bool :=
  match s with EmptyString => false | _ => true end.

(** Truthiness of a number: only zero is falsy (there is no NaN among integers). *)
Definition truthy_num (n : number) : bool := negb (n =? 0).

(** [a || b] on strings. *)
Definition or_str (a b : string) : string := if truthy_str a then a else b.

(** [a || b] where [a] may be [undefined]. *)
Definition or_opt_str (a : option string) (b : string) : string :=
  match a with Some s => or_str s b | None => b end.

(** [s.startsWith(p)]. *)
Definition startsWith (s p : string) : bool := String.prefix p s.

(** [s.slice(n)] for [0 <= n]. *)
Fixpoint slice (n : nat) (s : string) : string :=
  match n, s with
  | O, _ => s
  | S n', String _ r => slice n' r
  | S _, EmptyString => EmptyString
  end.

(** [s.split(sep)] for a one-character separator. *)
Fixpoint split (sep : ascii) (s : string) : list string :=
  match s with
  | EmptyString => [EmptyString]
  | String c r =>
      if Ascii.eqb c sep then EmptyString :: split sep r
      else match split sep r with
           | [] => [String c EmptyString]
           | x :: xs => String c x :: xs
           end
  end.

(** [parts.join(sep)]. *)
Fixpoint join (sep : string) (parts : list string) : string :=
  match parts with
  | [] => EmptyString
  | [p] => p
  | p :: rest => p +:+ sep +:+ join sep rest
  end.

(** [s.replace(/[:.]/g, '-')] and the like: a character-wise substitution. *)
Fixpoint map_chars (f : ascii -> ascii) (s : string) : string :=
  match s with
  | EmptyString => EmptyString
  | String c r => String (f c) (map_chars f r)
  end.

(** A string given by its bytes. *)
Definition bytes (l : list Z) : string :=
  string_of_list_ascii (map (fun b => ascii_of_nat (Z.to_nat b)) l).

(** The white space of ECMAScript, [WhiteSpace] and [LineTerminator]:
    what [trim] strips and what [\s] matches, each character in UTF-8. *)
Definition WHITE_SPACE : list string := [
  bytes [9]; bytes [10]; bytes [11]; bytes [12]; bytes [13]; bytes [32];
                                               (* TAB LF VT FF CR SP *)
  bytes [194; 160];                            (* U+00A0 no-break space *)
  bytes [225; 154; 128];                       (* U+1680 *)
  bytes [226; 128; 128]; bytes [226; 128; 129]; bytes [226; 128; 130];
  bytes [226; 128; 131]; bytes [226; 128; 132]; bytes [226; 128; 133];
  bytes [226; 128; 134]; bytes [226; 128; 135]; bytes [226; 128; 136];
  bytes [226; 128; 137]; bytes [226; 128; 138];  (* U+2000 .. U+200A *)
  bytes [226; 128; 168]; bytes [226; 128; 169];  (* U+2028, U+2029 *)
  bytes [226; 128; 175];                       (* U+202F *)
  bytes [226; 129; 159];                       (* U+205F *)
  bytes [227; 128; 128];                       (* U+3000 *)
  bytes [239; 187; 191]                        (* U+FEFF *)
].

(** The length in bytes of the character of [seqs] that [s] starts
    with; [0] when it starts with none. *)
Definition lead_len (seqs : list string) (s : string) : nat :=
  match find (fun q => String.prefix q s) seqs with
  | Some q => String.length q
  | None => O
  end.

(** Dropping the characters of [seqs] that [s] starts with; [skip]
    counts the bytes of the current one that are still to drop. *)
Fixpoint strip (seqs : list string) (skip : nat) (s : string) : string :=
  match s with
  | EmptyString => EmptyString
  | String _ r =>
      match skip with
      | S k => strip seqs k r
      | O =>
          match lead_len seqs s with
          | S k => strip seqs k r
          | O => s
          end
      end
  end.

Definition trimStart (s : string) : string := strip WHITE_SPACE 0 s.

Definition trimEnd (s : string) : string :=
  String.rev (strip (map String.rev WHITE_SPACE) 0 (String.rev s)).

(** [s.trim()]. *)
Definition trim (s : string) : string := trimEnd (trimStart s).

(** The first [n] bytes of [s]. *)
Fixpoint take_bytes (n : nat) (s : string) : string :=
  match n, s with
  | S n', String c r => String c (take_bytes n' r)
  | _, _ => EmptyString
  end.

(** Template-literal rendering of a number: the decimal digits, as
    JavaScript prints the integers below 10^21 in absolute value (ports,
    status codes, exit codes, sizes). *)
Definition show_num (n : number) : string := pretty n.

(** Template-literal rendering of a possibly-null number. *)
Definition show_code (c : option number) : string :=
  match c with Some n => show_num n | None => "null" end.

Definition str_eqb (a b : string) : bool := bool_decide (a = b).

End JS.

Export JS.

(* ===================================================================== *)
(** * Node's [path] module, POSIX flavour *)
(* ===================================================================== *)

(** Paths are handled segment-wise: a path is cut at every ['/'], the
    segments are normalised on a stack and glued back together.  This is
    what [normalizeString] of Node's lib/path.js computes.  It is
    [path.posix], which [path] is on every platform but win32: what is
    proved of paths is proved for those platforms. *)

Module Path.

Definition sep : ascii := "/"%char.

Definition segments (p : string) : list string := JS.split sep p.

Definition isAbsolute (p : string) : bool :=
  match p with String c _ => Ascii.eqb c sep | EmptyString => false end.

Fixpoint endsWithSep (p : string) : bool :=
  match p with
  | EmptyString => false
  | String c EmptyString => Ascii.eqb c sep
  | String _ r => endsWithSep r
  end.

(** One step of [normalizeString]; the stack holds the segments kept so
    far, most recent first. *)
Definition step (allowAboveRoot : bool) (stk : list string) (seg : string) : list string :=
  if bool_decide (seg = "") || bool_decide (seg = ".") then stk
  else if bool_decide (seg = "..") then
    match stk with
    | top :: rest =>
        if bool_decide (top = "..")
        then (if allowAboveRoot then ".." :: stk else stk)
        else rest
    | [] => if allowAboveRoot then [".."] else []
    end
  else seg :: stk.

Definition normalizeFrom (allowAboveRoot : bool) (stk : list string) (segs : list string) : list string :=
  fold_left (step allowAboveRoot) segs stk.

Definition normalizeString (allowAboveRoot : bool) (segs : list string) : list string :=
  rev (normalizeFrom allowAboveRoot [] segs).

(** [path.normalize(p)]. *)
Definition normalize (p : string) : string :=
  if bool_decide (p = "") then "."
  else
    let abs := isAbsolute p in
    let trailing := endsWithSep p in
    let body := JS.join "/" (normalizeString (negb abs) (segments p)) in
    if bool_decide (body = "") then
      (if abs then "/" else if trailing then "./" else ".")
    else
      (if abs then "/" else "") +:+ body +:+ (if trailing then "/" else "").

(** [path.join(...parts)]: the non-empty parts glued with ['/'], normalised. *)
Definition join (parts : list string) : string :=
  match filter (fun p => p <> "") parts with
  | [] => "."
  | ps => normalize (JS.join "/" ps)
  end.

(** The canonical segments of [p] seen from the working directory [cwd]
    (an absolute path, as [process.cwd()] is): what [path.resolve]
    computes before it glues them. *)
Definition canon (cwd p : string) : list string :=
  if isAbsolute p then normalizeString false (segments p)
  else normalizeString false (segments cwd ++ segments p).

(** [path.resolve(p)] for one argument, in a process whose working
    directory is the absolute path [cwd]. *)
Definition resolve (cwd p : string) : string :=
  "/" +:+ JS.join "/" (canon cwd p).

Fixpoint dropWhile (f : ascii -> bool) (s : string) : string :=
  match s with
  | String c r => if f c then dropWhile f r else s
  | EmptyString => EmptyString
  end.

Definition is_sep (c : ascii) : bool := Ascii.eqb c sep.

(** [path.dirname(p)]: scan from the right (the first character apart),
    skip trailing separators, skip the last segment, cut at the
    separator before it. *)
Definition dirname (p : string) : string :=
  match p with
  | EmptyString => "."
  | String c0 rest =>
      let hasRoot := is_sep c0 in
      let r1 := dropWhile is_sep (String.rev rest) in
      let r2 := dropWhile (fun c => negb (is_sep c)) r1 in
      match r1, r2 with
      | EmptyString, _ | _, EmptyString => if hasRoot then "/" else "."
      | _, String _ before =>
          if hasRoot && bool_decide (before = "") then "//"
          else String c0 (String.rev before)
      end
  end.

End Path.

(* ===================================================================== *)
(** * Errors and results *)
(* ===================================================================== *)

(** A JavaScript [Error]: the code builds them from a message only. *)
Record Error := mkError { message : string }.

Global Instance Error_eq_dec : EqDecision Error.
Proof. solve_decision. Defined.

(** A call either returns, or throws (for an [async] function: resolves
    or rejects), or never comes back: the promise it waits for is never
    settled, because the process hangs or because an exception escaped
    from an event callback. *)
Inductive result (A : Type) :=
| Ok (a : A)
| Throw (e : Error)
| Never.
Arguments Ok {A} a.
Arguments Throw {A} e.
Arguments Never {A}.

Global Instance result_ret : MRet result := fun A a => Ok a.
Global Instance result_bind : MBind result := fun A B k r =>
  match r with
  | Ok a => k a
  | Throw e => Throw e
  | Never => Never
  end.

Definition is_ok {A} (r : result A) : bool :=
  match r with Ok _ => true | _ => false end.

(* ===================================================================== *)
(** * The file system *)
(* ===================================================================== *)

(** Entries are keyed by their canonical segments (see [Path.canon]), so
    two spellings of one path name one entry.  [immutable] lists the
    entries the process is not allowed to delete: removing one of them
    fails, which is how a clean-up can fail.  Symbolic links, permissions
    bits and transient I/O errors are not modelled. *)

Module FS.

Inductive node :=
| File (data : string)
| Dir.

Global Instance node_eq_dec : EqDecision node.
Proof. solve_decision. Defined.

Record t := mk {
  nodes : gmap (list string) node;
  immutable : gset (list string);
  cwd : string;
}.

Definition with_nodes (fs : t) (m : gmap (list string) node) : t :=
  {| nodes := m; immutable := immutable fs; cwd := cwd fs |}.

Definition key (fs : t) (p : string) : list string := Path.canon (cwd fs) p.

Definition lookup (fs : t) (p : string) : option node := nodes fs !! key fs p.

(** [fs.pathExists(p)]. *)
Definition pathExists (fs : t) (p : string) : bool :=
  match lookup fs p with Some _ => true | None => false end.

Definition isFile (fs : t) (p : string) : bool :=
  match lookup fs p with Some (File _) => true | _ => false end.

(** [mkdir -p] on a key given in reverse (innermost segment first): an
    existing directory is left alone, a missing one is created after its
    parent, a file in the way is an error. *)
Fixpoint mkdirp (rk : list string) (m : gmap (list string) node)
  : result (gmap (list string) node) :=
  match m !! rev rk with
  | Some Dir => Ok m
  | Some (File _) => Throw (mkError "EEXIST")
  | None =>
      match rk with
      | [] => Ok (<[ [] := Dir ]> m)
      | _ :: parent =>
          m' ← mkdirp parent m;
          Ok (<[ rev rk := Dir ]> m')
      end
  end.

(** [fs.ensureDir(p)]. *)
Definition ensureDir (fs : t) (p : string) : result t :=
  m ← mkdirp (rev (key fs p)) (nodes fs);
  Ok (with_nodes fs m).

Definition parent (k : list string) : list string := removelast k.

(** Is the parent of [k] a directory?  The root has none and passes. *)
Definition parent_is_dir (m : gmap (list string) node) (k : list string) : bool :=
  match k with
  | [] => true
  | _ => match m !! parent k with
         | Some Dir => true
         | Some (File _) => false
         | None => bool_decide (parent k = [])
         end
  end.

(** Creating or truncating a file and writing [data] to it
    ([fs.writeFile], or a write stream that is opened, written and
    closed). *)
Definition writeFile (fs : t) (p : string) (data : string) : result t :=
  let k := key fs p in
  match nodes fs !! k with
  | Some Dir => Throw (mkError "EISDIR")
  | _ =>
      if parent_is_dir (nodes fs) k
      then Ok (with_nodes fs (<[ k := File data ]> (nodes fs)))
      else Throw (mkError "ENOENT")
  end.

(** [fs.readFile(p, 'utf-8')]. *)
Definition readFile (fs : t) (p : string) : result string :=
  match lookup fs p with
  | Some (File d) => Ok d
  | Some Dir => Throw (mkError "EISDIR")
  | None => Throw (mkError "ENOENT")
  end.

(** [fs.stat(p).size]. *)
Definition statSize (fs : t) (p : string) : result Z :=
  match lookup fs p with
  | Some (File d) => Ok (Z.of_nat (String.length d))
  | Some Dir => Ok 0
  | None => Throw (mkError "ENOENT")
  end.

(** The entries at or below [k]. *)
Definition below (k : list string) (k' : list string) : bool :=
  bool_decide (k `prefix_of` k').

(** [fs.remove(p)]: [rm -rf]; a missing path is not an error, an entry
    that may not be deleted is. *)
Definition remove (fs : t) (p : string) : result t :=
  let k := key fs p in
  let doomed := filter (fun kv => below k kv.1 = true) (nodes fs) in
  if bool_decide (set_Exists (fun k' => k' ∈ immutable fs) (dom doomed))
  then Throw (mkError "EPERM")
  else Ok (with_nodes fs (filter (fun kv => below k kv.1 = false) (nodes fs))).

(** [fs.move(src, dst, { overwrite: true })], where the directory of
    [dst] is there, as it is wherever the code moves a file (it has
    ensured it before); without it the move is an error here. *)
Definition move (fs : t) (src dst : string) : result t :=
  let ks := key fs src in
  let kd := key fs dst in
  match nodes fs !! ks with
  | None => Throw (mkError "ENOENT")
  | Some _ =>
      if negb (parent_is_dir (nodes fs) kd) then Throw (mkError "ENOENT")
      else
        let moved := filter (fun kv => below ks kv.1 = true) (nodes fs) in
        let kept := filter (fun kv => below ks kv.1 = false /\ below kd kv.1 = false) (nodes fs) in
        let rekeyed : gmap (list string) node :=
          list_to_map (map (fun kv : list string * node => (kd ++ drop (length ks) kv.1, kv.2))
                           (map_to_list moved)) in
        Ok (with_nodes fs (rekeyed ∪ kept))
  end.

(** [fs.mkdtemp(prefix)]: the system appends six characters of its
    choice, here [suffix], and creates that directory. *)
Definition mkdtemp (fs : t) (prefix suffix : string) : result (string * t) :=
  let p := prefix +:+ suffix in
  let k := key fs p in
  match nodes fs !! k with
  | Some _ => Throw (mkError "EEXIST")
  | None =>
      if parent_is_dir (nodes fs) k
      then Ok (p, with_nodes fs (<[ k := Dir ]> (nodes fs)))
      else Throw (mkError "ENOENT")
  end.

(** [fs.readdir(dir, { withFileTypes: true })]: the names directly
    below [k] with their kind, in the (unspecified but fixed) order of
    the map. *)
Definition readdir (fs : t) (k : list string) : list (string * node) :=
  omap (fun kv : list string * node =>
          match drop (length k) kv.1 with
          | [name] => if bool_decide (take (length k) kv.1 = k) then Some (name, kv.2) else None
          | _ => None
          end)
       (map_to_list (nodes fs)).

(** [fs.chmod]: mode bits are not modelled; the entry must exist. *)
Definition chmod (fs : t) (p : string) : result t :=
  match lookup fs p with
  | Some _ => Ok fs
  | None => Throw (mkError "ENOENT")
  end.

(** [fs.copyFile(src, dst)]: the content of the file [src] is written to
    [dst], which is created or overwritten. *)
Definition copyFile (fs : t) (src dst : string) : result t :=
  match lookup fs src with
  | Some (File d) => writeFile fs dst d
  | Some Dir => Throw (mkError "EISDIR")
  | None => Throw (mkError "ENOENT")
  end.

Definition empty (cwd : string) : t :=
  {| nodes := {[ [] := Dir ]}; immutable := ∅; cwd := cwd |}.

End FS.

(* ===================================================================== *)
(** * src/types.ts and src/platform.ts *)
(* ===================================================================== *)

Module Types.

Inductive DbType := mysql.

Global Instance DbType_eq_dec : EqDecision DbType.
Proof. solve_decision. Defined.

Record DatabaseConfig := {
  db_id : string;
  db_dbType : DbType;
  db_environment : string;
  db_name : string;
  db_alias : option string;
  db_host : string;
  db_port : option number;
  db_username : string;
  db_passwordRef : string;
  db_selectedFlags : list string;
  db_customFlags : option (list string);
  db_gzipDefault : option bool;
  db_createdAt : string;
  db_updatedAt : string;
}.

Record Defaults := {
  lastSelectedId : option string;
  dumpRootOverride : option string;
}.

Inductive ArchiveType := zip | tar_gz | tar_xz.

Definition ArchiveType_str (a : ArchiveType) : string :=
  match a with zip => "zip" | tar_gz => "tar.gz" | tar_xz => "tar.xz" end.

Record BinaryDescriptor := {
  bd_version : string;
  bd_platform : string;
  bd_arch : string;
  bd_url : string;
  bd_sha256 : string;
  bd_archiveType : ArchiveType;
  bd_innerPathHints : option (list string);
}.

Record DumpRequest := {
  req_db : DatabaseConfig;
  req_password : string;
  req_outputPath : string;
  req_gzip : bool;
  req_excludeTables : list string;
  req_flags : list string;
  req_binaryPath : string;
}.

Record DumpResult := {
  res_outputPath : string;
  res_sizeBytes : number;
  res_durationMs : number;
  res_gzip : bool;
}.

Record ConnectionTestResult := {
  ok : bool;
  ctr_message : option string;
  ctr_error : option Error;
}.

Global Instance DatabaseConfig_eq_dec : EqDecision DatabaseConfig.
Proof. solve_decision. Defined.

(** The process and its operating system, as [os] and [process.env]
    report them. *)
Record Process := {
  os_platform : string;
  os_arch : string;
  os_homedir : string;
  os_tmpdir : string;
  env_APPDATA : option string;
  env_XDG_CONFIG_HOME : option string;
}.

Record PlatformInfo := {
  platform : string;
  arch : string;
  isWindows : bool;
}.

Definition getPlatformInfo (pr : Process) : PlatformInfo :=
  {| platform := os_platform pr;
     arch := os_arch pr;
     isWindows := bool_decide (os_platform pr = "win32") |}.

End Types.

Export Types.

(* ===================================================================== *)
(** * src/paths.ts *)
(* ===================================================================== *)

Module Paths.

Definition APP_NAME : string := "database-cli-dumper".

Definition homeDir (pr : Process) : string := os_homedir pr.

Definition getConfigDir (pr : Process) : string :=
  if bool_decide (platform (getPlatformInfo pr) = "win32") then
    let appData := or_opt_str (env_APPDATA pr)
                     (Path.join [homeDir pr; "AppData"; "Roaming"]) in
    Path.join [appData; APP_NAME]
  else
    match env_XDG_CONFIG_HOME pr with
    | Some xdg =>
        if truthy_str xdg then Path.join [xdg; APP_NAME]
        else Path.join [homeDir pr; ".config"; APP_NAME]
    | None => Path.join [homeDir pr; ".config"; APP_NAME]
    end.

Definition getConfigPath (pr : Process) (customPath : option string) : string :=
  match customPath with
  | Some c => if truthy_str c then c else Path.join [getConfigDir pr; "config.json"]
  | None => Path.join [getConfigDir pr; "config.json"]
  end.

Definition getBinaryCacheDir (pr : Process) : string :=
  let pi := getPlatformInfo pr in
  Path.join [homeDir pr; "." +:+ APP_NAME; "bin"; platform pi +:+ "-" +:+ arch pi].

Definition getTempDumpRoot (pr : Process) : string :=
  Path.join [os_tmpdir pr; APP_NAME].

Definition getBackupDir (pr : Process) : string :=
  Path.join [getConfigDir pr; "backups"].

Definition resolveDumpPath (base : string) (parts : list string) : string :=
  Path.join (base :: parts).

End Paths.

(* ===================================================================== *)
(** * src/outputPaths.ts *)
(* ===================================================================== *)

Module OutputPaths.

(** The substitution of [replace(/[:.]/g, '-')]. *)
Definition dash (c : ascii) : ascii :=
  if Ascii.eqb c ":" || Ascii.eqb c "." then "-"%char else c.

(** [timestampString()]; [now_iso] is what [new Date().toISOString()]
    reads off the clock. *)
Definition timestampString (now_iso : string) : string :=
  map_chars dash now_iso.

Definition defaultDumpPath (pr : Process) (now_iso : string)
    (env aliasOrName : string) (gzip : bool) (rootOverride : option string) : string :=
  let safeEnv := or_str env "default" in
  let safeName := or_str aliasOrName "database" in
  let root := or_opt_str rootOverride (Paths.getTempDumpRoot pr) in
  let dir := Paths.resolveDumpPath root [safeEnv; safeName] in
  let filename := safeName +:+ "-" +:+ timestampString now_iso +:+ ".sql"
                  +:+ (if gzip then ".gz" else "") in
  Path.join [dir; filename].

End OutputPaths.

(* ===================================================================== *)
(** * The state of the process *)
(* ===================================================================== *)

(** Configuration objects and the arrays they point to live on a heap:
    [upsertDatabase] and [deleteDatabase] mutate their argument, and two
    configurations may share one array. *)

Module Heap.

Definition loc := nat.

(** A [ConfigFile] object; [databases] is a reference to an array.
    [version] is [None] while the property is missing. *)
Record ConfigFile := {
  version : option number;
  databases : loc;
  defaults : option Defaults;
}.

Record t := mk {
  objects : gmap loc ConfigFile;
  arrays : gmap loc (list DatabaseConfig);
}.

Definition new_object (h : t) (o : ConfigFile) : loc * t :=
  let l := fresh (dom (objects h)) in
  (l, {| objects := <[ l := o ]> (objects h); arrays := arrays h |}).

Definition new_array (h : t) (a : list DatabaseConfig) : loc * t :=
  let l := fresh (dom (arrays h)) in
  (l, {| objects := objects h; arrays := <[ l := a ]> (arrays h) |}).

Definition set_object (h : t) (l : loc) (o : ConfigFile) : t :=
  {| objects := <[ l := o ]> (objects h); arrays := arrays h |}.

Definition set_array (h : t) (l : loc) (a : list DatabaseConfig) : t :=
  {| objects := objects h; arrays := <[ l := a ]> (arrays h) |}.

(** The target list a configuration currently shows. *)
Definition targets (h : t) (config : loc) : option (list DatabaseConfig) :=
  o ← objects h !! config; arrays h !! databases o.

End Heap.

(** What the process did to the outside world, oldest first. *)
Inductive effect :=
| EvDownload (url dest : string)
| EvHash (file digest : string)
| EvExtract (kind : ArchiveType) (archive dir : string).

Record World := mkWorld {
  fs : FS.t;
  heap : Heap.t;
  log : list effect;
}.

Definition set_fs (w : World) (f : FS.t) : World :=
  {| fs := f; heap := heap w; log := log w |}.
Definition set_heap (w : World) (h : Heap.t) : World :=
  {| fs := fs w; heap := h; log := log w |}.
Definition emit (w : World) (e : effect) : World :=
  {| fs := fs w; heap := heap w; log := log w ++ [e] |}.

(** A program runs on the world; what it did before it threw stays done. *)
Definition prog (A : Type) : Type := World -> result A * World.

Global Instance prog_ret : MRet prog := fun A a w => (Ok a, w).
Global Instance prog_bind : MBind prog := fun A B k m w =>
  match m w with
  | (Ok a, w') => k a w'
  | (Throw e, w') => (Throw e, w')
  | (Never, w') => (Never, w')
  end.

Definition throw {A} (e : Error) : prog A := fun w => (Throw e, w).

(** Lifting a file-system call that returns the new file system. *)
Definition fs_do (f : FS.t -> result FS.t) : prog unit := fun w =>
  match f (fs w) with
  | Ok f' => (Ok tt, set_fs w f')
  | Throw e => (Throw e, w)
  | Never => (Never, w)
  end.

(** Lifting a file-system query. *)
Definition fs_get {A} (f : FS.t -> A) : prog A := fun w => (Ok (f (fs w)), w).

Definition fs_try {A} (f : FS.t -> result A) : prog A := fun w => (f (fs w), w).

Definition tell (e : effect) : prog unit := fun w => (Ok tt, emit w e).

(** [await p.catch(() => undefined)]: the failure is swallowed, what was
    done stays done. *)
Definition swallow (m : prog unit) : prog unit := fun w =>
  match m w with
  | (Never, w') => (Never, w')
  | (_, w') => (Ok tt, w')
  end.

(* ===================================================================== *)
(** * src/configStore.ts *)
(* ===================================================================== *)

Module ConfigStore.
Import Heap.

Definition SCHEMA_VERSION : number := 1.

(** The module-level object [DEFAULT_CONFIG] and the array literal it
    holds are allocated once, when the module is loaded. *)
Definition DEFAULT_CONFIG : loc := 0%nat.
Definition DEFAULT_DATABASES : loc := 0%nat.

Definition DEFAULT_CONFIG_object : ConfigFile :=
  {| version := Some SCHEMA_VERSION; databases := DEFAULT_DATABASES; defaults := None |}.

Definition module_heap : Heap.t :=
  {| objects := {[ DEFAULT_CONFIG := DEFAULT_CONFIG_object ]};
     arrays := {[ DEFAULT_DATABASES := [] ]} |}.

(** What [JSON.parse] hands back for a configuration file. *)
Record Parsed := {
  p_version : option number;
  p_databases : list DatabaseConfig;
  p_defaults : option Defaults;
}.

Definition ensureConfigDir (pr : Process) (configPath : option string) : prog unit :=
  let target :=
    match configPath with
    | Some c => if truthy_str c then Path.dirname c else Paths.getConfigDir pr
    | None => Paths.getConfigDir pr
    end in
  fs_do (fun f => FS.ensureDir f target).

(** [!parsed.version]. *)
Definition falsy_version (v : option number) : bool :=
  match v with
  | Some n => negb (truthy_num n)
  | None => true
  end.

(** [{ ...DEFAULT_CONFIG }]: a new object with the same property
    values, hence the same array. *)
Definition spread_DEFAULT_CONFIG : prog loc := fun w =>
  match objects (heap w) !! DEFAULT_CONFIG with
  | Some d => let '(l, h) := new_object (heap w) d in (Ok l, set_heap w h)
  | None => (Throw (mkError "ReferenceError"), w)
  end.

(** The object graph [JSON.parse] builds is new. *)
Definition materialise (parsed : Parsed) : prog loc := fun w =>
  let '(a, h1) := new_array (heap w) (p_databases parsed) in
  let '(l, h2) := new_object h1
       {| version := p_version parsed; databases := a; defaults := p_defaults parsed |} in
  (Ok l, set_heap w h2).

(** [if (!parsed.version) parsed.version = 1;] *)
Definition stamp_if_missing (l : loc) : prog unit := fun w =>
  match objects (heap w) !! l with
  | Some o =>
      if falsy_version (version o)
      then (Ok tt, set_heap w (set_object (heap w) l
              {| version := Some 1; databases := databases o; defaults := defaults o |}))
      else (Ok tt, w)
  | None => (Throw (mkError "TypeError"), w)
  end.

Definition lift {A} (r : result A) : prog A := fun w => (r, w).

Section WithJSON.
(** [JSON.parse], a library function; it throws on text that is not JSON. *)
Variable JSON_parse : string -> result Parsed.

Definition loadConfig (pr : Process) (customPath : option string) : prog loc :=
  let filePath := Paths.getConfigPath pr customPath in
  _ ← ensureConfigDir pr (Some filePath);
  exists_ ← fs_get (fun f => FS.pathExists f filePath);
  if negb exists_ then spread_DEFAULT_CONFIG
  else
    content ← fs_try (fun f => FS.readFile f filePath);
    parsed ← lift (JSON_parse content);
    l ← materialise parsed;
    _ ← stamp_if_missing l;
    mret l.
End WithJSON.

(** [config.databases.findIndex((d) => d.id === entry.id)]. *)
Definition findIndex (id : string) (arr : list DatabaseConfig) : option nat :=
  fst <$> list_find (fun d => db_id d = id) arr.

Definition upsertDatabase (config : loc) (entry : DatabaseConfig) : prog loc := fun w =>
  let h := heap w in
  match objects h !! config with
  | None => (Throw (mkError "TypeError"), w)
  | Some o =>
      match arrays h !! databases o with
      | None => (Throw (mkError "TypeError"), w)
      | Some arr =>
          let arr' :=
            match findIndex (db_id entry) arr with
            | Some idx => <[ idx := entry ]> arr       (* config.databases[idx] = entry *)
            | None => arr ++ [entry]                   (* config.databases.push(entry) *)
            end in
          (Ok config, set_heap w (set_array h (databases o) arr'))
      end
  end.

Definition deleteDatabase (config : loc) (id : string) : prog loc := fun w =>
  let h := heap w in
  match objects h !! config with
  | None => (Throw (mkError "TypeError"), w)
  | Some o =>
      match arrays h !! databases o with
      | None => (Throw (mkError "TypeError"), w)
      | Some arr =>
          (* filter builds a new array; the property is re-pointed to it *)
          let '(a, h1) := new_array h (filter (fun d => db_id d <> id) arr) in
          let h2 := set_object h1 config
                      {| version := version o; databases := a; defaults := defaults o |} in
          (Ok config, set_heap w h2)
      end
  end.

(** [config.databases.find((d) => d.id === idOrAlias || d.alias === idOrAlias)]. *)
Definition findDatabase (config : loc) (idOrAlias : string) (w : World) : option DatabaseConfig :=
  arr ← targets (heap w) config;
  snd <$> list_find (fun d => db_id d = idOrAlias \/ db_alias d = Some idOrAlias) arr.

(** [config.version = SCHEMA_VERSION;] *)
Definition set_version (config : loc) (v : number) : prog unit := fun w =>
  match objects (heap w) !! config with
  | Some o =>
      (Ok tt, set_heap w (set_object (heap w) config
                {| version := Some v; databases := databases o; defaults := defaults o |}))
  | None => (Throw (mkError "TypeError"), w)
  end.

(** What [JSON.stringify(config, null, 2)] reads off the configuration:
    its version, the content of its array, its defaults. *)
Definition snapshot (config : loc) : prog Parsed := fun w =>
  match objects (heap w) !! config with
  | Some o =>
      match arrays (heap w) !! databases o with
      | Some arr =>
          (Ok {| p_version := version o; p_databases := arr; p_defaults := defaults o |}, w)
      | None => (Throw (mkError "TypeError"), w)
      end
  | None => (Throw (mkError "TypeError"), w)
  end.

(** The backup step of [saveConfig]: the file that is about to be
    replaced is copied to the backup directory, under a name that carries
    the time. *)
Definition backupExisting (pr : Process) (now_iso filePath : string) : prog unit :=
  let backupDir := Paths.getBackupDir pr in
  _ ← fs_do (fun f => FS.ensureDir f backupDir);          (* ensureDirSync *)
  let stamp := map_chars OutputPaths.dash now_iso in
  let backupPath := Path.join [backupDir; "config.bak." +:+ stamp +:+ ".json"] in
  fs_do (fun f => FS.copyFile f filePath backupPath).

Section WithStringify.
(** [JSON.stringify], a library function. *)
Variable JSON_stringify : Parsed -> string.

(** [saveConfig(config, customPath)]; [now_iso] is what
    [new Date().toISOString()] reads off the clock. *)
Definition saveConfig (pr : Process) (now_iso : string) (config : loc)
    (customPath : option string) : prog unit :=
  let filePath := Paths.getConfigPath pr customPath in
  _ ← ensureConfigDir pr (Some filePath);
  _ ← set_version config SCHEMA_VERSION;
  (* Backup existing *)
  exists_ ← fs_get (fun f => FS.pathExists f filePath);
  _ ← (if (exists_ : bool) then backupExisting pr now_iso filePath else mret tt);
  let tmpPath := filePath +:+ ".tmp" in
  parsed ← snapshot config;
  _ ← fs_do (fun f => FS.writeFile f tmpPath (JSON_stringify parsed));
  fs_do (fun f => FS.move f tmpPath filePath).
End WithStringify.

End ConfigStore.

(* ===================================================================== *)
(** * src/secrets.ts *)
(* ===================================================================== *)

Module Secrets.

Definition SERVICE_NAME : string := "database-cli-dumper".

Inductive SecretStorage := keytar | plaintext.

Record SaveSecretResult := {
  ref : string;
  storage : SecretStorage;
  warning : option string;
}.

(** The module variable [keytarModule] ([undefined] until the first
    [loadKeytar], then the module or [null]) and the system keychain
    behind the module, keyed by service and account. *)
Record state := {
  keytarModule : JS.maybe unit;
  keychain : gmap (string * string) string;
}.

(** [loadKeytar()]; [installed] tells whether [require('keytar')] succeeds. *)
Definition loadKeytar (installed : bool) (st : state) : JS.maybe unit * state :=
  match keytarModule st with
  | Undefined =>
      let m := if installed then Val tt else Null in
      (m, {| keytarModule := m; keychain := keychain st |})
  | m => (m, st)
  end.

(** [existingRef.split(':')[1]]. *)
Definition account_of (existingRef : string) : string :=
  nth 1 (JS.split ":" existingRef) "undefined".

(** [savePassword(password, existingRef)]; [uuid] is what
    [randomUUID()] returns when it is called. *)
Definition savePassword (installed : bool) (uuid : string)
    (password : string) (existingRef : option string) (st : state)
  : SaveSecretResult * state :=
  let '(kt, st1) := loadKeytar installed st in
  let account :=
    match existingRef with
    | Some r => if truthy_str r && startsWith r "keytar:" then account_of r else uuid
    | None => uuid
    end in
  match kt with
  | Val _ =>
      ({| ref := "keytar:" +:+ account; storage := keytar; warning := None |},
       {| keytarModule := keytarModule st1;
          keychain := <[ (SERVICE_NAME, account) := password ]> (keychain st1) |})
  | _ =>
      ({| ref := "plaintext:" +:+ password;
          storage := plaintext;
          warning := Some "keytar unavailable; storing password in plaintext in config" |},
       st1)
  end.

Definition resolvePassword (installed : bool) (ref : string) (st : state)
  : JS.maybe string * state :=
  if negb (truthy_str ref) then (Undefined, st)
  else if startsWith ref "plaintext:" then (Val (slice (String.length "plaintext:") ref), st)
  else if startsWith ref "keytar:" then
    let '(kt, st1) := loadKeytar installed st in
    match kt with
    | Val _ =>
        let account := slice (String.length "keytar:") ref in
        (* a promise is truthy, so [|| undefined] never applies: the
           keychain's answer, a string or null, is what comes out *)
        (match keychain st1 !! (SERVICE_NAME, account) with
         | Some pw => Val pw
         | None => Null
         end, st1)
    | _ => (Undefined, st1)
    end
  else (Undefined, st).

Definition deletePassword (installed : bool) (ref : string) (st : state) : state :=
  if startsWith ref "keytar:" then
    let '(kt, st1) := loadKeytar installed st in
    match kt with
    | Val _ =>
        let account := slice (String.length "keytar:") ref in
        {| keytarModule := keytarModule st1;
           keychain := delete (SERVICE_NAME, account) (keychain st1) |}
    | _ => st1
    end
  else st.

Definition isPlaintextRef (ref : string) : bool := startsWith ref "plaintext:".

(** The keytar backend is unavailable: the module failed to load, or
    it is not installed and has not been looked for yet. *)
Definition keytar_unavailable (installed : bool) (st : state) : Prop :=
  keytarModule st = Null \/ (keytarModule st = Undefined /\ installed = false).

End Secrets.

(* ===================================================================== *)
(** * src/downloader.ts *)
(* ===================================================================== *)

Module Downloader.

Definition MAX_REDIRECTS : nat := 5.

(** What [https.get] hands to the response callback. *)
Record Response := {
  statusCode : option number;
  location : option string;        (* res.headers.location *)
  contentLength : option number;   (* Number(res.headers['content-length']), when finite *)
  chunks : list string;            (* the body, as delivered by 'data' events *)
  complete : bool;                 (* does the body end, or is it cut off *)
}.

Inductive Reply :=
| Answer (res : Response)
| Failure (e : Error).             (* the request emits 'error' *)

(** The servers: the reply to the [n]-th request of a download, by URL;
    and [new URL(input, base)], which throws on what is no URL.  A URL
    object is represented by its [href]. *)
Record Network := {
  serve : nat -> string -> Reply;
  URL_new : string -> option string -> result string;
}.

(** [url.protocol]: the scheme of the href (which a URL object has in
    lower case), with its colon. *)
Definition protocol (url : string) : string :=
  match JS.split ":" url with
  | scheme :: _ :: _ => scheme +:+ ":"
  | _ => ""
  end.

(** [https.get(url, ...)] takes https URLs only: for another protocol it
    throws, before any request is made. *)
Definition https_refusal (url : string) : option Error :=
  if bool_decide (protocol url = "https:") then None
  else
    let quote := String (ascii_of_nat 34) EmptyString in
    Some (mkError ("Protocol " +:+ quote +:+ protocol url +:+ quote
                   +:+ " not supported. Expected " +:+ quote +:+ "https:" +:+ quote)).

(** [res.statusCode && res.statusCode >= 300 && res.statusCode < 400
    && res.headers.location] *)
Definition redirect_target (res : Response) : option string :=
  match statusCode res, location res with
  | Some c, Some l =>
      if truthy_num c && (300 <=? c) && (c <? 400) && truthy_str l then Some l else None
  | _, _ => None
  end.

(** [!res.statusCode || res.statusCode >= 400] *)
Definition bad_status (res : Response) : bool :=
  match statusCode res with
  | Some c => negb (truthy_num c) || (400 <=? c)
  | None => true
  end.

Definition show_status (res : Response) : string :=
  match statusCode res with Some c => show_num c | None => "undefined" end.

(** The running totals reported after each chunk. *)
Fixpoint progress (received : number) (total : option number) (cs : list string)
  : list (number * option number) :=
  match cs with
  | [] => []
  | c :: r =>
      let received' := received + Z.of_nat (String.length c) in
      (received', total) :: progress received' total r
  end.

Definition concat_chunks (cs : list string) : string :=
  fold_right String.append EmptyString cs.

(** The body is streamed to [destination]; the promise resolves when the
    file has been written and closed, rejects when the file stream
    fails, and stays pending when the body never ends. *)
Definition receive (destination : string) (res : Response) : prog (list (number * option number)) :=
  fun w =>
    match FS.writeFile (fs w) destination (concat_chunks (chunks res)) with
    | Ok f =>
        let reports := progress 0 (contentLength res) (chunks res) in
        if complete res then (Ok reports, set_fs w f) else (Never, set_fs w f)
    | Throw e => (Throw e, w)
    | Never => (Never, w)
    end.

Section WithNetwork.
Variable net : Network.
Variable destination : string.

(** The inner [request(currentUrl, redirects)]. *)
Equations request (currentUrl : string) (redirects : nat) (w : World)
  : result (list (number * option number)) * World
  by wf (MAX_REDIRECTS - redirects)%nat lt :=
  request currentUrl redirects w with serve net redirects currentUrl := {
    | Failure e => (Throw e, w)
    | Answer res with redirect_target res := {
        | Some loc with le_lt_dec MAX_REDIRECTS redirects := {
            | left _ => (Throw (mkError "Too many redirects"), w)
            | right _ with URL_new net loc (Some currentUrl) := {
                | Ok next with https_refusal next := {
                    | None => request next (S redirects) w
                    | Some _ => (Never, w)   (* [https.get] throws inside the callback *)
                  }
                | _ => (Never, w)      (* the exception escapes the callback *)
              }
          }
        | None =>
            if bad_status res
            then (Throw (mkError ("Download failed with status " +:+ show_status res)), w)
            else receive destination res w
      }
  }.
Next Obligation. unfold MAX_REDIRECTS in *. lia. Qed.

(** [downloadToFile(urlStr, destination, onProgress)]; the reports
    are what [onProgress] is called with, in order.  What the first
    [https.get] throws is thrown inside the promise executor, so it
    rejects the promise. *)
Definition downloadToFile (urlStr : string) : prog (list (number * option number)) :=
  let dir := Path.dirname destination in
  _ ← tell (EvDownload urlStr destination);
  _ ← fs_do (fun f => FS.ensureDir f dir);
  url ← (fun w => (URL_new net urlStr None, w)) : prog string;
  match https_refusal url with
  | Some e => throw e
  | None => request url 0%nat
  end.

End WithNetwork.

End Downloader.

(* ===================================================================== *)
(** * src/versionMap.ts *)
(* ===================================================================== *)

Module VersionMap.

Definition PINNED_MYSQL_VERSION : string := "8.0.36".

Definition BINARY_MAP : list BinaryDescriptor := [
  {| bd_version := PINNED_MYSQL_VERSION;
     bd_platform := "linux";
     bd_arch := "x64";
     bd_url := "https://cdn.mysql.com/archives/mysql-8.0/mysql-8.0.36-linux-glibc2.28-x86_64.tar.xz";
     bd_sha256 := "ffd80e375834dd07e25cc3c7f03ae1950668ec606655c9cb2eafdfb7e37d6026";
     bd_archiveType := tar_xz;
     bd_innerPathHints := Some ["mysql-8.0.36-linux-glibc2.28-x86_64/bin/mysqldump"; "bin/mysqldump"] |};
  {| bd_version := PINNED_MYSQL_VERSION;
     bd_platform := "linux";
     bd_arch := "arm64";
     bd_url := "https://cdn.mysql.com/archives/mysql-8.0/mysql-8.0.36-linux-glibc2.28-aarch64.tar.xz";
     bd_sha256 := "c05cc22cd0172e348739e2f269107702be24f500e5d820009d19b98ba596da7b";
     bd_archiveType := tar_xz;
     bd_innerPathHints := Some ["mysql-8.0.36-linux-glibc2.28-aarch64/bin/mysqldump"; "bin/mysqldump"] |};
  {| bd_version := PINNED_MYSQL_VERSION;
     bd_platform := "darwin";
     bd_arch := "arm64";
     bd_url := "https://cdn.mysql.com/archives/mysql-8.0/mysql-8.0.36-macos14-arm64.tar.gz";
     bd_sha256 := "c419d50bcbde8ad5e2cb895a2784cca6f1cc30fb26492dbd230abc7bb7bd2377";
     bd_archiveType := tar_gz;
     bd_innerPathHints := Some ["mysql-8.0.36-macos14-arm64/bin/mysqldump"; "bin/mysqldump"] |};
  {| bd_version := PINNED_MYSQL_VERSION;
     bd_platform := "darwin";
     bd_arch := "x64";
     bd_url := "https://cdn.mysql.com/archives/mysql-8.0/mysql-8.0.36-macos14-x86_64.tar.gz";
     bd_sha256 := "99ffdfc3178a4542e4b8ed12582525fb06020c79b8731f6672e55ae5b4357347";
     bd_archiveType := tar_gz;
     bd_innerPathHints := Some ["mysql-8.0.36-macos14-x86_64/bin/mysqldump"; "bin/mysqldump"] |};
  {| bd_version := PINNED_MYSQL_VERSION;
     bd_platform := "win32";
     bd_arch := "x64";
     bd_url := "https://cdn.mysql.com/archives/mysql-8.0/mysql-8.0.36-winx64.zip";
     bd_sha256 := "a1bc2ad567eef672be20b591ad25b14f221e60bde3ae3eb235128d91e4166557";
     bd_archiveType := zip;
     bd_innerPathHints := Some ["mysql-8.0.36-winx64/bin/mysqldump.exe"; "bin/mysqldump.exe"] |}
].

(** [BINARY_MAP.find((b) => b.platform === platform && b.arch === arch)]. *)
Definition resolveBinaryDescriptor (platform arch : string) : option BinaryDescriptor :=
  List.find (fun b => bool_decide (bd_platform b = platform) && bool_decide (bd_arch b = arch))
            BINARY_MAP.

End VersionMap.

(* ===================================================================== *)
(** * src/checksum.ts and src/binaryManager.ts *)
(* ===================================================================== *)

Module BinaryManager.

Definition BINARY_NAMES_win32 : string := "mysqldump.exe".
Definition BINARY_NAMES_default : string := "mysqldump".

(** How a run of [tar] ends. *)
Inductive TarEnd :=
| TarExit (code : option number)
| TarError (e : Error).

(** What lies outside the program: the network, the hash function, the
    two unpackers with what they write (entries relative to the target
    directory) and how they end, and the characters [mkdtemp] picks. *)
Record Outside := {
  net : Downloader.Network;
  sha256_hex : string -> string;
  extractZip : string -> list (list string * FS.node) * option Error;
  tar : string -> string -> list (list string * FS.node) * TarEnd;
  tmp_suffix : string;
}.

(** [sha256File(filePath)] of src/checksum.ts: the digest of the bytes
    read, or the read error. *)
Definition sha256File (out : Outside) (filePath : string) : prog string :=
  content ← fs_try (fun f => FS.readFile f filePath);
  let digest := sha256_hex out content in
  _ ← tell (EvHash filePath digest);
  mret digest.

(** [findBinary(root, names)]: depth first, in directory order.  The
    fuel bounds the depth of the descent. *)
Fixpoint findBinary_fuel (fuel : nat) (f : FS.t) (root : string) (names : list string)
  : result (option string) :=
  match fuel with
  | O => Never
  | S fuel' =>
      match FS.lookup f root with
      | Some FS.Dir =>
          (fix loop (entries : list (string * FS.node)) : result (option string) :=
             match entries with
             | [] => Ok None
             | (name, node) :: rest =>
                 let full := Path.join [root; name] in
                 match node with
                 | FS.Dir =>
                     found ← findBinary_fuel fuel' f full names;
                     match found with
                     | Some p => Ok (Some p)
                     | None => loop rest
                     end
                 | FS.File _ =>
                     if bool_decide (name ∈ names) then Ok (Some full) else loop rest
                 end
             end) (FS.readdir f (FS.key f root))
      | Some (FS.File _) => Throw (mkError "ENOTDIR")
      | None => Throw (mkError "ENOENT")
      end
  end.

Definition findBinary (root : string) (names : list string) : prog (option string) :=
  fs_try (fun f => findBinary_fuel (S (size (FS.nodes f))) f root names).

(** Writing what an unpacker produced below [dir]. *)
Definition write_entries (dir : string) (entries : list (list string * FS.node)) : prog unit :=
  fun w =>
    let f := fs w in
    let m := foldl (fun m (e : list string * FS.node) => <[ FS.key f dir ++ e.1 := e.2 ]> m)
                   (FS.nodes f) entries in
    (Ok tt, set_fs w (FS.with_nodes f m)).

(** [descriptor.archiveType.replace('.', '')]. *)
Definition archive_suffix (a : ArchiveType) : string :=
  match a with zip => "zip" | tar_gz => "targz" | tar_xz => "tarxz" end.

(** The extraction step of [ensureBinary]. *)
Definition extract (out : Outside) (kind : ArchiveType) (archivePath extractDir : string)
  : prog unit :=
  _ ← tell (EvExtract kind archivePath extractDir);
  data ← fs_get (fun f => match FS.lookup f archivePath with
                          | Some (FS.File d) => Some d
                          | _ => None
                          end);
  match kind with
  | zip =>
      match data with
      | None => throw (mkError "ENOENT")
      | Some d =>
          let '(entries, failure) := extractZip out d in
          _ ← write_entries extractDir entries;
          match failure with
          | Some e => throw e
          | None => mret tt
          end
      end
  | _ =>
      let flag := match kind with tar_xz => "-xJf" | _ => "-xzf" end in
      let '(entries, ending) :=
        match data with
        | Some d => tar out flag d
        | None => ([], TarExit (Some 2))
        end in
      _ ← write_entries extractDir entries;
      match ending with
      | TarError e => throw e
      | TarExit code =>
          if bool_decide (code = Some 0) then mret tt
          else throw (mkError ("tar exited with code " +:+ show_code code))
      end
  end.

(** [if (customPath)]: an override counts when it is a non-empty string. *)
Definition supplied (customPath : option string) : option string :=
  match customPath with
  | Some custom => if truthy_str custom then Some custom else None
  | None => None
  end.

Definition mkdtemp (prefix suffix : string) : prog string := fun w =>
  match FS.mkdtemp (fs w) prefix suffix with
  | Ok (p, f) => (Ok p, set_fs w f)
  | Throw e => (Throw e, w)
  | Never => (Never, w)
  end.

(** The checksum test of [ensureBinary]. *)
Definition checksum_mismatch (descriptor : BinaryDescriptor) (actualSha : string) : bool :=
  truthy_str (bd_sha256 descriptor)
  && negb (str_eqb (bd_sha256 descriptor) "REPLACE_WITH_OFFICIAL_SHA256")
  && negb (str_eqb actualSha (bd_sha256 descriptor)).

(** The second half of the download-and-extract branch, once the
    checksum has passed: extract, locate, move into the cache, remove the
    temp directory. *)
Definition extract_and_install (pr : Process) (out : Outside)
    (descriptor : BinaryDescriptor) (tmpDir archivePath targetPath : string) : prog string :=
  let pi := getPlatformInfo pr in
  (* Extract *)
  let extractDir := Path.join [tmpDir; "extract"] in
  _ ← fs_do (fun f => FS.ensureDir f extractDir);
  _ ← extract out (bd_archiveType descriptor) archivePath extractDir;
  found ← findBinary extractDir ["mysqldump"; "mysqldump.exe"];
  match found with
  | None =>
      throw (mkError "mysqldump binary not found in downloaded archive. Check version map or artifact layout.")
  | Some found =>
      _ ← fs_do (fun f => FS.move f found targetPath);
      _ ← (if negb (isWindows pi) then fs_do (fun f => FS.chmod f targetPath)
           else mret tt);
      _ ← fs_do (fun f => FS.remove f tmpDir);
      mret targetPath
  end.

(** The download-and-extract branch of [ensureBinary]: everything
    after the cache miss. *)
Definition download_and_extract (pr : Process) (out : Outside)
    (descriptor : BinaryDescriptor) (cacheDir targetPath : string) : prog string :=
  (* Ensure cache directory exists *)
  _ ← fs_do (fun f => FS.ensureDir f cacheDir);
  (* Prepare download *)
  tmpDir ← mkdtemp (Path.join [os_tmpdir pr; "mysqldump-download-"]) (tmp_suffix out);
  let archivePath :=
    Path.join [tmpDir; "mysqldump-" +:+ bd_platform descriptor +:+ "-"
                       +:+ bd_arch descriptor +:+ "."
                       +:+ archive_suffix (bd_archiveType descriptor)] in
  _ ← Downloader.downloadToFile (net out) archivePath (bd_url descriptor);
  (* Verify checksum *)
  actualSha ← sha256File out archivePath;
  if checksum_mismatch descriptor actualSha
  then throw (mkError ("Checksum mismatch for mysqldump archive. Expected "
                       +:+ bd_sha256 descriptor +:+ ", got " +:+ actualSha +:+ "."))
  else extract_and_install pr out descriptor tmpDir archivePath targetPath.

Definition ensureBinary (pr : Process) (out : Outside) (customPath : option string)
  : prog string :=
  match supplied customPath with
  | Some custom =>
      cwd ← fs_get FS.cwd;
      let resolved := Path.resolve cwd custom in
      exists_ ← fs_get (fun f => FS.pathExists f resolved);
      if negb exists_ then throw (mkError ("Binary override not found at " +:+ resolved))
      else mret resolved
  | None =>
      let pi := getPlatformInfo pr in
      match VersionMap.resolveBinaryDescriptor (platform pi) (arch pi) with
      | None =>
          throw (mkError ("Unsupported platform/arch: " +:+ platform pi +:+ "-" +:+ arch pi
                          +:+ ". Please update version map."))
      | Some descriptor =>
          let cacheDir := Paths.getBinaryCacheDir pr in
          let binaryName := if isWindows pi then BINARY_NAMES_win32 else BINARY_NAMES_default in
          let targetPath := Path.join [cacheDir; binaryName] in
          hit ← fs_get (fun f => FS.pathExists f targetPath);
          if (hit : bool) then mret targetPath
          else download_and_extract pr out descriptor cacheDir targetPath
      end
  end.

End BinaryManager.

(* ===================================================================== *)
(** * Child processes and promises *)
(* ===================================================================== *)

Module Events.

(** What [spawn(file, args, { env, stdio })] is called with, and what
    becomes of the child's standard input and output in the parent. *)
Record Spawn := {
  file : string;
  args : list string;
  MYSQL_PWD : string;
  stdin_piped : bool;              (* stdio[0] is 'pipe' (and is never closed), not 'ignore' *)
  stdout_read : bool;              (* the parent reads the pipe of the child's stdout *)
}.

(** What the event loop delivers while a child runs, in order of
    delivery: the events of the child and of the streams, and the progress
    of the file-system calls the code has started.  An awaited
    file-system call is numbered by the order in which the calls were
    started; the thread pool does its work at one moment ([Perform]), and
    the code after the [await] runs at a later one ([Done]). *)
Inductive event :=
| Stdout (chunk : string)        (* 'data' on the stream the output is read from *)
| Stderr (chunk : string)        (* 'data' on child.stderr *)
| ChildError (err : Error)       (* 'error' on the child: it could not be spawned, ... *)
| Exit (code : option number)    (* 'exit' on the child; the code is null after a signal *)
| WriteError (err : Error)       (* 'error' on the write stream: it could not be opened,
                                    or written, or was written after its end *)
| Tick                           (* the progress timer fires *)
| Opened                         (* the write stream has opened its file *)
| Landed (n : nat)               (* [n] more of the bytes given to the write stream
                                    have reached the file *)
| Perform (i : nat)              (* the work of the [i]-th awaited call is done *)
| Done (i : nat).                (* the promise of the [i]-th awaited call is settled *)

(** What comes of a call of [spawn]: it throws, or there is a child. *)
Inductive Spawned :=
| Refused (e : Error)
| Started (evs : list event).

(** The operating system (and the runtime's checks of the arguments it
    passes on): what a spawn leads to.  It depends on how the child is
    wired: a child whose output nobody reads stops when the pipe is full,
    and its 'exit' then never comes. *)
Definition OS := Spawn -> Spawned.

(** [spawn(file, args, options)]: an empty [file] is refused before the
    system is asked. *)
Definition spawn (os : OS) (sp : Spawn) : Spawned :=
  if truthy_str (file sp) then os sp
  else Refused (mkError "The argument 'file' cannot be empty. Received ''").

Inductive promise (A : Type) :=
| Pending
| Resolved (a : A)
| Rejected (e : Error).
Arguments Pending {A}.
Arguments Resolved {A} a.
Arguments Rejected {A} e.

(** [resolve(a)] and [reject(e)]: only the first settlement counts. *)
Definition resolve {A} (p : promise A) (a : A) : promise A :=
  match p with Pending => Resolved a | _ => p end.
Definition reject {A} (p : promise A) (e : Error) : promise A :=
  match p with Pending => Rejected e | _ => p end.

(** [await p]. *)
Definition await {A} (p : promise A) : result A :=
  match p with
  | Pending => Never
  | Resolved a => Ok a
  | Rejected e => Throw e
  end.

(** The events that end a run. *)
Definition terminal (ev : event) : bool :=
  match ev with
  | ChildError _ | Exit _ | WriteError _ => true
  | _ => false
  end.


End Events.

Export Events.

(* ===================================================================== *)
(** * src/connectionTester.ts *)
(* ===================================================================== *)

Module ConnectionTester.

Definition port_arg (db : DatabaseConfig) : list string :=
  match db_port db with
  | Some p => if truthy_num p then ["--port=" +:+ show_num p] else []
  | None => []
  end.

(** [stdio: 'pipe']: the three streams are piped; the code reads stderr
    only. *)
Definition spawn_of (req : DumpRequest) : Spawn :=
  let db := req_db req in
  {| file := req_binaryPath req;
     args := ["--host=" +:+ db_host db; "--user=" +:+ db_username db]
             ++ port_arg db ++ ["--no-data"] ++ [db_name db];
     MYSQL_PWD := req_password req;
     stdin_piped := true;
     stdout_read := false |}.

Record state := {
  stderr : string;
  settled : promise ConnectionTestResult;
}.

(** The listeners: on stderr data, on 'error', on 'exit'. *)
Definition handle (st : state) (ev : event) : state :=
  match ev with
  | Stderr d => {| stderr := stderr st +:+ d; settled := settled st |}
  | ChildError err =>
      {| stderr := stderr st;
         settled := resolve (settled st)
           {| ok := false; ctr_message := Some (message err); ctr_error := Some err |} |}
  | Exit code =>
      {| stderr := stderr st;
         settled :=
           if bool_decide (code = Some 0)
           then resolve (settled st) {| ok := true; ctr_message := None; ctr_error := None |}
           else resolve (settled st)
             {| ok := false;
                ctr_message := Some (or_str (trim (stderr st))
                                       ("mysqldump exited with code " +:+ show_code code));
                ctr_error := None |} |}
  | _ => st
  end.


End ConnectionTester.

(* ===================================================================== *)
(** * src/dumpRunner.ts *)
(* ===================================================================== *)

Module DumpRunner.

(** [stdio: ['ignore', 'pipe', 'pipe']]; the output is piped on. *)
Definition spawn_of (req : DumpRequest) : Spawn :=
  let db := req_db req in
  {| file := req_binaryPath req;
     args := ["--host=" +:+ db_host db; "--user=" +:+ db_username db]
             ++ ConnectionTester.port_arg db
             ++ req_flags req
             ++ map (fun table => "--ignore-table=" +:+ db_name db +:+ "." +:+ table)
                    (req_excludeTables req)
             ++ [db_name db];
     MYSQL_PWD := req_password req;
     stdin_piped := false;
     stdout_read := true |}.

(** What a listener does once the file-system call it awaits has come
    back. *)
Inductive continuation :=
| RejectWith (err : Error)           (* [await cleanup(err); reject(err)] *)
| RejectExit (code : option number)  (* [await cleanup(...); reject(new Error(stderr || ...))] *)
| ResolveStat.                       (* [const stats = await fs.stat(...); resolve({...})] *)

(** How far an awaited call has come; a call that has been performed
    holds what [fs.stat] found ([fs.remove] finds nothing). *)
Inductive stage :=
| Queued
| Performed (found : result number)
| Finished.

(** The variables the listeners of [runDump] close over, the write
    stream, the awaited calls, and the world. *)
Record state := {
  stderr : string;
  bytes : number;
  timer : bool;                       (* progressInterval is armed *)
  opened : bool;                      (* the write stream has opened its file *)
  ending : bool;                      (* output.close() has been called *)
  unwritten : string;                 (* given to the write stream, not yet in the file *)
  calls : list (continuation * stage);
  outcome : promise DumpResult;       (* the promise [result] *)
  logged : list string;               (* what log.dim printed *)
  world : World;
}.

Definition set_world (st : state) (w : World) : state :=
  {| stderr := stderr st; bytes := bytes st; timer := timer st; opened := opened st;
     ending := ending st; unwritten := unwritten st; calls := calls st;
     outcome := outcome st; logged := logged st; world := w |}.

Definition set_outcome (st : state) (p : promise DumpResult) : state :=
  {| stderr := stderr st; bytes := bytes st; timer := timer st; opened := opened st;
     ending := ending st; unwritten := unwritten st; calls := calls st;
     outcome := p; logged := logged st; world := world st |}.

Definition set_calls (st : state) (cs : list (continuation * stage)) : state :=
  {| stderr := stderr st; bytes := bytes st; timer := timer st; opened := opened st;
     ending := ending st; unwritten := unwritten st; calls := cs;
     outcome := outcome st; logged := logged st; world := world st |}.

Definition set_unwritten (st : state) (u : string) : state :=
  {| stderr := stderr st; bytes := bytes st; timer := timer st; opened := opened st;
     ending := ending st; unwritten := u; calls := calls st;
     outcome := outcome st; logged := logged st; world := world st |}.

(** [clearInterval(progressInterval)]. *)
Definition clearInterval (st : state) : state :=
  {| stderr := stderr st; bytes := bytes st; timer := false; opened := opened st;
     ending := ending st; unwritten := unwritten st; calls := calls st;
     outcome := outcome st; logged := logged st; world := world st |}.

(** [output.close()]: the stream takes no more data; what it has been
    given is still written, and a file that is still to be opened is
    still opened. *)
Definition close (st : state) : state :=
  {| stderr := stderr st; bytes := bytes st; timer := timer st; opened := opened st;
     ending := true; unwritten := unwritten st; calls := calls st;
     outcome := outcome st; logged := logged st; world := world st |}.

(** A file-system call is started and awaited. *)
Definition await_call (k : continuation) (st : state) : state :=
  set_calls st (calls st ++ [(k, Queued)]).

(** [await cleanup(err)] with an error, up to the [await] in it: the
    timer is stopped, the stream closed, and [fs.remove] started. *)
Definition cleanup (k : continuation) (st : state) : state :=
  await_call k (close (clearInterval st)).

(** Bytes reach the file of the write stream: they are appended while
    the file is still at the destination (bytes written to a file that
    has been removed are lost). *)
Definition write_chunk (req : DumpRequest) (chunk : string) (w : World) : World :=
  let f := fs w in
  match FS.lookup f (req_outputPath req) with
  | Some (FS.File d) =>
      set_fs w (FS.with_nodes f
        (<[ FS.key f (req_outputPath req) := FS.File (d +:+ chunk) ]> (FS.nodes f)))
  | _ => w
  end.

(** [`mysqldump exited with ${code}`] unless stderr says more. *)
Definition exit_error (stderr : string) (code : option number) : Error :=
  mkError (or_str stderr ("mysqldump exited with " +:+ show_code code)).

Section Listeners.
Variable req : DumpRequest.
Variables startedAt finishedAt : number.    (* two readings of Date.now() *)

(** The work of an awaited call: [fs.stat(req.outputPath)] reads the
    size, [fs.remove(req.outputPath).catch(() => undefined)] removes what
    is there and swallows a failure. *)
Definition perform (k : continuation) (st : state) : result number * state :=
  match k with
  | ResolveStat => (FS.statSize (fs (world st)) (req_outputPath req), st)
  | _ =>
      let w := world st in
      (Ok 0, set_world st match FS.remove (fs w) (req_outputPath req) with
                          | Ok f => set_fs w f
                          | _ => w
                          end)
  end.

(** The code after the [await].  An [fs.stat] that failed throws there,
    inside the listener: the promise is left as it is. *)
Definition continue (k : continuation) (found : result number) (st : state) : state :=
  match k with
  | RejectWith err => set_outcome st (reject (outcome st) err)
  | RejectExit code => set_outcome st (reject (outcome st) (exit_error (stderr st) code))
  | ResolveStat =>
      match found with
      | Ok size =>
          set_outcome st (resolve (outcome st)
            {| res_outputPath := req_outputPath req;
               res_sizeBytes := size;
               res_durationMs := finishedAt - startedAt;
               res_gzip := req_gzip req |})
      | _ => st
      end
  end.

Definition handle (st : state) (ev : event) : state :=
  match ev with
  | Stderr d =>
      {| stderr := stderr st +:+ d; bytes := bytes st; timer := timer st;
         opened := opened st; ending := ending st; unwritten := unwritten st;
         calls := calls st; outcome := outcome st; logged := logged st;
         world := world st |}
  | Stdout chunk =>
      {| stderr := stderr st; bytes := bytes st + Z.of_nat (String.length chunk);
         timer := timer st; opened := opened st; ending := ending st;
         unwritten := if ending st then unwritten st else unwritten st +:+ chunk;
         calls := calls st; outcome := outcome st; logged := logged st;
         world := world st |}
  | Tick =>
      if timer st then
        {| stderr := stderr st; bytes := bytes st; timer := timer st;
           opened := opened st; ending := ending st; unwritten := unwritten st;
           calls := calls st; outcome := outcome st;
           logged := logged st ++
             ["Dumping... " +:+ show_num ((bytes st + 512) / 1024) +:+ " KB written"];
           world := world st |}
      else st
  | Opened =>
      if opened st then st
      else
        match FS.writeFile (fs (world st)) (req_outputPath req) "" with
        | Ok f =>
            {| stderr := stderr st; bytes := bytes st; timer := timer st;
               opened := true; ending := ending st; unwritten := unwritten st;
               calls := calls st; outcome := outcome st; logged := logged st;
               world := set_fs (world st) f |}
        | _ => st       (* an open that fails shows as a [WriteError] *)
        end
  | Landed n =>
      if opened st then
        set_unwritten
          (set_world st (write_chunk req (take_bytes n (unwritten st)) (world st)))
          (slice n (unwritten st))
      else st
  | WriteError err => cleanup (RejectWith err) st
  | ChildError err => cleanup (RejectWith err) st
  | Exit code =>
      let st1 := clearInterval st in
      if negb (bool_decide (code = Some 0)) then cleanup (RejectExit code) st1
      else await_call ResolveStat st1
  | Perform i =>
      match calls st !! i with
      | Some (k, Queued) =>
          let '(found, st1) := perform k st in
          set_calls st1 (<[ i := (k, Performed found) ]> (calls st1))
      | _ => st
      end
  | Done i =>
      match calls st !! i with
      | Some (k, Performed found) =>
          continue k found (set_calls st (<[ i := (k, Finished) ]> (calls st)))
      | _ => st
      end
  end.

Definition initial (w : World) : state :=
  {| stderr := ""; bytes := 0; timer := true; opened := false; ending := false;
     unwritten := ""; calls := []; outcome := Pending; logged := []; world := w |}.

(** The state of the listeners when the events [evs] have been handled. *)
Definition final (evs : list event) (w : World) : state :=
  fold_left handle evs (initial w).

(** [runDump(req)].  The chunks the system delivers are those of
    [source]: the child's output, compressed when [req.gzip] is set.
    What [spawn] throws is thrown before the output file is touched. *)
Definition runDump (os : OS) : prog DumpResult := fun w =>
  match FS.ensureDir (fs w) (Path.dirname (req_outputPath req)) with
  | Throw e => (Throw e, w)
  | Never => (Never, w)
  | Ok f1 =>
      match spawn os (spawn_of req) with
      | Refused e => (Throw e, set_fs w f1)
      | Started evs =>
          let st := final evs (set_fs w f1) in
          (await (outcome st), world st)
      end
  end.

End Listeners.

End DumpRunner.

(* ===================================================================== *)
(** * src/flagsCatalog.ts *)
(* ===================================================================== *)

Module FlagsCatalog.

(** [FlagOption] of src/types.ts. *)
Record FlagOption := {
  fo_id : string;
  fo_flag : string;
  fo_label : string;
  fo_description : string;
  fo_caution : option string;
  fo_defaultSelected : option bool;
}.

Definition CATALOG : list FlagOption := [
  {| fo_id := "single-transaction"; fo_flag := "--single-transaction";
     fo_label := "Single transaction";
     fo_description := "Consistent snapshot without locking tables (InnoDB)";
     fo_caution := None; fo_defaultSelected := Some true |};
  {| fo_id := "quick"; fo_flag := "--quick";
     fo_label := "Stream rows";
     fo_description := "Retrieve rows directly from server to stdout";
     fo_caution := None; fo_defaultSelected := Some true |};
  {| fo_id := "routines"; fo_flag := "--routines";
     fo_label := "Include routines";
     fo_description := "Dump stored procedures and functions";
     fo_caution := None; fo_defaultSelected := None |};
  {| fo_id := "triggers"; fo_flag := "--triggers";
     fo_label := "Include triggers";
     fo_description := "Dump triggers";
     fo_caution := None; fo_defaultSelected := None |};
  {| fo_id := "events"; fo_flag := "--events";
     fo_label := "Include events";
     fo_description := "Dump events";
     fo_caution := None; fo_defaultSelected := None |};
  {| fo_id := "set-gtid-off"; fo_flag := "--set-gtid-purged=OFF";
     fo_label := "GTID purged OFF";
     fo_description := "Avoid GTID statements for portability";
     fo_caution := None; fo_defaultSelected := Some true |};
  {| fo_id := "hex-blob"; fo_flag := "--hex-blob";
     fo_label := "Hex encode blobs";
     fo_description := "Dump binary data as hex";
     fo_caution := None; fo_defaultSelected := None |};
  {| fo_id := "column-statistics"; fo_flag := "--column-statistics=0";
     fo_label := "Disable column statistics";
     fo_description := "Avoid histogram queries (compatibility)";
     fo_caution := None; fo_defaultSelected := Some true |};
  {| fo_id := "master-data"; fo_flag := "--master-data=2";
     fo_label := "Master data (binlog pos)";
     fo_description := "Include CHANGE MASTER log position (may lock briefly)";
     fo_caution := Some "Enables binlog position; ensure server permissions and implications.";
     fo_defaultSelected := None |};
  {| fo_id := "skip-lock-tables"; fo_flag := "--skip-lock-tables";
     fo_label := "Skip lock tables";
     fo_description := "Do not lock tables (not consistent for MyISAM)";
     fo_caution := None; fo_defaultSelected := None |};
  {| fo_id := "add-drop-table"; fo_flag := "--add-drop-table";
     fo_label := "Add DROP TABLE";
     fo_description := "Include DROP TABLE statements";
     fo_caution := None; fo_defaultSelected := Some true |};
  {| fo_id := "no-create-db"; fo_flag := "--no-create-db";
     fo_label := "No CREATE DATABASE";
     fo_description := "Omit CREATE DATABASE from dump";
     fo_caution := None; fo_defaultSelected := None |};
  {| fo_id := "charset-utf8mb4"; fo_flag := "--default-character-set=utf8mb4";
     fo_label := "UTF8MB4";
     fo_description := "Set default character set to utf8mb4";
     fo_caution := None; fo_defaultSelected := Some true |}
].

(** [getFlagCatalog()]: a copy of the array, with the same entries. *)
Definition getFlagCatalog : list FlagOption := CATALOG.

(** [resolveFlags(selectedIds, customFlags)]. *)
Definition resolveFlags (selectedIds : list string) (customFlags : option (list string))
  : list string :=
  let idSet : gset string := list_to_set selectedIds in
  let picked := map fo_flag (filter (fun f => fo_id f ∈ idSet) CATALOG) in
  match customFlags with
  | Some custom => if negb (length custom =? 0)%nat then picked ++ custom else picked
  | None => picked
  end.

End FlagsCatalog.

(* ===================================================================== *)
(** * src/prompts.ts *)
(* ===================================================================== *)

Module Prompts.
Import FlagsCatalog.

(** The person at the terminal: what a prompt of the [prompts] library
    comes back with, given the message and what the prompt shows.  [None]
    is a prompt that was cancelled: the property is missing from the
    answer. *)
Record Terminal := {
  text : string -> option string -> option string;        (* message, initial *)
  multiselect : string -> list (string * string * bool) -> option (list string);
                                                           (* message; title, value, selected *)
}.

(** The characters of [/[,\s]/]: the comma and the white space. *)
Definition SEPARATORS : list string := "," :: WHITE_SPACE.

(** [s.split(/[,\s]+/)]: the fields between the maximal runs of
    separators; a run at either end leaves an empty field there.
    [skip] counts the bytes of the current separator that are still to
    pass, [in_run] tells that the character before was a separator. *)
Fixpoint split_runs (skip : nat) (in_run : bool) (s : string) : list string :=
  match s with
  | EmptyString => [EmptyString]
  | String c r =>
      match skip with
      | S k => split_runs k in_run r
      | O =>
          match lead_len SEPARATORS s with
          | S k => if in_run then split_runs k true r else EmptyString :: split_runs k true r
          | O =>
              match split_runs 0 false r with
              | [] => [String c EmptyString]
              | x :: xs => String c x :: xs
              end
          end
      end
  end.

(** [.map((c) => c.trim()).filter(Boolean)]. *)
Definition trimmed_nonempty (fields : list string) : list string :=
  filter (fun c => truthy_str c = true) (map trim fields).

(** The choice shown for a catalog entry. *)
Definition choice_title (f : FlagOption) : string :=
  fo_flag f +:+ " — " +:+ fo_label f
  +:+ match fo_caution f with
      | Some c => if truthy_str c then " [" +:+ c +:+ "]" else ""
      | None => ""
      end.

(** [promptFlagPicker(existingSelected, existingCustom)]: the pair of
    [selectedFlagIds] and [customFlags]. *)
Definition promptFlagPicker (tty : Terminal)
    (existingSelected existingCustom : option (list string)) : list string * list string :=
  let catalog := getFlagCatalog in
  let selectedSet : gset string :=
    list_to_set
      (match existingSelected with
       | Some ids => ids
       | None => map fo_id (filter (fun f => fo_defaultSelected f = Some true) catalog)
       end) in
  let flagIds :=
    multiselect tty "Select mysqldump flags"
      (map (fun f => (choice_title f, fo_id f, bool_decide (fo_id f ∈ selectedSet))) catalog) in
  let customRaw :=
    text tty "Custom flags (space/comma separated, optional)"
      (Some (JS.join " " (default [] existingCustom))) in
  let customFlags := trimmed_nonempty (split_runs 0 false (or_opt_str customRaw "")) in
  (default [] flagIds, customFlags).

(** [promptExcludeTables()]. *)
Definition promptExcludeTables (tty : Terminal) : list string :=
  match text tty "Tables to exclude (comma-separated, optional)" None with
  | Some tables =>
      if truthy_str tables then trimmed_nonempty (JS.split "," tables) else []
  | None => []
  end.

End Prompts.

(* ===================================================================== *)
(** * src/app.tsx: the menu *)
(* ===================================================================== *)

Module App.

(** What Ink tells the input handler about a key press, as far as the
    menu looks at it. *)
Record Key := {
  upArrow : bool;
  downArrow : bool;
  return_ : bool;
}.

(** [items[index].value]: a [TypeError] where there is no such item. *)
Definition item_value {A} (items : list A) (index : number) : result A :=
  if index <? 0 then Throw (mkError "TypeError")
  else match items !! Z.to_nat index with
       | Some item => Ok item
       | None => Throw (mkError "TypeError")
       end.

(** The input handler of [Menu], run for a key press in a render that
    shows [index]: the index after the queued updates
    [(i) => (i === 0 ? items.length - 1 : i - 1)] and
    [(i) => (i === items.length - 1 ? 0 : i + 1)], and what [onSelect] is
    called with, if it is called. *)
Definition Menu_input {A} (items : list A) (index : number) (key : Key)
  : number * option (result A) :=
  let len := Z.of_nat (length items) in
  let i1 := if upArrow key then (if index =? 0 then len - 1 else index - 1) else index in
  let i2 := if downArrow key then (if i1 =? len - 1 then 0 else i1 + 1) else i1 in
  (i2, if return_ key then Some (item_value items index) else None).

(** The index shown after a sequence of key presses, from [useState(0)]. *)
Definition Menu_index {A} (items : list A) (keys : list Key) : number :=
  fold_left (fun index key => (Menu_input items index key).1) keys 0.

End App.

(* ===================================================================== *)
(** * Sample data *)
(* ===================================================================== *)

Definition linux_box : Process :=
  {| os_platform := "linux"; os_arch := "x64"; os_homedir := "/home/u";
     os_tmpdir := "/tmp"; env_APPDATA := None; env_XDG_CONFIG_HOME := None |}.



Definition sample_db : DatabaseConfig :=
  {| db_id := "database-test-entry"; db_dbType := mysql; db_environment := "test";
     db_name := "sample-db"; db_alias := None; db_host := "localhost"; db_port := None;
     db_username := "root"; db_passwordRef := "password-ref"; db_selectedFlags := [];
     db_customFlags := None; db_gzipDefault := None;
     db_createdAt := "2024-05-06T07:08:09.123Z"; db_updatedAt := "2024-05-06T07:08:09.123Z" |}.

(** The same target after an edit: same id, another host. *)
Definition sample_db_edited : DatabaseConfig :=
  {| db_id := "database-test-entry"; db_dbType := mysql; db_environment := "test";
     db_name := "sample-db"; db_alias := None; db_host := "db.internal"; db_port := Some 3306;
     db_username := "root"; db_passwordRef := "password-ref"; db_selectedFlags := [];
     db_customFlags := None; db_gzipDefault := None;
     db_createdAt := "2024-05-06T07:08:09.123Z"; db_updatedAt := "2024-06-01T00:00:00.000Z" |}.

Definition linux_fs : FS.t :=
  {| FS.nodes := {[ [] := FS.Dir; ["tmp"] := FS.Dir; ["home"] := FS.Dir;
                    ["home"; "u"] := FS.Dir ]};
     FS.immutable := ∅;
     FS.cwd := "/home/u" |}.

Definition fresh_world : World :=
  {| fs := linux_fs; heap := ConfigStore.module_heap; log := [] |}.

(** A process that holds one configuration, at location 1, with one target. *)
Definition one_target_world : World :=
  {| fs := linux_fs;
     heap := {| Heap.objects :=
                  <[ 1%nat := {| Heap.version := Some 1; Heap.databases := 1%nat;
                                 Heap.defaults := None |} ]>
                    (Heap.objects ConfigStore.module_heap);
                Heap.arrays := <[ 1%nat := [sample_db] ]> (Heap.arrays ConfigStore.module_heap) |};
     log := [] |}.

(** [deleteDatabase(upsertDatabase(config, entry), entry.id)]. *)
Definition delete_after_upsert (config : Heap.loc) (entry : DatabaseConfig) : prog Heap.loc :=
  c ← ConfigStore.upsertDatabase config entry;
  ConfigStore.deleteDatabase c (db_id entry).

(** The target list of [config] after [delete(upsert(config, entry), entry.id)]
    has the count and the members it had before. *)
Definition restores (w : World) (config : Heap.loc) (entry : DatabaseConfig) : Prop :=
  exists before after c' w',
    Heap.targets (heap w) config = Some before
    /\ delete_after_upsert config entry w = (Ok c', w')
    /\ Heap.targets (heap w') c' = Some after
    /\ length after = length before
    /\ (forall d, d ∈ after <-> d ∈ before).


Definition sample_request : DumpRequest :=
  {| req_db := sample_db; req_password := "pw";
     req_outputPath := "/tmp/database-cli-dumper/test/sample-db/sample-db-2024-05-06T07-08-09-123Z.sql";
     req_gzip := false; req_excludeTables := []; req_flags := ["--single-transaction"; "--quick"];
     req_binaryPath := "/home/u/.database-cli-dumper/bin/linux-x64/mysqldump" |}.


(** The no-break space, U+00A0. *)
Definition nbsp : string := bytes [194; 160].



Definition redirect_reply (loc : string) : Downloader.Reply :=
  Downloader.Answer
    {| Downloader.statusCode := Some 302; Downloader.location := Some loc;
       Downloader.contentLength := None; Downloader.chunks := [];
       Downloader.complete := true |}.

Definition body_reply (chunks : list string) : Downloader.Reply :=
  Downloader.Answer
    {| Downloader.statusCode := Some 200; Downloader.location := None;
       Downloader.contentLength := None; Downloader.chunks := chunks;
       Downloader.complete := true |}.

(** A mirror: the archive URL redirects once to the host that has the bytes. *)
Definition mirror_net : Downloader.Network :=
  {| Downloader.serve := fun _ u =>
       if bool_decide (u = "https://cdn.example/archive") then redirect_reply "https://mirror.example/archive"
       else if bool_decide (u = "https://mirror.example/archive") then body_reply ["arch"; "ive"]
       else Downloader.Failure (mkError "ENOTFOUND");
     Downloader.URL_new := fun input _ => Ok input |}.




(** The double quote, for JSON text. *)
Definition dq : string := String (ascii_of_nat 34) EmptyString.

(** [{"version": 2, "databases": []}]: a file written by a newer release. *)
Definition config_v2_text : string :=
  "{" +:+ dq +:+ "version" +:+ dq +:+ ": 2, " +:+ dq +:+ "databases" +:+ dq +:+ ": []}".

(** [{"databases": []}]: a file from before the version field existed. *)
Definition config_v0_text : string :=
  "{" +:+ dq +:+ "databases" +:+ dq +:+ ": []}".

(** [JSON.parse] on the two texts above. *)
Definition sample_JSON_parse (text : string) : result ConfigStore.Parsed :=
  if bool_decide (text = config_v2_text)
  then Ok {| ConfigStore.p_version := Some 2; ConfigStore.p_databases := [];
             ConfigStore.p_defaults := None |}
  else if bool_decide (text = config_v0_text)
  then Ok {| ConfigStore.p_version := None; ConfigStore.p_databases := [];
             ConfigStore.p_defaults := None |}
  else Throw (mkError "SyntaxError").

Definition world_with_config (text : string) : World :=
  {| fs := FS.with_nodes linux_fs
             (<[ ["home"; "u"; "config.json"] := FS.File text ]> (FS.nodes linux_fs));
     heap := ConfigStore.module_heap;
     log := [] |}.




(** The exporter fails at once: the file is removed before the write
    stream has opened it. *)
Definition hasty_failure_os : OS := fun _ =>
  Started [Exit (Some 2); Perform 0; Done 0; Opened].

(** The exporter is done at once: [fs.stat] looks before the write
    stream has opened the file. *)
Definition hasty_success_os : OS := fun _ =>
  Started [Stdout "hello"; Exit (Some 0); Perform 0; Done 0; Opened; Landed 5].


(** A CDN that delivers other bytes than the pinned archive, and a hash
    function that tells them apart. *)
Definition tampered_net : Downloader.Network :=
  {| Downloader.serve := fun _ _ => body_reply ["not the "; "archive"];
     Downloader.URL_new := fun input _ => Ok input |}.

Definition toy_sha256 (data : string) : string :=
  if bool_decide (data = "not the archive")
  then "0000000000000000000000000000000000000000000000000000000000000000"
  else "ffd80e375834dd07e25cc3c7f03ae1950668ec606655c9cb2eafdfb7e37d6026".

Definition tampered_outside : BinaryManager.Outside :=
  {| BinaryManager.net := tampered_net;
     BinaryManager.sha256_hex := toy_sha256;
     BinaryManager.extractZip := fun _ => ([], None);
     BinaryManager.tar := fun _ _ => ([], BinaryManager.TarExit (Some 0));
     BinaryManager.tmp_suffix := "Ab3dE9" |}.

(** The pinned archive, for the toy hash function: it unpacks to a tree
    with the exporter in [bin]. *)
Definition honest_net : Downloader.Network :=
  {| Downloader.serve := fun _ _ => body_reply ["pinned "; "archive"];
     Downloader.URL_new := fun input _ => Ok input |}.

Definition honest_outside : BinaryManager.Outside :=
  {| BinaryManager.net := honest_net;
     BinaryManager.sha256_hex := toy_sha256;
     BinaryManager.extractZip := fun _ => ([], None);
     BinaryManager.tar := fun _ _ =>
       ([ (["mysql-8.0.36-linux-glibc2.28-x86_64"], FS.Dir);
          (["mysql-8.0.36-linux-glibc2.28-x86_64"; "bin"], FS.Dir);
          (["mysql-8.0.36-linux-glibc2.28-x86_64"; "bin"; "mysqldump"], FS.File "ELF") ],
        BinaryManager.TarExit (Some 0));
     BinaryManager.tmp_suffix := "Ab3dE9" |}.

(** The pinned archive, but without the exporter in it. *)
Definition hollow_outside : BinaryManager.Outside :=
  {| BinaryManager.net := honest_net;
     BinaryManager.sha256_hex := toy_sha256;
     BinaryManager.extractZip := fun _ => ([], None);
     BinaryManager.tar := fun _ _ =>
       ([ (["README"], FS.File "nothing here") ], BinaryManager.TarExit (Some 0));
     BinaryManager.tmp_suffix := "Ab3dE9" |}.

(** The pinned archive, on a machine where [tar] fails. *)
Definition broken_tar_outside : BinaryManager.Outside :=
  {| BinaryManager.net := honest_net;
     BinaryManager.sha256_hex := toy_sha256;
     BinaryManager.extractZip := fun _ => ([], None);
     BinaryManager.tar := fun _ _ => ([], BinaryManager.TarExit (Some 2));
     BinaryManager.tmp_suffix := "Ab3dE9" |}.

Global Instance Defaults_eq_dec : EqDecision Defaults.
Proof. solve_decision. Defined.

Global Instance Parsed_eq_dec : EqDecision ConfigStore.Parsed.
Proof. solve_decision. Defined.

(** The configuration of [one_target_world] as [saveConfig] prints it. *)
Definition sample_saved : ConfigStore.Parsed :=
  {| ConfigStore.p_version := Some 1; ConfigStore.p_databases := [sample_db];
     ConfigStore.p_defaults := None |}.

(** A JSON string literal. *)
Definition jstr (s : string) : string := dq +:+ s +:+ dq.

Definition sample_saved_text : string :=
  "{" +:+ jstr "version" +:+ ": 1, " +:+ jstr "databases" +:+ ": [{"
  +:+ jstr "id" +:+ ": " +:+ jstr "database-test-entry" +:+ ", "
  +:+ jstr "dbType" +:+ ": " +:+ jstr "mysql" +:+ ", "
  +:+ jstr "environment" +:+ ": " +:+ jstr "test" +:+ ", "
  +:+ jstr "name" +:+ ": " +:+ jstr "sample-db" +:+ ", "
  +:+ jstr "host" +:+ ": " +:+ jstr "localhost" +:+ ", "
  +:+ jstr "username" +:+ ": " +:+ jstr "root" +:+ ", "
  +:+ jstr "passwordRef" +:+ ": " +:+ jstr "password-ref" +:+ ", "
  +:+ jstr "selectedFlags" +:+ ": [], "
  +:+ jstr "createdAt" +:+ ": " +:+ jstr "2024-05-06T07:08:09.123Z" +:+ ", "
  +:+ jstr "updatedAt" +:+ ": " +:+ jstr "2024-05-06T07:08:09.123Z" +:+ "}]}".

(** [JSON.stringify] and [JSON.parse] on that configuration and its text. *)
Definition sample_JSON_stringify (p : ConfigStore.Parsed) : string :=
  if bool_decide (p = sample_saved) then sample_saved_text else "{}".

Definition sample_JSON_reader (text : string) : result ConfigStore.Parsed :=
  if bool_decide (text = sample_saved_text) then Ok sample_saved
  else sample_JSON_parse text.

(** The process of [one_target_world] on a machine where an older
    configuration file is in its default place. *)
Definition world_with_default_config : World :=
  {| fs := FS.with_nodes linux_fs
             (<[ ["home"; "u"; ".config"; "database-cli-dumper"; "config.json"]
                   := FS.File config_v0_text ]>
                (<[ ["home"; "u"; ".config"; "database-cli-dumper"] := FS.Dir ]>
                   (<[ ["home"; "u"; ".config"] := FS.Dir ]> (FS.nodes linux_fs))));
     heap := heap one_target_world;
     log := [] |}.


(** Someone who presses Enter at every prompt. *)
Definition enter_presser : Prompts.Terminal :=
  {| Prompts.text := fun _ initial => initial;
     Prompts.multiselect := fun _ choices =>
       Some (map (fun c : string * string * bool => c.1.2)
                 (filter (fun c : string * string * bool => c.2 = true) choices)) |}.

(* ===================================================================== *)
(** * Vocabulary of the statements *)
(* ===================================================================== *)

(** The array after [upsertDatabase]: replace at the first index that
    holds the id, else append. *)
Definition upserted (arr : list DatabaseConfig) (entry : DatabaseConfig) : list DatabaseConfig :=
  match ConfigStore.findIndex (db_id entry) arr with
  | Some idx => <[ idx := entry ]> arr
  | None => arr ++ [entry]
  end.

Section RedirectChains.
Import Downloader.
Variable net : Network.
Variable destination : string.

(** What [request] does with a reply that is not followed. *)
Definition settle (reply : Reply) (w : World)
  : result (list (number * option number)) * World :=
  match reply with
  | Failure e => (Throw e, w)
  | Answer res =>
      if bad_status res
      then (Throw (mkError ("Download failed with status " +:+ show_status res)), w)
      else receive destination res w
  end.

(** A redirect reply: a status in [300,400) and a Location header, which
    names [loc]. *)
Definition redirects (reply : Reply) (loc : string) : Prop :=
  exists res code,
    reply = Answer res /\ statusCode res = Some code /\ 300 <= code < 400
    /\ location res = Some loc /\ loc <> "".




End RedirectChains.

(** What a loaded configuration shows: its version and its targets. *)
Definition version_of (w : World) (config : Heap.loc) : option number :=
  o ← Heap.objects (heap w) !! config; Heap.version o.

Definition defaults_of (w : World) (config : Heap.loc) : option Defaults :=
  o ← Heap.objects (heap w) !! config; Heap.defaults o.

(** The version [loadConfig] leaves in memory for an on-disk version. *)
Definition loaded_version (on_disk : option number) : number :=
  match on_disk with
  | Some v => if truthy_num v then v else 1
  | None => 1
  end.

(** The value of a call that is known to return. *)
Definition value_of {A} (r : result A) (otherwise : A) : A :=
  match r with Ok a => a | _ => otherwise end.






(** A string without separator. *)
Fixpoint no_sep (s : string) : bool :=
  match s with
  | EmptyString => true
  | String c r => negb (Path.is_sep c) && no_sep r
  end.

(** A plain segment: a name, neither empty nor a dot entry. *)
Definition plain (s : string) : bool :=
  no_sep s && negb (bool_decide (s = "")) && negb (bool_decide (s = "."))
  && negb (bool_decide (s = "..")).

(** The absolute path with the given segments. *)
Definition abs_of (segs : list string) : string := "/" +:+ JS.join "/" segs.



Definition world_with_local_binary : World :=
  {| fs := FS.with_nodes linux_fs
             (<[ ["home"; "u"; "bin"; "mysqldump"] := FS.File "ELF" ]>
                (<[ ["home"; "u"; "bin"] := FS.Dir ]> (FS.nodes linux_fs)));
     heap := ConfigStore.module_heap;
     log := [] |}.

(** Every run of [m] adds events that satisfy [P], and only adds. *)
Definition appends (P : effect -> Prop) {A} (m : prog A) : Prop :=
  forall w r w', m w = (r, w') -> exists evs, log w' = log w ++ evs /\ Forall P evs.

Definition is_extract (e : effect) : Prop :=
  match e with EvExtract _ _ _ => True | _ => False end.

(** The name [ensureBinary] gives the downloaded archive. *)
Definition archive_name (d : BinaryDescriptor) : string :=
  "mysqldump-" +:+ bd_platform d +:+ "-" +:+ bd_arch d +:+ "."
  +:+ BinaryManager.archive_suffix (bd_archiveType d).

(** What the proofs need of a catalog entry: its names are plain
    segments, differ from the exporter's, and its checksum is checked. *)
Definition descriptor_ok (d : BinaryDescriptor) : bool :=
  plain (bd_platform d +:+ "-" +:+ bd_arch d)
  && plain (archive_name d)
  && truthy_str (bd_sha256 d)
  && negb (str_eqb (bd_sha256 d) "REPLACE_WITH_OFFICIAL_SHA256")
  && negb (str_eqb (archive_name d) "mysqldump")
  && negb (str_eqb (archive_name d) "mysqldump.exe").

(** The error of the checksum test. *)
Definition mismatch_error (d : BinaryDescriptor) (actual : string) : Error :=
  mkError ("Checksum mismatch for mysqldump archive. Expected "
           +:+ bd_sha256 d +:+ ", got " +:+ actual +:+ ".").

(** What a run added to the log. *)
Definition new_events (before after : World) : list effect :=
  drop (length (log before)) (log after).

(** The cache path of [ensureBinary]. *)
Definition cache_path (pr : Process) : string :=
  Path.join [Paths.getBinaryCacheDir pr;
             if isWindows (getPlatformInfo pr) then BinaryManager.BINARY_NAMES_win32
             else BinaryManager.BINARY_NAMES_default].

(** The path with the given segments, absolute or relative. *)
Definition render (absolute : bool) (segs : list string) : string :=
  (if absolute then "/" else "") +:+ JS.join "/" segs.

(** The normal form of a segment list: [".."] entries first (none when
    [allow] is false), plain names after them. *)
Definition normal (allow : bool) (l : list string) : Prop :=
  exists ups plains,
    l = ups ++ plains
    /\ Forall (fun s => s = "..") ups
    /\ Forall (fun s => plain s = true) plains
    /\ (allow = false -> ups = []).

(** The flags [resolveFlags] takes from the catalog: those of the
    entries whose id is among [ids], in catalog order. *)
Definition picked_flags (ids : list string) : list string :=
  map FlagsCatalog.fo_flag (filter (fun f => FlagsCatalog.fo_id f ∈ ids) FlagsCatalog.CATALOG).

(** The keytar backend is available: the module has been loaded, or it
    is installed and has not been looked for yet. *)
Definition keytar_available (installed : bool) (st : Secrets.state) : Prop :=
  Secrets.keytarModule st = Val tt
  \/ (Secrets.keytarModule st = Undefined /\ installed = true).

(** A string in which the character [c] does not occur. *)
Fixpoint lacks (c : ascii) (s : string) : bool :=
  match s with
  | EmptyString => true
  | String x r => negb (Ascii.eqb x c) && lacks c r
  end.

(** The ids of a target list, in order. *)
Definition ids_of (arr : list DatabaseConfig) : list string := map db_id arr.

(** Load a configuration, add a target to it, load a configuration
    again: the two objects loaded. *)
Definition load_upsert_load (JSON_parse : string -> result ConfigStore.Parsed) (pr : Process)
    (path1 path2 : option string) (entry : DatabaseConfig) : prog (Heap.loc * Heap.loc) :=
  l1 ← ConfigStore.loadConfig JSON_parse pr path1;
  _ ← ConfigStore.upsertDatabase l1 entry;
  l2 ← ConfigStore.loadConfig JSON_parse pr path2;
  mret (l1, l2).

(** A configuration object after [config.version = SCHEMA_VERSION]. *)
Definition stamped (o : Heap.ConfigFile) : Heap.ConfigFile :=
  {| Heap.version := Some ConfigStore.SCHEMA_VERSION;
     Heap.databases := Heap.databases o;
     Heap.defaults := Heap.defaults o |}.

(** The name of the backup [saveConfig] makes at the time [now_iso]. *)
Definition backup_name (now_iso : string) : string :=
  "config.bak." +:+ OutputPaths.timestampString now_iso +:+ ".json".

(** The size of the body of a reply, in bytes. *)
Definition body_size (res : Downloader.Response) : number :=
  Z.of_nat (String.length (Downloader.concat_chunks (Downloader.chunks res))).



(** The temp directory of [ensureBinary]. *)
Definition tmp_dir (pr : Process) (out : BinaryManager.Outside) : string :=
  Path.join [os_tmpdir pr; "mysqldump-download-"] +:+ BinaryManager.tmp_suffix out.

(** A string in which no comma and no white space occurs. *)
Fixpoint unbroken (s : string) : bool :=
  match s with
  | EmptyString => true
  | String _ r =>
      forallb (fun q => negb (String.prefix q s)) ("," :: WHITE_SPACE) && unbroken r
  end.

(** A word: not empty, and unbroken. *)
Definition word (s : string) : bool := truthy_str s && unbroken s.

(** A person who confirms every prompt as it is shown: the text that is
    pre-filled, the choices that are pre-selected. *)
Definition confirms_all (tty : Prompts.Terminal) : Prop :=
  (forall message initial, Prompts.text tty message (Some initial) = Some initial)
  /\ (forall message choices,
        Prompts.multiselect tty message choices
        = Some (map (fun c : string * string * bool => c.1.2)
                    (filter (fun c : string * string * bool => c.2 = true) choices))).

(** The first character of a string, if any, is no white space. *)
Definition starts_clean (s : string) : Prop :=
  Forall (fun q => String.prefix q s = false) WHITE_SPACE.

(** The last character of a string, if any, is no white space. *)
Definition ends_clean (s : string) : Prop :=
  Forall (fun q => String.prefix (String.rev q) (String.rev s) = false) WHITE_SPACE.

(** A string made of characters of [seqs] only. *)
Inductive made_of (seqs : list string) : string -> Prop :=
| made_nil : made_of seqs ""
| made_cons q s : q ∈ seqs -> made_of seqs s -> made_of seqs (q +:+ s).

(** A string of white space only. *)
Definition blank (s : string) : Prop := made_of WHITE_SPACE s.

(** [t] is [s] without the white space at its two ends. *)
Definition trimmed (s t : string) : Prop :=
  exists a b, s = a +:+ t +:+ b /\ blank a /\ blank b /\ starts_clean t /\ ends_clean t.

(** How often the progress timer fires in a stretch of events. *)
Fixpoint ticks_of (evs : list event) : nat :=
  match evs with
  | [] => O
  | Tick :: r => S (ticks_of r)
  | _ :: r => ticks_of r
  end.

(* ===================================================================== *)
(** * Properties *)
(* ===================================================================== *)

Lemma value_of_ok {A} (r : result A) (d : A) : is_ok r = true -> r = Ok (value_of r d).
Proof. by destruct r. Qed.

Example path_join_ex1 : Path.join ["/tmp"; "database-cli-dumper"] = "/tmp/database-cli-dumper".
Proof. reflexivity. Qed.
Example path_join_ex2 : Path.join ["/a/b"; ".."; "c"] = "/a/c".
Proof. reflexivity. Qed.
Example path_join_ex3 : Path.join ["a"; ""; "../../b/"] = "../b/".
Proof. reflexivity. Qed.
Example path_resolve_ex1 : Path.resolve "/home/u" "./bin/mysqldump" = "/home/u/bin/mysqldump".
Proof. reflexivity. Qed.
Example path_resolve_ex2 : Path.resolve "/home/u" "/usr//bin/../bin/mysqldump/" = "/usr/bin/mysqldump".
Proof. reflexivity. Qed.
Example path_dirname_ex1 : Path.dirname "/a/b/c.json" = "/a/b".
Proof. reflexivity. Qed.
Example path_dirname_ex2 : Path.dirname "c.json" = ".".
Proof. reflexivity. Qed.
Example path_dirname_ex3 : Path.dirname "/c.json" = "/".
Proof. reflexivity. Qed.
Example path_dirname_ex4 : Path.dirname "/a//b/" = "/a/".
Proof. reflexivity. Qed.
Example path_dirname_ex5 : Path.dirname "a/" = ".".
Proof. reflexivity. Qed.

Example defaultDumpPath_ex1 :
  OutputPaths.defaultDumpPath linux_box "2024-05-06T07:08:09.123Z" "local" "sample-db" false None
  = "/tmp/database-cli-dumper/local/sample-db/sample-db-2024-05-06T07-08-09-123Z.sql".
Proof. reflexivity. Qed.

(** The checks of test/versionMap.test.js. *)
Example resolveBinaryDescriptor_linux_x64 :
  exists d, VersionMap.resolveBinaryDescriptor "linux" "x64" = Some d
            /\ bd_platform d = "linux" /\ bd_arch d = "x64"
            /\ bd_version d = VersionMap.PINNED_MYSQL_VERSION.
Proof. eexists. split; [reflexivity |]. done. Qed.

Example BINARY_MAP_pinned :
  Forall (fun d => bd_version d = VersionMap.PINNED_MYSQL_VERSION) VersionMap.BINARY_MAP.
Proof. by repeat constructor. Qed.

(** The first load of test/configStore.test.js: no file, current
    version, no targets. *)
Example loadConfig_first :
  let run := ConfigStore.loadConfig sample_JSON_parse linux_box (Some "/tmp/t/config.json")
               fresh_world in
  (l ← (match run.1 with Ok l => Some l | _ => None end);
   Some (version_of run.2 l, Heap.targets (heap run.2) l))
  = Some (Some ConfigStore.SCHEMA_VERSION, Some []).
Proof. vm_compute. reflexivity. Qed.

(* ===================================================================== *)
(** ** Secrets: the plaintext fallback *)
(* ===================================================================== *)

Lemma str_app_cons (c : ascii) (p s : string) : String c p +:+ s = String c (p +:+ s).
Proof. reflexivity. Qed.

Lemma str_app_nil_l (s : string) : "" +:+ s = s.
Proof. reflexivity. Qed.

Lemma str_app_nil_r (s : string) : s +:+ "" = s.
Proof. induction s as [|c s IH]; [reflexivity | rewrite str_app_cons, IH; reflexivity]. Qed.

Lemma str_app_assoc (a b c : string) : (a +:+ b) +:+ c = a +:+ (b +:+ c).
Proof. induction a as [|x a IH]; [reflexivity | rewrite !str_app_cons, IH; reflexivity]. Qed.

Lemma startsWith_app (p s : string) : startsWith (p +:+ s) p = true.
Proof.
  unfold startsWith. induction p as [|c p IH].
  - destruct s; reflexivity.
  - rewrite str_app_cons. cbn. destruct (ascii_dec c c); [exact IH | congruence].
Qed.

Lemma slice_app (p s : string) : slice (String.length p) (p +:+ s) = s.
Proof.
  induction p as [|c p IH]; [destruct s; reflexivity |].
  rewrite str_app_cons. cbn. exact IH.
Qed.

Lemma loadKeytar_unavailable installed st :
  Secrets.keytar_unavailable installed st ->
  exists st', Secrets.loadKeytar installed st = (Null, st')
              /\ Secrets.keytar_unavailable installed st'.
Proof.
  intros [H | [H ->]]; unfold Secrets.loadKeytar; rewrite H.
  - exists st. split; [reflexivity | left; exact H].
  - eexists. split; [reflexivity | left; reflexivity].
Qed.

(** C10. When the keytar backend is unavailable, [savePassword(p)] returns
    the reference ["plaintext:" ++ p]; [resolvePassword] of a reference
    ["plaintext:" ++ s] returns [s]; hence resolving what was saved gives
    the password back. *)
Theorem C10_plaintext_save_resolve
    (installed : bool) (uuid p : string) (existingRef : option string) (st : Secrets.state) :
  Secrets.keytar_unavailable installed st ->
  Secrets.ref (Secrets.savePassword installed uuid p existingRef st).1 = "plaintext:" +:+ p
  /\ (forall s st', (Secrets.resolvePassword installed ("plaintext:" +:+ s) st').1 = Val s)
  /\ (Secrets.resolvePassword installed
        (Secrets.ref (Secrets.savePassword installed uuid p existingRef st).1)
        (Secrets.savePassword installed uuid p existingRef st).2).1 = Val p.
Proof.
  intros Hun.
  assert (Hres : forall s st', (Secrets.resolvePassword installed ("plaintext:" +:+ s) st').1 = Val s).
  { intros s st'. unfold Secrets.resolvePassword.
    rewrite (startsWith_app "plaintext:" s), (slice_app "plaintext:" s). reflexivity. }
  destruct (loadKeytar_unavailable _ _ Hun) as (st' & Hload & _).
  assert (Hsave : Secrets.ref (Secrets.savePassword installed uuid p existingRef st).1
                  = "plaintext:" +:+ p).
  { unfold Secrets.savePassword. rewrite Hload. reflexivity. }
  split; [exact Hsave |]. split; [exact Hres |].
  rewrite Hsave. apply Hres.
Qed.

Lemma C10_plaintext_save_resolve_witness :
  let st := {| Secrets.keytarModule := Undefined; Secrets.keychain := ∅ |} in
  Secrets.keytar_unavailable false st
  /\ Secrets.ref (Secrets.savePassword false "uuid-1" "s3cret" None st).1 = "plaintext:s3cret"
  /\ (Secrets.resolvePassword false "plaintext:s3cret"
        (Secrets.savePassword false "uuid-1" "s3cret" None st).2).1 = Val "s3cret".
Proof.
  intros st.
  assert (H : Secrets.keytar_unavailable false st) by (right; split; reflexivity).
  split; [exact H |].
  destruct (C10_plaintext_save_resolve false "uuid-1" "s3cret" None st H) as (H1 & _ & H3).
  split; [exact H1 | exact H3].
Defined.

(* ===================================================================== *)
(** ** Configuration store: upsert and delete *)
(* ===================================================================== *)

Section ListFacts.
Context {A : Type} (P : A -> Prop) `{!forall x, Decision (P x)}.

(** Overwriting an element that fails [P] by one that fails it too is
    invisible to [filter P]. *)
Lemma filter_insert_out (l : list A) (i : nat) (x y : A) :
  l !! i = Some x -> ~ P x -> ~ P y -> filter P (<[ i := y ]> l) = filter P l.
Proof.
  intros Hi Hx Hy.
  rewrite <- (take_drop_middle l i x Hi) at 2.
  rewrite insert_take_drop by (eapply lookup_lt_Some; eauto).
  rewrite !filter_app, !filter_cons.
  destruct (decide (P y)); [contradiction |].
  destruct (decide (P x)); [contradiction |]. reflexivity.
Qed.

Lemma filter_all (l : list A) : (forall x, x ∈ l -> P x) -> filter P l = l.
Proof.
  induction l as [|a l IH]; intros Hall; [reflexivity |].
  rewrite filter_cons. destruct (decide (P a)) as [_ | n].
  - f_equal. apply IH. intros x Hx. apply Hall. by right.
  - exfalso. apply n, Hall. by left.
Qed.
End ListFacts.

Lemma filter_upserted (arr : list DatabaseConfig) (entry : DatabaseConfig) :
  filter (fun d => db_id d <> db_id entry) (upserted arr entry)
  = filter (fun d => db_id d <> db_id entry) arr.
Proof.
  unfold upserted, ConfigStore.findIndex.
  destruct (list_find _ arr) as [[idx d] |] eqn:Hfind; cbn.
  - apply list_find_Some in Hfind as (Hidx & Hd & _).
    apply (filter_insert_out _ arr idx d entry Hidx); intros H; apply H; [exact Hd | reflexivity].
  - rewrite filter_app, filter_cons.
    destruct (decide (db_id entry <> db_id entry)); [congruence |].
    by rewrite filter_nil, app_nil_r.
Qed.

Lemma upsertDatabase_run (w : World) config o arr entry :
  Heap.objects (heap w) !! config = Some o ->
  Heap.arrays (heap w) !! Heap.databases o = Some arr ->
  ConfigStore.upsertDatabase config entry w
  = (Ok config, set_heap w (Heap.set_array (heap w) (Heap.databases o) (upserted arr entry))).
Proof. intros Ho Ha. unfold ConfigStore.upsertDatabase, upserted. rewrite Ho, Ha. reflexivity. Qed.

Lemma deleteDatabase_run (w : World) config o arr id :
  Heap.objects (heap w) !! config = Some o ->
  Heap.arrays (heap w) !! Heap.databases o = Some arr ->
  exists w', ConfigStore.deleteDatabase config id w = (Ok config, w')
             /\ Heap.targets (heap w') config = Some (filter (fun d => db_id d <> id) arr).
Proof.
  intros Ho Ha. unfold ConfigStore.deleteDatabase. rewrite Ho, Ha. cbn.
  eexists. split; [reflexivity |].
  unfold Heap.targets. cbn. rewrite lookup_insert_eq. cbn. by rewrite lookup_insert_eq.
Qed.

Lemma delete_after_upsert_run (w : World) config entry before :
  Heap.targets (heap w) config = Some before ->
  exists w', delete_after_upsert config entry w = (Ok config, w')
             /\ Heap.targets (heap w') config
                = Some (filter (fun d => db_id d <> db_id entry) before).
Proof.
  intros Ht. unfold Heap.targets in Ht.
  destruct (Heap.objects (heap w) !! config) as [o |] eqn:Ho; [| discriminate].
  cbn in Ht.
  unfold delete_after_upsert.
  unfold mbind, prog_bind. rewrite (upsertDatabase_run w config o before entry Ho Ht).
  edestruct (deleteDatabase_run
               (set_heap w (Heap.set_array (heap w) (Heap.databases o) (upserted before entry)))
               config o (upserted before entry) (db_id entry)) as (w' & Hrun & Htg).
  - exact Ho.
  - cbn. by rewrite lookup_insert_eq.
  - exists w'. split; [exact Hrun |]. rewrite Htg. by rewrite filter_upserted.
Qed.

(** C7, as the code has it.  [delete(upsert(config, entry), entry.id)]
    leaves the target list of [config] without the targets whose id is
    [entry.id], in their order; so when no target of [config] had that id
    before the upsert, the list is what it was: same count, same members. *)
Theorem C7_delete_after_upsert (w : World) (config : Heap.loc) (entry : DatabaseConfig)
    (before : list DatabaseConfig) :
  Heap.targets (heap w) config = Some before ->
  (exists w', delete_after_upsert config entry w = (Ok config, w')
              /\ Heap.targets (heap w') config
                 = Some (filter (fun d => db_id d <> db_id entry) before))
  /\ ((forall d, d ∈ before -> db_id d <> db_id entry) -> restores w config entry).
Proof.
  intros Ht.
  destruct (delete_after_upsert_run w config entry before Ht) as (w' & Hrun & Htg).
  split; [by exists w' |].
  intros Hnew. exists before, before, config, w'.
  rewrite (filter_all _ before Hnew) in Htg. done.
Qed.

Lemma C7_delete_after_upsert_witness :
  Heap.targets (heap one_target_world) 1%nat = Some [sample_db]
  /\ exists w', delete_after_upsert 1%nat sample_db_edited one_target_world = (Ok 1%nat, w')
                /\ Heap.targets (heap w') 1%nat = Some [].
Proof.
  assert (H : Heap.targets (heap one_target_world) 1%nat = Some [sample_db]) by reflexivity.
  split; [exact H |].
  exact (proj1 (C7_delete_after_upsert one_target_world 1%nat sample_db_edited [sample_db] H)).
Defined.

(** C7 as stated fails where the id is already configured: the upsert
    replaces the target and the delete then removes it, so one target
    becomes none. *)
Lemma C7_counterexample : ~ restores one_target_world 1%nat sample_db_edited.
Proof.
  intros (before & after & c' & w' & Hb & Hrun & Ha & Hlen & _).
  destruct (delete_after_upsert_run one_target_world 1%nat sample_db_edited [sample_db] eq_refl)
    as (w'' & Hrun' & Htg).
  rewrite Hrun in Hrun'. injection Hrun' as -> ->.
  rewrite Htg in Ha. injection Ha as <-.
  change (Heap.targets (heap one_target_world) 1%nat) with (Some [sample_db]) in Hb.
  injection Hb as <-. discriminate Hlen.
Qed.

(* ===================================================================== *)
(** ** JavaScript strings: reversal, prefixes, white space *)
(* ===================================================================== *)

Lemma str_length_app (a b : string) :
  String.length (a +:+ b) = (String.length a + String.length b)%nat.
Proof. induction a as [|c a IH]; [reflexivity |]. rewrite str_app_cons. cbn. by rewrite IH. Qed.

Lemma rev_app_spec (s acc : string) : String.rev_app s acc = String.rev s +:+ acc.
Proof.
  unfold String.rev. revert acc. induction s as [|c s IH]; intros acc; [reflexivity |].
  cbn. rewrite IH, (IH (String c "")), str_app_assoc. reflexivity.
Qed.

Lemma str_rev_cons (c : ascii) (s : string) : String.rev (String c s) = String.rev s +:+ String c "".
Proof. unfold String.rev at 1. cbn. apply rev_app_spec. Qed.

Lemma str_rev_app (a b : string) : String.rev (a +:+ b) = String.rev b +:+ String.rev a.
Proof.
  induction a as [|c a IH].
  - by rewrite str_app_nil_l, str_app_nil_r.
  - by rewrite str_app_cons, !str_rev_cons, IH, str_app_assoc.
Qed.

Lemma str_rev_involutive (s : string) : String.rev (String.rev s) = s.
Proof.
  induction s as [|c s IH]; [reflexivity |].
  by rewrite str_rev_cons, str_rev_app, IH.
Qed.

Lemma str_app_inj_l (c a b : string) : c +:+ a = c +:+ b -> a = b.
Proof.
  induction c as [|x c IH]; [by rewrite !str_app_nil_l |].
  rewrite !str_app_cons. intros [= H]. by apply IH.
Qed.



Lemma prefix_spec (q s : string) : String.prefix q s = true <-> exists r, s = q +:+ r.
Proof.
  revert s. induction q as [|c q IH]; intros s.
  - split; [intros _; by exists s | by destruct s].
  - destruct s as [|d s]; cbn.
    + split; [discriminate | intros [r Hr]; discriminate Hr].
    + destruct (ascii_dec c d) as [-> | Hne].
      * rewrite IH. split; intros [r Hr]; exists r.
        -- by rewrite str_app_cons, Hr.
        -- rewrite str_app_cons in Hr. by injection Hr.
      * split; [discriminate |]. intros [r Hr]. rewrite str_app_cons in Hr.
        injection Hr as -> _. by destruct Hne.
Qed.

Lemma prefix_app_mono (q a b : string) :
  String.prefix q a = true -> String.prefix q (a +:+ b) = true.
Proof.
  rewrite !prefix_spec. intros [r ->]. exists (r +:+ b). by rewrite str_app_assoc.
Qed.

Lemma made_of_app (seqs : list string) (a b : string) :
  made_of seqs a -> made_of seqs b -> made_of seqs (a +:+ b).
Proof.
  induction 1 as [|q s Hq _ IH]; intros Hb; [by rewrite str_app_nil_l |].
  rewrite str_app_assoc. constructor; [exact Hq | by apply IH].
Qed.

Lemma made_of_one (seqs : list string) (q : string) : q ∈ seqs -> made_of seqs q.
Proof. intros Hq. rewrite <- (str_app_nil_r q). by repeat constructor. Qed.

Lemma made_of_rev (seqs : list string) (s : string) :
  made_of (map String.rev seqs) s -> made_of seqs (String.rev s).
Proof.
  induction 1 as [|q s Hq _ IH]; [constructor |].
  rewrite str_rev_app. apply made_of_app; [exact IH |].
  apply made_of_one.
  change (map String.rev seqs) with (String.rev <$> seqs) in Hq.
  apply list_elem_of_fmap in Hq as (q0 & -> & Hq0). by rewrite str_rev_involutive.
Qed.

Lemma lead_len_Some (seqs : list string) (s : string) (k : nat) :
  lead_len seqs s = S k ->
  exists q r, q ∈ seqs /\ s = q +:+ r /\ String.length q = S k.
Proof.
  unfold lead_len. destruct (find _ seqs) as [q |] eqn:Hf; [| discriminate].
  intros Hlen. apply find_some in Hf as [Hin Hp].
  apply prefix_spec in Hp as [r ->]. exists q, r. split; [by apply list_elem_of_In | done].
Qed.

Lemma lead_len_O (seqs : list string) (s : string) :
  Forall (fun q => q <> "") seqs ->
  lead_len seqs s = O <-> Forall (fun q => String.prefix q s = false) seqs.
Proof.
  intros Hne. unfold lead_len. rewrite !Forall_forall in *. split.
  - destruct (find _ seqs) as [q |] eqn:Hf.
    + apply find_some in Hf as [Hin _]. apply list_elem_of_In in Hin.
      specialize (Hne q Hin). by destruct q.
    + intros _ q Hq. apply list_elem_of_In in Hq.
      pose proof (find_none _ _ Hf q Hq) as H. exact H.
  - intros Hall. destruct (find _ seqs) as [q |] eqn:Hf; [| reflexivity].
    apply find_some in Hf as [Hin Hp]. apply list_elem_of_In in Hin.
    rewrite (Hall q Hin) in Hp. discriminate Hp.
Qed.

Lemma strip_skip (seqs : list string) (k : nat) (s : string) :
  strip seqs k s = strip seqs 0 (slice k s).
Proof.
  revert k. induction s as [|c s IH]; intros [|k]; try reflexivity.
  cbn [strip slice]. apply IH.
Qed.

Lemma strip_step (seqs : list string) (s : string) :
  strip seqs 0 s
  = match lead_len seqs s with
    | O => s
    | S k => strip seqs 0 (slice (S k) s)
    end.
Proof.
  destruct s as [|c s].
  - cbn. by destruct (lead_len seqs "").
  - cbn [strip]. destruct (lead_len seqs (String c s)) as [|k]; [reflexivity |].
    rewrite strip_skip. reflexivity.
Qed.

Lemma strip_clean (seqs : list string) (s : string) :
  Forall (fun q => q <> "") seqs ->
  Forall (fun q => String.prefix q s = false) seqs -> strip seqs 0 s = s.
Proof. intros Hne Hs. rewrite strip_step. by rewrite (proj2 (lead_len_O seqs s Hne) Hs). Qed.

(** [strip] cuts characters of [seqs] off the front, and nothing else. *)
Lemma strip_spec (seqs : list string) (s : string) :
  Forall (fun q => q <> "") seqs ->
  exists a, s = a +:+ strip seqs 0 s /\ made_of seqs a
            /\ Forall (fun q => String.prefix q (strip seqs 0 s) = false) seqs.
Proof.
  intros Hne.
  assert (Hgen : forall n s, (String.length s <= n)%nat ->
            exists a, s = a +:+ strip seqs 0 s /\ made_of seqs a
                      /\ Forall (fun q => String.prefix q (strip seqs 0 s) = false) seqs).
  { clear s. induction n as [|n IH]; intros s Hlen.
    - destruct s; [| cbn in Hlen; lia].
      exists "". split; [reflexivity |]. split; [constructor |].
      cbn. rewrite Forall_forall in *. intros q Hq. specialize (Hne q Hq). by destruct q.
    - rewrite strip_step. destruct (lead_len seqs s) as [|k] eqn:Hl.
      + exists "". split; [reflexivity |]. split; [constructor |].
        by apply lead_len_O.
      + apply lead_len_Some in Hl as (q & r & Hq & -> & Hk).
        rewrite <- Hk, slice_app.
        destruct (IH r) as (a & Ha & Hmade & Hclean).
        { rewrite str_length_app in Hlen. lia. }
        exists (q +:+ a). split; [by rewrite str_app_assoc, <- Ha |].
        split; [by constructor | exact Hclean]. }
  by apply (Hgen (String.length s)).
Qed.

Lemma WHITE_SPACE_nonempty : Forall (fun q => q <> "") WHITE_SPACE.
Proof. repeat constructor; discriminate. Qed.

Lemma WHITE_SPACE_rev_nonempty : Forall (fun q => q <> "") (map String.rev WHITE_SPACE).
Proof. repeat constructor; discriminate. Qed.

Lemma ends_clean_rev (s : string) :
  ends_clean s <-> Forall (fun q => String.prefix q (String.rev s) = false)
                     (map String.rev WHITE_SPACE).
Proof.
  unfold ends_clean. change (map String.rev WHITE_SPACE) with (String.rev <$> WHITE_SPACE).
  by rewrite Forall_fmap.
Qed.

Lemma starts_clean_prefix (a b : string) : starts_clean (a +:+ b) -> starts_clean a.
Proof.
  unfold starts_clean. intros H. eapply Forall_impl; [exact H |]. cbn. intros q Hq.
  destruct (String.prefix q a) eqn:E; [| reflexivity].
  by rewrite (prefix_app_mono _ _ b E) in Hq.
Qed.

(** [trim] takes the white space off the two ends, and nothing else. *)
Lemma trim_spec (s : string) : trimmed s (trim s).
Proof.
  destruct (strip_spec WHITE_SPACE s WHITE_SPACE_nonempty) as (a & Ha & Hblank_a & Hclean).
  fold (trimStart s) in Ha, Hclean.
  destruct (strip_spec (map String.rev WHITE_SPACE) (String.rev (trimStart s))
              WHITE_SPACE_rev_nonempty) as (b & Hb & Hblank_b & Hclean_b).
  assert (Hend : trimStart s = trim s +:+ String.rev b).
  { unfold trim, trimEnd. rewrite <- str_rev_app, <- Hb. by rewrite str_rev_involutive. }
  exists a, (String.rev b). split; [by rewrite <- Hend |].
  split; [exact Hblank_a |]. split; [by apply made_of_rev |]. split.
  - apply (starts_clean_prefix _ (String.rev b)). by rewrite <- Hend.
  - apply ends_clean_rev. unfold trim, trimEnd. by rewrite str_rev_involutive.
Qed.

Lemma trimStart_clean (s : string) : starts_clean s -> trimStart s = s.
Proof. apply strip_clean, WHITE_SPACE_nonempty. Qed.

Lemma trimEnd_clean (s : string) : ends_clean s -> trimEnd s = s.
Proof.
  intros H%ends_clean_rev. unfold trimEnd.
  by rewrite (strip_clean _ _ WHITE_SPACE_rev_nonempty H), str_rev_involutive.
Qed.

Lemma trim_clean (s : string) : starts_clean s -> ends_clean s -> trim s = s.
Proof. intros Hs He. unfold trim. rewrite (trimStart_clean _ Hs). by apply trimEnd_clean. Qed.

(** What [trim] does, on the samples of the standard: tabs, line ends
    and the no-break space go, what lies between stays. *)
Example trim_ex1 : trim (" " +:+ nbsp +:+ "a b" +:+ bytes [9; 10; 226; 128; 168]) = "a b".
Proof. reflexivity. Qed.
Example trim_ex2 : trim (bytes [226; 128]) = bytes [226; 128].
Proof. reflexivity. Qed.

(* ===================================================================== *)
(** ** Connection probe *)
(* ===================================================================== *)

Section Probe.
Import ConnectionTester.




End Probe.




(* ===================================================================== *)
(** ** Network fetcher: redirects *)
(* ===================================================================== *)

Section Redirects.
Import Downloader.
Variable net : Network.
Variable destination : string.

Lemma request_body (u : string) (n : nat) (w : World) :
  request net destination u n w
  = match serve net n u with
    | Failure e => (Throw e, w)
    | Answer res =>
        match redirect_target res with
        | Some loc =>
            if le_lt_dec MAX_REDIRECTS n
            then (Throw (mkError "Too many redirects"), w)
            else match URL_new net loc (Some u) with
                 | Ok next =>
                     match https_refusal next with
                     | None => request net destination next (S n) w
                     | Some _ => (Never, w)
                     end
                 | _ => (Never, w)
                 end
        | None => settle destination (Answer res) w
        end
    end.
Proof.
  simp request.
  destruct (serve net n u) as [res | e]; simp request; [| reflexivity].
  destruct (redirect_target res) as [loc |]; simp request; [| reflexivity].
  destruct (le_lt_dec MAX_REDIRECTS n); simp request; [reflexivity |].
  destruct (URL_new net loc (Some u)) as [next | |]; simp request; try reflexivity.
  destruct (https_refusal next); simp request; reflexivity.
Qed.
End Redirects.




Section RedirectProofs.
Import Downloader.
Variable net : Network.
Variable destination : string.




End RedirectProofs.






(* ===================================================================== *)
(** ** Configuration store: load *)
(* ===================================================================== *)

Section Load.
Import ConfigStore Heap.
Variable JSON_parse : string -> result Parsed.

Lemma materialise_stamp (parsed : Parsed) (w : World) :
  exists l w',
    (l ← materialise parsed; _ ← stamp_if_missing l; mret l) w = (Ok l, w')
    /\ fs w' = fs w /\ log w' = log w
    /\ version_of w' l = Some (loaded_version (p_version parsed))
    /\ targets (heap w') l = Some (p_databases parsed)
    /\ defaults_of w' l = p_defaults parsed.
Proof.
  unfold mbind, prog_bind, materialise, stamp_if_missing, new_array, new_object.
  cbn. rewrite lookup_insert_eq. cbn.
  unfold version_of, defaults_of, targets, loaded_version, falsy_version.
  destruct (p_version parsed) as [v |]; [destruct (truthy_num v) |]; cbn;
    do 2 eexists; (split; [reflexivity |]); cbn;
    rewrite ?lookup_insert_eq; cbn; rewrite ?lookup_insert_eq; done.
Qed.

Lemma readFile_exists (f : FS.t) (p content : string) :
  FS.readFile f p = Ok content -> FS.pathExists f p = true.
Proof.
  unfold FS.readFile, FS.pathExists.
  destruct (FS.lookup f p) as [[d |] |]; [reflexivity | discriminate ..].
Qed.

Lemma loadConfig_file pr customPath (w w1 : World) (content : string) (parsed : Parsed) :
  ensureConfigDir pr (Some (Paths.getConfigPath pr customPath)) w = (Ok tt, w1) ->
  FS.readFile (fs w1) (Paths.getConfigPath pr customPath) = Ok content ->
  JSON_parse content = Ok parsed ->
  exists l w',
    loadConfig JSON_parse pr customPath w = (Ok l, w')
    /\ version_of w' l = Some (loaded_version (p_version parsed))
    /\ targets (heap w') l = Some (p_databases parsed)
    /\ defaults_of w' l = p_defaults parsed.
Proof.
  intros Hdir Hread Hparse.
  destruct (materialise_stamp parsed w1) as (l & w' & Hrun & _ & _ & Hv & Ht & Hd).
  exists l, w'. split; [| done].
  unfold loadConfig.
  unfold mbind at 1, prog_bind at 1. rewrite Hdir.
  unfold mbind at 1, prog_bind at 1, fs_get at 1.
  rewrite (readFile_exists _ _ _ Hread). cbn [negb].
  unfold mbind at 1, prog_bind at 1, fs_try at 1. rewrite Hread.
  unfold mbind at 1, prog_bind at 1, lift at 1. rewrite Hparse.
  exact Hrun.
Qed.

Lemma loadConfig_no_file pr customPath (w w1 : World) :
  ensureConfigDir pr (Some (Paths.getConfigPath pr customPath)) w = (Ok tt, w1) ->
  FS.pathExists (fs w1) (Paths.getConfigPath pr customPath) = false ->
  objects (heap w) !! DEFAULT_CONFIG = Some DEFAULT_CONFIG_object ->
  exists l w',
    loadConfig JSON_parse pr customPath w = (Ok l, w')
    /\ version_of w' l = Some SCHEMA_VERSION
    /\ targets (heap w') l = arrays (heap w) !! DEFAULT_DATABASES.
Proof.
  intros Hdir Hno Hdef.
  assert (Hheap : heap w1 = heap w).
  { unfold ensureConfigDir, fs_do in Hdir.
    destruct (truthy_str _), (FS.ensureDir _ _); inversion Hdir; reflexivity. }
  unfold loadConfig.
  unfold mbind at 1, prog_bind at 1. rewrite Hdir.
  unfold mbind at 1, prog_bind at 1, fs_get at 1. rewrite Hno. cbn [negb].
  unfold spread_DEFAULT_CONFIG, new_object. rewrite Hheap, Hdef.
  do 2 eexists. split; [reflexivity |].
  unfold version_of, targets. cbn. rewrite lookup_insert_eq. done.
Qed.
End Load.

(** C3, as the code has it.  When the file exists and parses, [loadConfig]
    returns that configuration (targets and defaults as parsed) with the
    version set to 1, the current schema version, if the version on disk
    is missing or zero, and left as it is on disk otherwise.  When there
    is no file, and the array of [DEFAULT_CONFIG] is still empty, it
    returns a structure with the current schema version and an empty
    target list. *)
Theorem C3_loadConfig (JSON_parse : string -> result ConfigStore.Parsed)
    (pr : Process) (customPath : option string) (w w1 : World) :
  ConfigStore.ensureConfigDir pr (Some (Paths.getConfigPath pr customPath)) w = (Ok tt, w1) ->
  (forall content parsed,
      FS.readFile (fs w1) (Paths.getConfigPath pr customPath) = Ok content ->
      JSON_parse content = Ok parsed ->
      exists l w',
        ConfigStore.loadConfig JSON_parse pr customPath w = (Ok l, w')
        /\ version_of w' l = Some (loaded_version (ConfigStore.p_version parsed))
        /\ Heap.targets (heap w') l = Some (ConfigStore.p_databases parsed)
        /\ defaults_of w' l = ConfigStore.p_defaults parsed)
  /\ (FS.pathExists (fs w1) (Paths.getConfigPath pr customPath) = false ->
      Heap.objects (heap w) !! ConfigStore.DEFAULT_CONFIG = Some ConfigStore.DEFAULT_CONFIG_object ->
      Heap.arrays (heap w) !! ConfigStore.DEFAULT_DATABASES = Some [] ->
      exists l w',
        ConfigStore.loadConfig JSON_parse pr customPath w = (Ok l, w')
        /\ version_of w' l = Some ConfigStore.SCHEMA_VERSION
        /\ Heap.targets (heap w') l = Some []).
Proof.
  intros Hdir. split.
  - intros content parsed. by apply loadConfig_file.
  - intros Hno Hdef Harr.
    destruct (loadConfig_no_file JSON_parse pr customPath w w1 Hdir Hno Hdef)
      as (l & w' & Hrun & Hv & Ht).
    exists l, w'. by rewrite Ht, Harr in *.
Qed.

Lemma C3_loadConfig_witness :
  exists l w',
    ConfigStore.loadConfig sample_JSON_parse linux_box (Some "/home/u/config.json")
      (world_with_config config_v0_text) = (Ok l, w')
    /\ version_of w' l = Some 1
    /\ Heap.targets (heap w') l = Some [].
Proof.
  pose (w := world_with_config config_v0_text).
  assert (Hdir : ConfigStore.ensureConfigDir linux_box
                   (Some (Paths.getConfigPath linux_box (Some "/home/u/config.json"))) w
                 = (Ok tt, w)) by (vm_compute; reflexivity).
  destruct (proj1 (C3_loadConfig sample_JSON_parse linux_box (Some "/home/u/config.json")
                     w w Hdir)
              config_v0_text
              {| ConfigStore.p_version := None; ConfigStore.p_databases := [];
                 ConfigStore.p_defaults := None |}
              eq_refl eq_refl)
    as (l & w' & Hrun & Hv & Ht & _).
  exists l, w'. split; [exact Hrun |]. split; [exact Hv | exact Ht].
Defined.

(** C3 as stated fails on a file that carries another version: version 2
    on disk is version 2 in memory, not the current schema version. *)
Lemma C3_counterexample :
  exists l w',
    ConfigStore.loadConfig sample_JSON_parse linux_box (Some "/home/u/config.json")
      (world_with_config config_v2_text) = (Ok l, w')
    /\ version_of w' l = Some 2
    /\ version_of w' l <> Some ConfigStore.SCHEMA_VERSION.
Proof.
  pose (w := world_with_config config_v2_text).
  assert (Hdir : ConfigStore.ensureConfigDir linux_box
                   (Some (Paths.getConfigPath linux_box (Some "/home/u/config.json"))) w
                 = (Ok tt, w)) by (vm_compute; reflexivity).
  destruct (loadConfig_file sample_JSON_parse linux_box (Some "/home/u/config.json")
              w w config_v2_text
              {| ConfigStore.p_version := Some 2; ConfigStore.p_databases := [];
                 ConfigStore.p_defaults := None |}
              Hdir eq_refl eq_refl)
    as (l & w' & Hrun & Hv & _).
  exists l, w'. split; [exact Hrun |].
  rewrite Hv. split; [reflexivity | discriminate].
Qed.

(** The array of [DEFAULT_CONFIG] is shared by every configuration loaded
    from a missing file: a target added to one of them shows up in the
    next. *)
Example loadConfig_default_array_shared :
  exists l1 w1 w2 l2 w3,
    ConfigStore.loadConfig sample_JSON_parse linux_box (Some "/home/u/a.json") fresh_world
      = (Ok l1, w1)
    /\ ConfigStore.upsertDatabase l1 sample_db w1 = (Ok l1, w2)
    /\ ConfigStore.loadConfig sample_JSON_parse linux_box (Some "/home/u/b.json") w2
       = (Ok l2, w3)
    /\ Heap.targets (heap w3) l2 = Some [sample_db].
Proof.
  do 5 eexists. split; [vm_compute; reflexivity |].
  split; [vm_compute; reflexivity |].
  split; vm_compute; reflexivity.
Qed.

(* ===================================================================== *)
(** ** File system facts *)
(* ===================================================================== *)

Lemma remove_ok_gone (f f' : FS.t) (p : string) :
  FS.remove f p = Ok f' ->
  FS.pathExists f' p = false /\ FS.immutable f' = FS.immutable f /\ FS.cwd f' = FS.cwd f.
Proof.
  unfold FS.remove. case_bool_decide; [discriminate |].
  intros [= <-]. split; [| done].
  unfold FS.pathExists, FS.lookup, FS.key. cbn.
  rewrite map_lookup_filter_None_2; [reflexivity |].
  right. intros x _. cbn. unfold FS.below. by rewrite bool_decide_eq_true_2.
Qed.





(* ===================================================================== *)
(** ** Dump executor: the listeners, event by event *)
(* ===================================================================== *)

(** Case analysis on an event and on what its listener looks at. *)
Ltac dump_event st ev :=
  destruct ev as [chunk | chunk | err | code | err | | | n | i | i]; cbn;
  repeat match goal with
    | |- context [if DumpRunner.timer st then _ else _] =>
        destruct (DumpRunner.timer st) eqn:?; cbn
    | |- context [if DumpRunner.opened st then _ else _] =>
        destruct (DumpRunner.opened st) eqn:?; cbn
    | |- context [if DumpRunner.ending st then _ else _] =>
        destruct (DumpRunner.ending st) eqn:?; cbn
    | |- context [bool_decide (?c = Some 0)] =>
        destruct (bool_decide (c = Some 0)) eqn:?; cbn
    | |- context [FS.writeFile ?f ?p ?d] =>
        destruct (FS.writeFile f p d) eqn:?; cbn
    | |- context [DumpRunner.calls st !! ?i] =>
        destruct (DumpRunner.calls st !! i) as [[[err0 | code0 |] [|found|]]|] eqn:?; cbn
    | |- context [FS.remove ?f ?p] =>
        destruct (FS.remove f p) eqn:?; cbn
    | |- context [match ?found with Ok _ => _ | Throw _ => _ | Never => _ end] =>
        is_var found; destruct found; cbn
    end.

Section Dump.
Import DumpRunner.
Variable req : DumpRequest.
Variables startedAt finishedAt : number.

Local Abbreviation handle := (handle req startedAt finishedAt).
Local Abbreviation run := (fold_left (handle)).
Local Abbreviation dest := (req_outputPath req).




(** The timer is never armed again, the stream never reopened for
    data, the file never opened twice. *)
Lemma handle_timer_off (st : state) (ev : event) :
  timer st = false -> timer (handle st ev) = false /\ logged (handle st ev) = logged st.
Proof. intros H. dump_event st ev; try done; congruence. Qed.


Lemma handle_opened (st : state) (ev : event) :
  opened st = true -> opened (handle st ev) = true.
Proof. intros H. dump_event st ev; try done; congruence. Qed.

Lemma run_timer_off (evs : list event) (st : state) :
  timer st = false -> timer (run evs st) = false /\ logged (run evs st) = logged st.
Proof.
  revert st. induction evs as [|ev evs IH]; intros st H; [done |].
  cbn [fold_left]. destruct (handle_timer_off st ev H) as [Ht Hl].
  destruct (IH _ Ht) as [-> ->]. done.
Qed.













(** Before the first 'exit' or 'error' no call is awaited, the timer
    runs and the stream takes data. *)
Lemma run_quiet (pre : list event) (st : state) :
  forallb (fun ev => negb (terminal ev)) pre = true ->
  calls st = [] ->
  calls (run pre st) = [] /\ timer (run pre st) = timer st
  /\ ending (run pre st) = ending st /\ outcome (run pre st) = outcome st.
Proof.
  revert st. induction pre as [|ev pre IH]; intros st Hq Hc; [done |].
  cbn in Hq. apply andb_prop in Hq as [Hev Hq]. cbn [fold_left].
  assert (Hstep : calls (handle st ev) = [] /\ timer (handle st ev) = timer st
                  /\ ending (handle st ev) = ending st
                  /\ outcome (handle st ev) = outcome st).
  { destruct ev as [chunk | chunk | err | code | err | | | n | i | i];
      try discriminate Hev; cbn; rewrite ?Hc, ?lookup_nil; cbn;
      repeat (match goal with
              | |- context [if ?b then _ else _] => destruct b eqn:?
              | |- context [FS.writeFile ?f ?p ?d] => destruct (FS.writeFile f p d)
              end; cbn);
      rewrite ?Hc; repeat split; congruence. }
  destruct Hstep as (Hc1 & Ht1 & He1 & Ho1).
  destruct (IH _ Hq Hc1) as (-> & -> & -> & ->). done.
Qed.




End Dump.

(* ===================================================================== *)
(** ** Dump executor: failure *)
(* ===================================================================== *)




(** The file can be left behind: when the exporter fails before the
    write stream has opened its file, [fs.remove] finds nothing, the
    stream then creates the file, and [runDump] fails with a file at the
    destination. *)
Example runDump_failure_leaves_file :
  let run := DumpRunner.runDump sample_request 0 1500 hasty_failure_os fresh_world in
  run.1 = Throw (mkError "mysqldump exited with 2")
  /\ FS.readFile (fs run.2) (req_outputPath sample_request) = Ok "".
Proof. split; vm_compute; reflexivity. Qed.

(* ===================================================================== *)
(** ** Binary resolver: runs on sample machines *)
(* ===================================================================== *)

Example ensureBinary_success :
  let run := BinaryManager.ensureBinary linux_box honest_outside None fresh_world in
  run.1 = Ok "/home/u/.database-cli-dumper/bin/linux-x64/mysqldump"
  /\ FS.lookup (fs run.2) "/home/u/.database-cli-dumper/bin/linux-x64/mysqldump"
     = Some (FS.File "ELF")
  /\ FS.pathExists (fs run.2) "/tmp/mysqldump-download-Ab3dE9" = false.
Proof. repeat split; vm_compute; reflexivity. Qed.

(** C8, on the code.  The temp directory is removed on the success path
    only ([ensureBinary_success]): when the checksum does not match, when
    [tar] fails and when the archive holds no exporter, [ensureBinary]
    throws and the temp directory, with the downloaded archive in it, is
    still there. *)
Theorem C8_tmpdir_left_behind :
  (let run := BinaryManager.ensureBinary linux_box tampered_outside None fresh_world in
   run.1 = Throw (mkError
     ("Checksum mismatch for mysqldump archive. Expected "
      +:+ "ffd80e375834dd07e25cc3c7f03ae1950668ec606655c9cb2eafdfb7e37d6026"
      +:+ ", got 0000000000000000000000000000000000000000000000000000000000000000."))
   /\ FS.pathExists (fs run.2) "/tmp/mysqldump-download-Ab3dE9" = true
   /\ FS.lookup (fs run.2) "/tmp/mysqldump-download-Ab3dE9/mysqldump-linux-x64.tarxz"
      = Some (FS.File "not the archive"))
  /\ (let run := BinaryManager.ensureBinary linux_box broken_tar_outside None fresh_world in
     run.1 = Throw (mkError "tar exited with code 2")
     /\ FS.pathExists (fs run.2) "/tmp/mysqldump-download-Ab3dE9" = true)
  /\ (let run := BinaryManager.ensureBinary linux_box hollow_outside None fresh_world in
     run.1 = Throw (mkError "mysqldump binary not found in downloaded archive. Check version map or artifact layout.")
     /\ FS.pathExists (fs run.2) "/tmp/mysqldump-download-Ab3dE9" = true).
Proof. repeat split; vm_compute; reflexivity. Qed.

(* ===================================================================== *)
(** ** Paths: strings, segments, normal forms *)
(* ===================================================================== *)

Lemma no_sep_app (a b : string) : no_sep (a +:+ b) = no_sep a && no_sep b.
Proof.
  induction a as [|c a IH]; [reflexivity |].
  rewrite str_app_cons. cbn. by rewrite IH, andb_assoc.
Qed.

Lemma no_sep_rev (s : string) : no_sep (String.rev s) = no_sep s.
Proof.
  induction s as [|c s IH]; [reflexivity |].
  rewrite str_rev_cons, no_sep_app, IH. cbn. by rewrite andb_true_r, andb_comm.
Qed.

(** ** Cutting and gluing *)

Lemma segments_nonempty (s : string) : Path.segments s <> [].
Proof.
  unfold Path.segments. destruct s as [|c s]; cbn; [done |].
  destruct (Ascii.eqb c Path.sep); [done |]. by destruct (JS.split Path.sep s).
Qed.

Lemma segments_cons_sep (s : string) :
  Path.segments (String Path.sep s) = "" :: Path.segments s.
Proof. reflexivity. Qed.

Lemma segments_app_sep (a b : string) :
  Path.segments (a +:+ String Path.sep b) = Path.segments a ++ Path.segments b.
Proof.
  induction a as [|c a IH]; [reflexivity |].
  rewrite str_app_cons. unfold Path.segments in *. cbn.
  destruct (Ascii.eqb c Path.sep); [by rewrite IH |].
  rewrite IH. pose proof (segments_nonempty a) as Hne. unfold Path.segments in Hne.
  by destruct (JS.split Path.sep a).
Qed.

Lemma segments_no_sep (s : string) : no_sep s = true -> Path.segments s = [s].
Proof.
  unfold Path.segments. induction s as [|c s IH]; [reflexivity |].
  cbn. intros [Hc Hs]%andb_prop. unfold Path.is_sep in Hc.
  destruct (Ascii.eqb c Path.sep); [discriminate |]. by rewrite (IH Hs).
Qed.

Lemma segments_all_no_sep (s : string) : Forall (fun x => no_sep x = true) (Path.segments s).
Proof.
  unfold Path.segments. induction s as [|c s IH]; [by repeat constructor |].
  cbn. destruct (Ascii.eqb c Path.sep) eqn:Hc; [by constructor |].
  destruct (JS.split Path.sep s) as [|x xs]; [repeat constructor; cbn; unfold Path.is_sep; by rewrite Hc |].
  inversion IH; subst. constructor; [| done]. cbn. unfold Path.is_sep. by rewrite Hc.
Qed.

Lemma join_cons (sep x : string) (l : list string) :
  l <> [] -> JS.join sep (x :: l) = x +:+ sep +:+ JS.join sep l.
Proof. by destruct l. Qed.

Lemma join_app (sep : string) (l1 l2 : list string) :
  l1 <> [] -> l2 <> [] ->
  JS.join sep (l1 ++ l2) = JS.join sep l1 +:+ sep +:+ JS.join sep l2.
Proof.
  induction l1 as [|x l1 IH]; [done |]. intros _ H2.
  destruct l1 as [|y l1].
  - cbn [app]. by rewrite join_cons.
  - rewrite <- app_comm_cons, join_cons by done.
    rewrite IH by done. rewrite (join_cons sep x (y :: l1)) by done.
    by rewrite !str_app_assoc.
Qed.

Lemma join_snoc_app (sep : string) (l : list string) (x y : string) :
  JS.join sep (l ++ [x]) +:+ y = JS.join sep (l ++ [x +:+ y]).
Proof.
  destruct l as [|a l]; [reflexivity |].
  rewrite !join_app by done. cbn [JS.join]. by rewrite !str_app_assoc.
Qed.

Lemma segments_join (l : list string) :
  l <> [] -> Forall (fun x => no_sep x = true) l ->
  Path.segments (JS.join "/" l) = l.
Proof.
  induction l as [|x l IH]; [done |]. intros _ Hall. inversion Hall as [|? ? Hx Hl]; subst.
  destruct l as [|y l]; [by apply segments_no_sep |].
  rewrite join_cons by done.
  change ("/" +:+ JS.join "/" (y :: l)) with (String Path.sep (JS.join "/" (y :: l))).
  rewrite segments_app_sep, (segments_no_sep x Hx), IH by done. reflexivity.
Qed.

(** ** Normalisation *)

Lemma plain_no_sep (s : string) : plain s = true -> no_sep s = true.
Proof. unfold plain. intros H. by repeat (apply andb_prop in H as [H _]). Qed.

Lemma plain_nonempty (s : string) : plain s = true -> s <> "".
Proof.
  unfold plain. intros H ->. cbn in H. discriminate.
Qed.

Lemma step_plain (a : bool) (stk : list string) (s : string) :
  plain s = true -> Path.step a stk s = s :: stk.
Proof.
  unfold plain, Path.step. intros H.
  repeat (apply andb_prop in H as [H ?]).
  repeat match goal with
         | Hx : negb (bool_decide _) = true |- _ =>
             apply negb_true_iff in Hx; rewrite Hx; clear Hx
         end.
  reflexivity.
Qed.

Lemma normalizeFrom_plain (a : bool) (l stk : list string) :
  Forall (fun s => plain s = true) l ->
  Path.normalizeFrom a stk l = rev l ++ stk.
Proof.
  unfold Path.normalizeFrom. revert stk. induction l as [|s l IH]; intros stk Hall; [reflexivity |].
  inversion Hall; subst. cbn [fold_left]. rewrite step_plain by done.
  rewrite IH by done. cbn [rev]. by rewrite <- app_assoc.
Qed.

Lemma normalizeString_plain (a : bool) (l : list string) :
  Forall (fun s => plain s = true) l -> Path.normalizeString a l = l.
Proof.
  intros Hall. unfold Path.normalizeString. rewrite normalizeFrom_plain by done.
  by rewrite app_nil_r, rev_involutive.
Qed.

Lemma normalizeString_app_plain (a : bool) (l parts : list string) :
  Forall (fun s => plain s = true) parts ->
  Path.normalizeString a (l ++ parts) = Path.normalizeString a l ++ parts.
Proof.
  intros Hall. unfold Path.normalizeString, Path.normalizeFrom.
  rewrite fold_left_app. fold (Path.normalizeFrom a (fold_left (Path.step a) l []) parts).
  rewrite normalizeFrom_plain by done. by rewrite rev_app_distr, rev_involutive.
Qed.

Lemma step_false_plain (stk : list string) (s : string) :
  no_sep s = true ->
  Forall (fun s => plain s = true) stk ->
  Forall (fun s => plain s = true) (Path.step false stk s).
Proof.
  intros Hs Hstk. unfold Path.step.
  destruct (bool_decide (s = "")) eqn:E1; [done |].
  destruct (bool_decide (s = ".")) eqn:E2; [done |]. cbn [orb].
  destruct (bool_decide (s = "..")) eqn:E3.
  - destruct stk as [|top rest]; [done |].
    destruct (bool_decide (top = "..")); [done |]. by inversion Hstk.
  - constructor; [| done]. unfold plain. by rewrite Hs, E1, E2, E3.
Qed.

Lemma normalizeFrom_false_plain (segs stk : list string) :
  Forall (fun s => no_sep s = true) segs ->
  Forall (fun s => plain s = true) stk ->
  Forall (fun s => plain s = true) (Path.normalizeFrom false stk segs).
Proof.
  unfold Path.normalizeFrom. revert stk.
  induction segs as [|s segs IH]; intros stk Hsegs Hstk; [done |].
  inversion Hsegs; subst. cbn [fold_left]. apply IH; [done |]. by apply step_false_plain.
Qed.

Lemma normalizeString_false_plain (segs : list string) :
  Forall (fun s => no_sep s = true) segs ->
  Forall (fun s => plain s = true) (Path.normalizeString false segs).
Proof.
  intros H. unfold Path.normalizeString. apply Forall_rev.
  by apply normalizeFrom_false_plain.
Qed.

Lemma canon_plain (cwd p : string) : Forall (fun s => plain s = true) (Path.canon cwd p).
Proof.
  unfold Path.canon. destruct (Path.isAbsolute p); apply normalizeString_false_plain.
  - apply segments_all_no_sep.
  - apply Forall_app. split; apply segments_all_no_sep.
Qed.

Lemma normalizeString_skip_empty (a : bool) (l : list string) :
  Path.normalizeString a ("" :: l) = Path.normalizeString a l.
Proof. reflexivity. Qed.

(** ** Absolute normal paths *)

Lemma Forall_plain_no_sep (l : list string) :
  Forall (fun s => plain s = true) l -> Forall (fun s => no_sep s = true) l.
Proof. intros H. eapply Forall_impl; [exact H |]. intros s. apply plain_no_sep. Qed.

Lemma segments_abs_of (l : list string) :
  Forall (fun s => plain s = true) l ->
  Path.normalizeString false (Path.segments (abs_of l)) = l.
Proof.
  intros Hall. unfold abs_of.
  change ("/" +:+ JS.join "/" l) with (String Path.sep (JS.join "/" l)).
  rewrite segments_cons_sep, normalizeString_skip_empty.
  destruct l as [|x l]; [reflexivity |].
  rewrite segments_join by (done || by apply Forall_plain_no_sep).
  by apply normalizeString_plain.
Qed.

Lemma canon_abs_of (cwd : string) (l : list string) :
  Forall (fun s => plain s = true) l -> Path.canon cwd (abs_of l) = l.
Proof. intros Hall. unfold Path.canon. cbn [abs_of Path.isAbsolute]. by apply segments_abs_of. Qed.

Lemma canon_absolute (cwd p : string) :
  Path.isAbsolute p = true -> Path.canon cwd p = Path.normalizeString false (Path.segments p).
Proof. unfold Path.canon. by intros ->. Qed.

(** [path.resolve] is idempotent: it names the entry its argument names. *)
Lemma canon_resolve (cwd p : string) : Path.canon cwd (Path.resolve cwd p) = Path.canon cwd p.
Proof. unfold Path.resolve. apply (canon_abs_of cwd), canon_plain. Qed.

Lemma str_app_eq_nil (a b : string) : a +:+ b = "" -> a = "" /\ b = "".
Proof. destruct a; [intros H; split; [reflexivity | exact H] | discriminate]. Qed.

Lemma endsWithSep_app (a b : string) :
  b <> "" -> Path.endsWithSep (a +:+ b) = Path.endsWithSep b.
Proof.
  intros Hb. induction a as [|c a IH]; [reflexivity |].
  rewrite str_app_cons. cbn. destruct (a +:+ b) eqn:E; [| exact IH].
  apply str_app_eq_nil in E as [_ ?]. contradiction.
Qed.

Lemma endsWithSep_no_sep (b : string) : no_sep b = true -> Path.endsWithSep b = false.
Proof.
  induction b as [|c b IH]; [reflexivity |].
  cbn. intros [Hc Hb]%andb_prop. destruct b; [| by apply IH].
  unfold Path.is_sep in Hc. by apply negb_true_iff in Hc.
Qed.

(** A glued list ends with its last part. *)
Lemma join_snoc (sep : string) (l : list string) (x : string) :
  exists pre, JS.join sep (l ++ [x]) = pre +:+ x.
Proof.
  destruct l as [|a l]; [by exists "" |].
  exists (JS.join sep (a :: l) +:+ sep). rewrite join_app by done. cbn [JS.join].
  by rewrite str_app_assoc.
Qed.

Lemma join_snoc_nonempty (sep : string) (l : list string) (x : string) :
  x <> "" -> JS.join sep (l ++ [x]) <> "".
Proof.
  intros Hx. destruct (join_snoc sep l x) as [pre ->]. intros E.
  by apply str_app_eq_nil in E as [_ ?].
Qed.

Lemma snoc_cases {A} (l : list A) : l <> [] -> exists l' x, l = l' ++ [x].
Proof.
  intros Hne. destruct (exists_last Hne) as (l' & x & ->). eauto.
Qed.



Lemma filter_nonempty_plain (x : string) (parts : list string) :
  x <> "" -> Forall (fun s => plain s = true) parts ->
  filter (fun p => p <> "") (x :: parts) = x :: parts.
Proof.
  intros Hx Hparts. apply filter_all. intros y Hy.
  apply elem_of_cons in Hy as [-> | Hy]; [done |].
  rewrite Forall_forall in Hparts. by apply plain_nonempty, Hparts.
Qed.



(** ** Output path planner *)

Lemma no_sep_timestamp (now : string) :
  no_sep (OutputPaths.timestampString now) = no_sep now.
Proof.
  unfold OutputPaths.timestampString. induction now as [|c now IH]; [reflexivity |].
  cbn. rewrite IH. f_equal. f_equal. unfold OutputPaths.dash, Path.is_sep.
  destruct (Ascii.eqb c ":") eqn:E1; [apply Ascii.eqb_eq in E1; by subst |].
  destruct (Ascii.eqb c ".") eqn:E2; [apply Ascii.eqb_eq in E2; by subst |].
  reflexivity.
Qed.


Lemma filename_plain (name rest : string) :
  plain name = true -> no_sep rest = true -> plain (name +:+ "-" +:+ rest) = true.
Proof.
  intros Hname Hrest. pose proof (plain_no_sep _ Hname) as Hns.
  pose proof (plain_nonempty _ Hname) as Hne.
  unfold plain. rewrite !no_sep_app, Hns, Hrest. cbn [no_sep andb negb Path.is_sep].
  destruct name as [|c name]; [done |]. rewrite str_app_cons.
  rewrite !bool_decide_eq_false_2; [reflexivity | ..].
  - intros [= -> E]. destruct name as [|c' name]; [discriminate E |].
    rewrite str_app_cons in E. injection E as _ E. by destruct name.
  - intros [= -> E]. by destruct name.
  - discriminate.
Qed.





(** ** Binary resolver: the override *)

Lemma pathExists_resolve (f : FS.t) (p : string) :
  FS.pathExists f (Path.resolve (FS.cwd f) p) = FS.pathExists f p.
Proof. unfold FS.pathExists, FS.lookup, FS.key. by rewrite canon_resolve. Qed.

Lemma resolve_abs_of (cwd : string) (segs : list string) :
  Forall (fun s => plain s = true) segs -> Path.resolve cwd (abs_of segs) = abs_of segs.
Proof. intros H. unfold Path.resolve. by rewrite canon_abs_of. Qed.

(** C4, as the code has it.  On a POSIX platform (paths are those of
    [path.posix]), for a supplied (non-empty) override, [ensureBinary]
    looks at [path.resolve(override)]: if an entry exists
    there, that resolved absolute path is returned and nothing else
    happens (the world, its file system and its log of downloads, hashes
    and extractions, is unchanged); if none exists, it throws "Binary
    override not found at <resolved>", again with nothing else done.  The
    resolved path is the supplied string itself when that is already a
    normalised absolute path. *)
Theorem C4_override (pr : Process) (out : BinaryManager.Outside) (custom : string) (w : World) :
  platform (getPlatformInfo pr) <> "win32" ->
  truthy_str custom = true ->
  let resolved := Path.resolve (FS.cwd (fs w)) custom in
  (FS.pathExists (fs w) custom = true ->
     BinaryManager.ensureBinary pr out (Some custom) w = (Ok resolved, w))
  /\ (FS.pathExists (fs w) custom = false ->
     BinaryManager.ensureBinary pr out (Some custom) w
     = (Throw (mkError ("Binary override not found at " +:+ resolved)), w))
  /\ (forall segs, Forall (fun s => plain s = true) segs -> custom = abs_of segs ->
        resolved = custom).
Proof.
  intros _ Hsup resolved.
  assert (Hrun : BinaryManager.ensureBinary pr out (Some custom) w
                 = if FS.pathExists (fs w) custom
                   then (Ok resolved, w)
                   else (Throw (mkError ("Binary override not found at " +:+ resolved)), w)).
  { unfold BinaryManager.ensureBinary, BinaryManager.supplied. rewrite Hsup.
    unfold mbind, prog_bind, fs_get. cbn.
    fold resolved. unfold resolved at 1. rewrite pathExists_resolve.
    by destruct (FS.pathExists (fs w) custom). }
  split; [| split].
  - intros Hex. by rewrite Hrun, Hex.
  - intros Hex. by rewrite Hrun, Hex.
  - intros segs Hsegs ->. by apply resolve_abs_of.
Qed.

Lemma C4_override_witness :
  platform (getPlatformInfo linux_box) <> "win32"
  /\ FS.pathExists (fs world_with_local_binary) "/home/u/bin/mysqldump" = true
  /\ BinaryManager.ensureBinary linux_box tampered_outside (Some "/home/u/bin/mysqldump")
       world_with_local_binary
     = (Ok "/home/u/bin/mysqldump", world_with_local_binary).
Proof.
  assert (Hex : FS.pathExists (fs world_with_local_binary) "/home/u/bin/mysqldump" = true)
    by (vm_compute; reflexivity).
  assert (Hposix : platform (getPlatformInfo linux_box) <> "win32") by discriminate.
  split; [exact Hposix |]. split; [exact Hex |].
  exact (proj1 (C4_override linux_box tampered_outside "/home/u/bin/mysqldump"
                  world_with_local_binary Hposix eq_refl) Hex).
Defined.

(** C4 as stated fails for a relative override: the string returned is
    the absolute path, not the string supplied. *)
Lemma C4_counterexample :
  FS.pathExists (fs world_with_local_binary) "./bin/mysqldump" = true
  /\ (BinaryManager.ensureBinary linux_box tampered_outside (Some "./bin/mysqldump")
        world_with_local_binary).1 = Ok "/home/u/bin/mysqldump"
  /\ "/home/u/bin/mysqldump" <> "./bin/mysqldump".
Proof. split; [vm_compute; reflexivity |]. split; [vm_compute; reflexivity | discriminate]. Qed.

(* ===================================================================== *)
(** ** Binary resolver: checksum mismatch *)
(* ===================================================================== *)

Lemma dropWhile_head (f : ascii -> bool) (c : ascii) (r : string) :
  f c = false -> Path.dropWhile f (String c r) = String c r.
Proof. intros H. cbn. by rewrite H. Qed.

Lemma dropWhile_no_sep_app (a y : string) :
  no_sep a = true ->
  Path.dropWhile (fun c => negb (Path.is_sep c)) (a +:+ String Path.sep y) = String Path.sep y.
Proof.
  induction a as [|c a IH]; [reflexivity |].
  cbn [no_sep]. intros [Hc Ha]%andb_prop. rewrite str_app_cons. cbn [Path.dropWhile].
  rewrite Hc. by apply IH.
Qed.

Lemma str_rev_nonempty (s : string) : s <> "" -> String.rev s <> "".
Proof.
  intros Hs E. apply Hs. by rewrite <- (str_rev_involutive s), E.
Qed.

(** [path.dirname] of a normalised absolute path with at least two segments. *)
Lemma dirname_abs_of (l : list string) (s : string) :
  l <> [] -> Forall (fun s => plain s = true) l -> plain s = true ->
  Path.dirname (abs_of (l ++ [s])) = abs_of l.
Proof.
  intros Hne Hl Hs.
  assert (Hjoin : JS.join "/" l <> "").
  { destruct (snoc_cases l Hne) as (l' & x & ->). apply join_snoc_nonempty.
    apply Forall_app in Hl as [_ Hx]. inversion Hx; subst. by apply plain_nonempty. }
  unfold abs_of. rewrite join_app by done. cbn [JS.join].
  change ("/" +:+ JS.join "/" l +:+ "/" +:+ s)
    with (String Path.sep (JS.join "/" l +:+ String Path.sep s)).
  unfold Path.dirname.
  rewrite str_rev_app, str_rev_cons, str_app_assoc.
  change (String Path.sep "" +:+ String.rev (JS.join "/" l))
    with (String Path.sep (String.rev (JS.join "/" l))).
  pose proof (str_rev_nonempty s (plain_nonempty s Hs)) as Hrs.
  pose proof (plain_no_sep s Hs) as Hns. rewrite <- no_sep_rev in Hns.
  destruct (String.rev s) as [|c r] eqn:Erev; [done |].
  rewrite str_app_cons.
  pose proof Hns as Hns'. cbn [no_sep] in Hns'. apply andb_prop in Hns' as [Hc _].
  rewrite dropWhile_head by (by apply negb_true_iff in Hc).
  rewrite <- str_app_cons, dropWhile_no_sep_app by done.
  rewrite str_app_cons.
  change (Path.is_sep Path.sep) with true. cbn [andb].
  rewrite bool_decide_eq_false_2 by (by apply str_rev_nonempty).
  by rewrite str_rev_involutive.
Qed.

Example dirname_abs_of_ex :
  Path.dirname (abs_of (["tmp"; "x"] ++ ["f.tar"])) = "/tmp/x".
Proof. reflexivity. Qed.

(** ** Programs: inversion of the steps *)

Lemma bind_inv {A B} (m : prog A) (k : A -> prog B) (w : World) (r : result B) (w' : World) :
  (m ≫= k) w = (r, w') ->
  (exists a w1, m w = (Ok a, w1) /\ k a w1 = (r, w'))
  \/ (exists e, m w = (Throw e, w') /\ r = Throw e)
  \/ (m w = (Never, w') /\ r = Never).
Proof.
  unfold mbind, prog_bind. destruct (m w) as [[a | e |] w1]; intros H.
  - left. eauto.
  - right. left. injection H as <- <-. eauto.
  - right. right. by injection H as <- <-.
Qed.

Lemma fs_do_inv (f : FS.t -> result FS.t) (w : World) (r : result unit) (w' : World) :
  fs_do f w = (r, w') ->
  (exists f', f (fs w) = Ok f' /\ r = Ok tt /\ w' = set_fs w f')
  \/ (w' = w /\ forall a, r <> Ok a).
Proof.
  unfold fs_do. destruct (f (fs w)) as [f' | e |]; intros [= <- <-]; eauto.
Qed.

(** ** The requests of a download touch the destination only *)

Lemma receive_inv (destination : string) (res : Downloader.Response) (w : World) r w' :
  Downloader.receive destination res w = (r, w') ->
  log w' = log w
  /\ (fs w' = fs w
      \/ exists data, FS.writeFile (fs w) destination data = Ok (fs w')).
Proof.
  unfold Downloader.receive.
  destruct (FS.writeFile (fs w) destination _) as [f | e |] eqn:Hw.
  - destruct (Downloader.complete res); intros [= <- <-]; (split; [reflexivity |]); right; eauto.
  - intros [= <- <-]. auto.
  - intros [= <- <-]. auto.
Qed.

Lemma request_inv (net : Downloader.Network) (destination : string) :
  forall (budget : nat) (u : string) (n : nat) (w : World) r w',
    (Downloader.MAX_REDIRECTS - n <= budget)%nat ->
    Downloader.request net destination u n w = (r, w') ->
    log w' = log w
    /\ (fs w' = fs w
        \/ exists data, FS.writeFile (fs w) destination data = Ok (fs w')).
Proof.
  induction budget as [|budget IH]; intros u n w r w' Hb; rewrite request_body;
    destruct (Downloader.serve net n u) as [res | e]; try (intros [= <- <-]; by auto);
    (destruct (Downloader.redirect_target res) as [loc |];
     [| unfold settle; destruct (Downloader.bad_status res);
        [intros [= <- <-]; by auto | apply receive_inv]]);
    (destruct (le_lt_dec Downloader.MAX_REDIRECTS n); [intros [= <- <-]; by auto |]).
  - lia.
  - destruct (Downloader.URL_new net loc (Some u)) as [next | |];
      try (intros [= <- <-]; by auto).
    destruct (Downloader.https_refusal next); [intros [= <- <-]; by auto |].
    apply IH. lia.
Qed.

(** ** What a program adds to the log *)

Section Appends.
Context (P : effect -> Prop).

Lemma appends_silent {A} (m : prog A) :
  (forall w r w', m w = (r, w') -> log w' = log w) -> appends P m.
Proof. intros H w r w' Hrun. exists []. rewrite app_nil_r. split; [by eapply H | done]. Qed.

Lemma appends_bind {A B} (m : prog A) (k : A -> prog B) :
  appends P m -> (forall a, appends P (k a)) -> appends P (m ≫= k).
Proof.
  intros Hm Hk w r w' Hrun.
  apply bind_inv in Hrun as [(a & w1 & H1 & H2) | [(e & H1 & _) | (H1 & _)]].
  - destruct (Hm _ _ _ H1) as (evs1 & E1 & HP1).
    destruct (Hk a _ _ _ H2) as (evs2 & E2 & HP2).
    exists (evs1 ++ evs2). rewrite E2, E1, app_assoc. split; [done |]. by apply Forall_app.
  - by eapply Hm.
  - by eapply Hm.
Qed.

Lemma appends_mret {A} (a : A) : appends P (mret a : prog A).
Proof. apply appends_silent. by intros w r w' [= <- <-]. Qed.

Lemma appends_throw {A} (e : Error) : appends P (throw e : prog A).
Proof. apply appends_silent. by intros w r w' [= <- <-]. Qed.

Lemma appends_fs_do (f : FS.t -> result FS.t) : appends P (fs_do f).
Proof.
  apply appends_silent. intros w r w' H.
  apply fs_do_inv in H as [(f' & _ & _ & ->) | [-> _]]; reflexivity.
Qed.

Lemma appends_fs_get {A} (f : FS.t -> A) : appends P (fs_get f).
Proof. apply appends_silent. by intros w r w' [= <- <-]. Qed.

Lemma appends_fs_try {A} (f : FS.t -> result A) : appends P (fs_try f).
Proof. apply appends_silent. by intros w r w' [= <- <-]. Qed.

Lemma appends_tell (e : effect) : P e -> appends P (tell e).
Proof.
  intros He w r w' [= <- <-]. exists [e]. split; [reflexivity | by constructor].
Qed.

Lemma appends_write_entries dir entries : appends P (BinaryManager.write_entries dir entries).
Proof. apply appends_silent. by intros w r w' [= <- <-]. Qed.
End Appends.

Lemma extract_appends out kind archivePath extractDir :
  appends is_extract (BinaryManager.extract out kind archivePath extractDir).
Proof.
  unfold BinaryManager.extract.
  apply appends_bind; [by apply appends_tell | intros _].
  apply appends_bind; [apply appends_fs_get | intros data].
  destruct kind.
  - destruct data as [d |]; [| apply appends_throw].
    destruct (BinaryManager.extractZip out d) as [entries failure].
    apply appends_bind; [apply appends_write_entries | intros _].
    destruct failure; [apply appends_throw | apply appends_mret].
  - destruct (match data with Some d => _ | None => _ end) as [entries ending].
    apply appends_bind; [apply appends_write_entries | intros _].
    destruct ending; [| apply appends_throw].
    destruct (bool_decide _); [apply appends_mret | apply appends_throw].
  - destruct (match data with Some d => _ | None => _ end) as [entries ending].
    apply appends_bind; [apply appends_write_entries | intros _].
    destruct ending; [| apply appends_throw].
    destruct (bool_decide _); [apply appends_mret | apply appends_throw].
Qed.

Lemma extract_and_install_appends pr out d tmpDir archivePath targetPath :
  appends is_extract (BinaryManager.extract_and_install pr out d tmpDir archivePath targetPath).
Proof.
  unfold BinaryManager.extract_and_install.
  apply appends_bind; [apply appends_fs_do | intros _].
  apply appends_bind; [apply extract_appends | intros _].
  apply appends_bind; [apply appends_fs_try | intros found].
  destruct found as [found |]; [| apply appends_throw].
  apply appends_bind; [apply appends_fs_do | intros _].
  apply appends_bind; [destruct (negb _); [apply appends_fs_do | apply appends_mret] | intros _].
  apply appends_bind; [apply appends_fs_do | intros _].
  apply appends_mret.
Qed.

(** ** The catalog *)

Lemma descriptor_ok_inv (d : BinaryDescriptor) :
  descriptor_ok d = true ->
  plain (bd_platform d +:+ "-" +:+ bd_arch d) = true
  /\ plain (archive_name d) = true
  /\ archive_name d <> "mysqldump"
  /\ archive_name d <> "mysqldump.exe".
Proof.
  unfold descriptor_ok, str_eqb. rewrite !andb_true_iff, !negb_true_iff.
  intros (((((? & ?) & _) & _) & E1) & E2).
  apply bool_decide_eq_false in E1, E2. done.
Qed.

Lemma catalog_ok : Forall (fun d => descriptor_ok d = true) VersionMap.BINARY_MAP.
Proof. repeat constructor. Qed.

Lemma resolveBinaryDescriptor_Some (p a : string) (d : BinaryDescriptor) :
  VersionMap.resolveBinaryDescriptor p a = Some d ->
  descriptor_ok d = true /\ bd_platform d = p /\ bd_arch d = a.
Proof.
  unfold VersionMap.resolveBinaryDescriptor. intros H.
  apply find_some in H as [Hin Hp].
  apply andb_prop in Hp as [Hp Ha].
  apply bool_decide_eq_true in Hp, Ha. split; [| done].
  pose proof catalog_ok as Hall. rewrite List.Forall_forall in Hall. by apply Hall.
Qed.

Lemma checksum_mismatch_ok (d : BinaryDescriptor) (h : string) :
  descriptor_ok d = true ->
  BinaryManager.checksum_mismatch d h = negb (bool_decide (h = bd_sha256 d)).
Proof.
  unfold descriptor_ok, BinaryManager.checksum_mismatch, str_eqb.
  rewrite !andb_true_iff. intros (((((_ & _) & -> ) & ->) & _) & _). reflexivity.
Qed.

(** ** The file system: what [mkdir -p] touches *)

Lemma mkdirp_frame (rk : list string) (m m' : gmap (list string) FS.node) (k : list string) :
  FS.mkdirp rk m = Ok m' -> ~ k `prefix_of` rev rk -> m' !! k = m !! k.
Proof.
  revert m'. induction rk as [|x parent IH]; intros m' Hrun Hk.
  - cbn in Hrun. destruct (m !! []) as [[|]|].
    + discriminate.
    + by injection Hrun as <-.
    + injection Hrun as <-. rewrite lookup_insert_ne; [done |].
      intros <-. by apply Hk.
  - cbn [FS.mkdirp] in Hrun.
    destruct (m !! rev (x :: parent)) as [[|]|].
    + discriminate.
    + by injection Hrun as <-.
    + destruct (FS.mkdirp parent m) as [m1 | |] eqn:Hp; cbn in Hrun; [| discriminate ..].
      injection Hrun as <-.
      rewrite lookup_insert_ne by (intros <-; by apply Hk).
      apply IH; [reflexivity |]. intros Hpre. apply Hk. cbn [rev].
      by apply prefix_app_r.
Qed.

Lemma mkdirp_existing (rk : list string) (m : gmap (list string) FS.node) :
  m !! rev rk = Some FS.Dir -> FS.mkdirp rk m = Ok m.
Proof. intros H. destruct rk; cbn [FS.mkdirp]; by rewrite H. Qed.

Lemma snoc_prefix_absurd {A} (l : list A) (x : A) : ~ (l ++ [x]) `prefix_of` l.
Proof.
  intros Hpre%prefix_length. rewrite length_app in Hpre. cbn in Hpre. lia.
Qed.

Lemma snoc_inj_last {A} (l1 l2 : list A) (x y : A) : l1 ++ [x] = l2 ++ [y] -> x = y.
Proof. intros H. by apply app_inj_tail in H as [_ ?]. Qed.

(** ** Normal forms, absolute or relative *)

Lemma normal_plain (l : list string) : normal false l <-> Forall (fun s => plain s = true) l.
Proof.
  split.
  - intros (ups & plains & -> & _ & Hp & Hu). by rewrite (Hu eq_refl).
  - intros H. exists [], l. by repeat split.
Qed.

Lemma normal_app_plain (allow : bool) (l parts : list string) :
  normal allow l -> Forall (fun s => plain s = true) parts -> normal allow (l ++ parts).
Proof.
  intros (ups & plains & -> & Hu & Hp & Ha) Hparts.
  exists ups, (plains ++ parts). rewrite app_assoc. repeat split; try done.
  by apply Forall_app.
Qed.

Lemma normal_no_sep (allow : bool) (l : list string) :
  normal allow l -> Forall (fun s => no_sep s = true /\ s <> "") l.
Proof.
  intros (ups & plains & -> & Hu & Hp & _). apply Forall_app. split.
  - eapply Forall_impl; [exact Hu |]. by intros s ->.
  - eapply Forall_impl; [exact Hp |]. intros s Hs.
    split; [by apply plain_no_sep | by apply plain_nonempty].
Qed.

Lemma step_up (stk : list string) :
  Forall (fun s => s = "..") stk -> Path.step true stk ".." = ".." :: stk.
Proof. intros H. destruct stk as [|top rest]; [reflexivity |]. by inversion H; subst. Qed.

Lemma normalizeFrom_ups (ups stk : list string) :
  Forall (fun s => s = "..") ups -> Forall (fun s => s = "..") stk ->
  Path.normalizeFrom true stk ups = rev ups ++ stk.
Proof.
  unfold Path.normalizeFrom. revert stk.
  induction ups as [|u ups IH]; intros stk Hu Hs; [reflexivity |].
  inversion Hu; subst. cbn [fold_left]. rewrite step_up by done.
  rewrite IH by (done || by constructor). cbn [rev]. by rewrite <- app_assoc.
Qed.

(** Normalising a normal form changes nothing. *)
Lemma normalizeString_normal (allow : bool) (l : list string) :
  normal allow l -> Path.normalizeString allow l = l.
Proof.
  intros (ups & plains & -> & Hu & Hp & Ha).
  destruct allow.
  - rewrite normalizeString_app_plain by done. f_equal.
    unfold Path.normalizeString. rewrite normalizeFrom_ups by done.
    by rewrite app_nil_r, rev_involutive.
  - rewrite (Ha eq_refl). by apply normalizeString_plain.
Qed.

Lemma snoc_cases_or_nil {A} (l : list A) : l = [] \/ exists l' x, l = l' ++ [x].
Proof. destruct l as [|a l]; [by left | right; by apply snoc_cases]. Qed.

(** The stack of [normalizeString]: plain names on top of [".."] entries. *)
Lemma step_stack (allow : bool) (stk : list string) (s : string) :
  no_sep s = true ->
  normal allow (rev stk) -> normal allow (rev (Path.step allow stk s)).
Proof.
  intros Hs (ups & plains & Hstk & Hu & Hp & Ha).
  unfold Path.step.
  destruct (bool_decide (s = "")) eqn:E1; [by exists ups, plains |].
  destruct (bool_decide (s = ".")) eqn:E2; [by exists ups, plains |]. cbn [orb].
  destruct (bool_decide (s = "..")) eqn:E3.
  - destruct stk as [|top rest].
    + destruct allow; [| by exists ups, plains].
      exists [".."], []. by repeat split; try constructor.
    + cbn [rev] in Hstk.
      destruct (snoc_cases_or_nil plains) as [-> | (plains' & p & ->)].
      * (* the top of the stack is a [".."] *)
        rewrite app_nil_r in Hstk. subst ups.
        apply Forall_app in Hu as [Hrest Htop]. inversion Htop; subst.
        rewrite bool_decide_eq_true_2 by done.
        destruct allow.
        -- exists ((rev rest ++ [".."]) ++ [".."]), []. rewrite app_nil_r.
           repeat split; try done. apply Forall_app. split; [| by repeat constructor].
           apply Forall_app. split; [done | by repeat constructor].
        -- exists (rev rest ++ [".."]), []. rewrite app_nil_r. repeat split; try done.
           apply Forall_app. by split.
      * (* the top of the stack is a name *)
        rewrite app_assoc in Hstk. apply app_inj_tail in Hstk as [Hrest ->].
        apply Forall_app in Hp as [Hp' Hpp]. inversion Hpp; subst.
        rewrite bool_decide_eq_false_2 by (intros ->; discriminate).
        by exists ups, plains'.
  - exists ups, (plains ++ [s]). cbn [rev]. rewrite Hstk, app_assoc.
    repeat split; try done. apply Forall_app. split; [done |].
    repeat constructor. unfold plain. by rewrite Hs, E1, E2, E3.
Qed.

Lemma normalizeFrom_stack (allow : bool) (segs stk : list string) :
  Forall (fun s => no_sep s = true) segs ->
  normal allow (rev stk) -> normal allow (rev (Path.normalizeFrom allow stk segs)).
Proof.
  unfold Path.normalizeFrom. revert stk.
  induction segs as [|s segs IH]; intros stk Hsegs Hstk; [done |].
  inversion Hsegs; subst. cbn [fold_left]. apply IH; [done |]. by apply step_stack.
Qed.

(** What [normalizeString] returns is a normal form. *)
Lemma normalizeString_is_normal (allow : bool) (segs : list string) :
  Forall (fun s => no_sep s = true) segs -> normal allow (Path.normalizeString allow segs).
Proof.
  intros H. unfold Path.normalizeString. apply normalizeFrom_stack; [done |].
  exists [], []. by repeat split.
Qed.

Lemma isAbsolute_app (a b : string) : a <> "" -> Path.isAbsolute (a +:+ b) = Path.isAbsolute a.
Proof. by destruct a. Qed.

Lemma isAbsolute_no_sep (s : string) : no_sep s = true -> Path.isAbsolute s = false.
Proof.
  destruct s as [|c s]; [done |]. cbn. intros [Hc _]%andb_prop.
  unfold Path.is_sep in Hc. by apply negb_true_iff in Hc.
Qed.

Lemma isAbsolute_join (l : list string) :
  Forall (fun s => no_sep s = true /\ s <> "") l -> Path.isAbsolute (JS.join "/" l) = false.
Proof.
  intros H. destruct l as [|x l]; [reflexivity |].
  inversion H as [|? ? [Hx Hne] Hl]; subst.
  destruct l as [|y l]; [by apply isAbsolute_no_sep |].
  rewrite join_cons by done. rewrite isAbsolute_app by done. by apply isAbsolute_no_sep.
Qed.

Lemma isAbsolute_render (a : bool) (l : list string) :
  normal (negb a) l -> Path.isAbsolute (render a l) = a.
Proof.
  intros Hl. destruct a; [reflexivity |]. unfold render. rewrite str_app_nil_l.
  by apply isAbsolute_join, (normal_no_sep true).
Qed.

Lemma segments_render (a : bool) (l : list string) :
  normal (negb a) l ->
  Path.normalizeString (negb a) (Path.segments (render a l)) = l.
Proof.
  intros Hl. destruct a.
  - apply segments_abs_of. by apply normal_plain.
  - unfold render. rewrite str_app_nil_l. destruct l as [|x l]; [reflexivity |].
    rewrite segments_join.
    + by apply normalizeString_normal.
    + done.
    + eapply Forall_impl; [exact (normal_no_sep _ _ Hl) |]. by intros s [? _].
Qed.

(** [path.normalize] of a non-empty path followed by plain parts. *)
Lemma normalize_general (x : string) (parts : list string) :
  x <> "" ->
  Forall (fun s => plain s = true) parts -> parts <> [] ->
  Path.normalize (x +:+ "/" +:+ JS.join "/" parts)
  = render (Path.isAbsolute x)
      (Path.normalizeString (negb (Path.isAbsolute x)) (Path.segments x) ++ parts).
Proof.
  intros Hx Hparts Hne.
  destruct (snoc_cases parts Hne) as (init & last & ->).
  assert (Hlast : plain last = true).
  { apply Forall_app in Hparts as [_ Hl]. by inversion Hl. }
  unfold Path.normalize.
  rewrite bool_decide_eq_false_2 by (intros [? _]%str_app_eq_nil; done).
  rewrite isAbsolute_app by done.
  change ("/" +:+ JS.join "/" (init ++ [last])) with (String Path.sep (JS.join "/" (init ++ [last]))).
  rewrite segments_app_sep.
  rewrite segments_join by (done || by apply Forall_plain_no_sep).
  rewrite normalizeString_app_plain by done.
  rewrite bool_decide_eq_false_2.
  2:{ rewrite app_assoc. apply join_snoc_nonempty. by apply plain_nonempty. }
  assert (Htrail : Path.endsWithSep (x +:+ String Path.sep (JS.join "/" (init ++ [last]))) = false).
  { destruct (join_snoc "/" init last) as [pre ->].
    change (String Path.sep (pre +:+ last)) with (("/" +:+ pre) +:+ last).
    rewrite <- str_app_assoc.
    rewrite endsWithSep_app by (by apply plain_nonempty).
    by apply endsWithSep_no_sep, plain_no_sep. }
  rewrite Htrail. unfold render. by rewrite str_app_nil_r.
Qed.

Lemma filter_nonempty_all (parts : list string) :
  Forall (fun s => plain s = true) parts -> filter (fun p => p <> "") parts = parts.
Proof.
  intros Hparts. apply filter_all. intros y Hy.
  rewrite Forall_forall in Hparts. by apply plain_nonempty, Hparts.
Qed.

(** [path.join] of any first part and plain parts after it. *)
Lemma join_general (x : string) (parts : list string) :
  Forall (fun s => plain s = true) parts -> parts <> [] ->
  Path.join (x :: parts)
  = render (Path.isAbsolute x)
      (Path.normalizeString (negb (Path.isAbsolute x)) (Path.segments x) ++ parts).
Proof.
  intros Hparts Hne. unfold Path.join.
  destruct (decide (x = "")) as [-> | Hx].
  - rewrite filter_cons_False by (intros H; by apply H).
    rewrite filter_nonempty_all by done.
    destruct parts as [|p parts]; [done |].
    destruct (snoc_cases (p :: parts) Hne) as (init & last & E). rewrite E in *.
    assert (Hlast : plain last = true).
    { apply Forall_app in Hparts as [_ Hl]. by inversion Hl. }
    assert (Hns : Forall (fun s => no_sep s = true /\ s <> "") (init ++ [last])).
    { eapply Forall_impl; [exact Hparts |]. intros s Hs.
      split; [by apply plain_no_sep | by apply plain_nonempty]. }
    cbn [Path.isAbsolute negb]. unfold Path.normalize.
    rewrite bool_decide_eq_false_2 by (apply join_snoc_nonempty; by apply plain_nonempty).
    rewrite isAbsolute_join by done. cbn [negb].
    rewrite segments_join; [| by destruct init | by apply Forall_plain_no_sep].
    rewrite normalizeString_plain by done.
    rewrite bool_decide_eq_false_2 by (apply join_snoc_nonempty; by apply plain_nonempty).
    assert (Htrail : Path.endsWithSep (JS.join "/" (init ++ [last])) = false).
    { destruct (join_snoc "/" init last) as [pre ->].
      rewrite endsWithSep_app by (by apply plain_nonempty).
      by apply endsWithSep_no_sep, plain_no_sep. }
    rewrite Htrail. unfold render. by rewrite str_app_nil_r.
  - rewrite filter_nonempty_plain by done.
    rewrite join_cons by done. by apply normalize_general.
Qed.

(** Joining plain parts to a normal path appends them. *)
Lemma join_render (a : bool) (l parts : list string) :
  normal (negb a) l ->
  Forall (fun s => plain s = true) parts -> parts <> [] ->
  Path.join (render a l :: parts) = render a (l ++ parts).
Proof.
  intros Hl Hparts Hne. rewrite join_general by done.
  by rewrite isAbsolute_render, segments_render.
Qed.

(** The canonical segments of a normal path. *)
Lemma canon_render (cwd : string) (a : bool) (l : list string) :
  normal (negb a) l ->
  Path.canon cwd (render a l)
  = if a then l else Path.normalizeString false (Path.segments cwd ++ l).
Proof.
  intros Hl. destruct a.
  - apply canon_abs_of. by apply normal_plain.
  - unfold Path.canon. rewrite isAbsolute_render by done.
    unfold render. rewrite str_app_nil_l.
    destruct l as [|x l].
    + cbn [JS.join]. unfold Path.normalizeString, Path.normalizeFrom.
      by rewrite !fold_left_app.
    + rewrite segments_join; [done | done |].
      eapply Forall_impl; [exact (normal_no_sep _ _ Hl) |]. by intros s [? _].
Qed.

Lemma canon_render_app (cwd : string) (a : bool) (l parts : list string) :
  normal (negb a) l -> Forall (fun s => plain s = true) parts ->
  Path.canon cwd (render a (l ++ parts)) = Path.canon cwd (render a l) ++ parts.
Proof.
  intros Hl Hparts. rewrite !canon_render by (done || by apply normal_app_plain).
  destruct a; [done |]. by rewrite app_assoc, normalizeString_app_plain.
Qed.

(** [path.dirname] of a normal path with at least two segments. *)
Lemma dirname_render (a : bool) (l : list string) (s : string) :
  l <> [] -> normal (negb a) l -> plain s = true ->
  Path.dirname (render a (l ++ [s])) = render a l.
Proof.
  intros Hne Hl Hs. destruct a; [by apply dirname_abs_of; [| apply normal_plain |] |].
  pose proof (normal_no_sep _ _ Hl) as Hall.
  assert (Hjoin : exists c0 x', JS.join "/" l = String c0 x' /\ Path.is_sep c0 = false).
  { pose proof (isAbsolute_join l Hall) as Habs.
    destruct (snoc_cases l Hne) as (l' & x & E). rewrite E in *.
    apply Forall_app in Hall as [_ Hx]. inversion Hx as [|? ? [_ Hxne] _]; subst.
    pose proof (join_snoc_nonempty "/" l' x Hxne) as Hj.
    destruct (JS.join "/" (l' ++ [x])) as [|c0 x']; [done |]. eauto. }
  destruct Hjoin as (c0 & x' & Hj & Hc0).
  unfold render. rewrite !str_app_nil_l, join_app by done. cbn [JS.join]. rewrite Hj.
  change (String c0 x' +:+ "/" +:+ s) with (String c0 (x' +:+ String Path.sep s)).
  unfold Path.dirname. rewrite Hc0.
  rewrite str_rev_app, str_rev_cons, str_app_assoc.
  change (String Path.sep "" +:+ String.rev x') with (String Path.sep (String.rev x')).
  pose proof (str_rev_nonempty s (plain_nonempty s Hs)) as Hrs.
  pose proof (plain_no_sep s Hs) as Hns. rewrite <- no_sep_rev in Hns.
  destruct (String.rev s) as [|c r] eqn:Erev; [done |].
  rewrite str_app_cons.
  pose proof Hns as Hns'. cbn [no_sep] in Hns'. apply andb_prop in Hns' as [Hc _].
  rewrite dropWhile_head by (by apply negb_true_iff in Hc).
  rewrite <- str_app_cons, dropWhile_no_sep_app by done.
  cbn [andb].
  by rewrite str_rev_involutive.
Qed.

(** ** The paths of the binary resolver, whatever the home and temp directories *)

Lemma cache_paths_general (pr : Process) (bin : string) :
  plain (platform (getPlatformInfo pr) +:+ "-" +:+ arch (getPlatformInfo pr)) = true ->
  plain bin = true ->
  exists a l,
    normal (negb a) l
    /\ Paths.getBinaryCacheDir pr = render a l
    /\ Path.join [Paths.getBinaryCacheDir pr; bin] = render a (l ++ [bin]).
Proof.
  intros Hc Hbin.
  set (a := Path.isAbsolute (os_homedir pr)).
  set (parts := [".database-cli-dumper"; "bin";
                 platform (getPlatformInfo pr) +:+ "-" +:+ arch (getPlatformInfo pr)]).
  assert (Hparts : Forall (fun s => plain s = true) parts) by (by repeat constructor).
  exists a, (Path.normalizeString (negb a) (Path.segments (os_homedir pr)) ++ parts).
  assert (Hl : normal (negb a)
                 (Path.normalizeString (negb a) (Path.segments (os_homedir pr)) ++ parts)).
  { apply normal_app_plain; [| done].
    apply normalizeString_is_normal, segments_all_no_sep. }
  assert (Hdir : Paths.getBinaryCacheDir pr
                 = render a (Path.normalizeString (negb a) (Path.segments (os_homedir pr)) ++ parts)).
  { unfold Paths.getBinaryCacheDir, Paths.homeDir. by apply join_general. }
  split; [exact Hl |]. split; [exact Hdir |].
  rewrite Hdir. apply join_render; [done | by repeat constructor | done].
Qed.

Lemma tmp_paths_general (tmp suffix fname : string) :
  no_sep suffix = true -> plain fname = true ->
  let tmpDir := Path.join [tmp; "mysqldump-download-"] +:+ suffix in
  exists a l0,
    normal (negb a) l0
    /\ tmpDir = render a (l0 ++ ["mysqldump-download-" +:+ suffix])
    /\ Path.join [tmpDir; fname]
       = render a ((l0 ++ ["mysqldump-download-" +:+ suffix]) ++ [fname])
    /\ Path.dirname (Path.join [tmpDir; fname]) = tmpDir.
Proof.
  intros Hsuf Hfname tmpDir.
  set (a := Path.isAbsolute tmp).
  set (l0 := Path.normalizeString (negb a) (Path.segments tmp)).
  assert (Hl0 : normal (negb a) l0) by apply normalizeString_is_normal, segments_all_no_sep.
  assert (Hdl : plain ("mysqldump-download-" +:+ suffix) = true).
  { exact (filename_plain "mysqldump-download" suffix eq_refl Hsuf). }
  assert (Hl : normal (negb a) (l0 ++ ["mysqldump-download-" +:+ suffix])).
  { apply normal_app_plain; [done | by repeat constructor]. }
  assert (Htmp : tmpDir = render a (l0 ++ ["mysqldump-download-" +:+ suffix])).
  { unfold tmpDir. rewrite join_general by (done || by repeat constructor).
    fold a l0. unfold render. by rewrite str_app_assoc, join_snoc_app. }
  assert (Harch : Path.join [tmpDir; fname]
                  = render a ((l0 ++ ["mysqldump-download-" +:+ suffix]) ++ [fname])).
  { rewrite Htmp. apply join_render; [done | by repeat constructor | done]. }
  exists a, l0. split; [exact Hl0 |]. split; [exact Htmp |]. split; [exact Harch |].
  rewrite Harch, Htmp. apply dirname_render; [by destruct l0 | done | done].
Qed.

Lemma mkdtemp_inv (f : FS.t) (prefix suffix p : string) (f' : FS.t) :
  FS.mkdtemp f prefix suffix = Ok (p, f') ->
  p = prefix +:+ suffix
  /\ FS.nodes f' = <[ FS.key f p := FS.Dir ]> (FS.nodes f)
  /\ FS.cwd f' = FS.cwd f.
Proof.
  unfold FS.mkdtemp.
  destruct (FS.nodes f !! FS.key f (prefix +:+ suffix)); [discriminate |].
  destruct (FS.parent_is_dir _ _); [| discriminate].
  by intros [= <- <-].
Qed.

Lemma ensureDir_inv (f f' : FS.t) (p : string) :
  FS.ensureDir f p = Ok f' ->
  FS.mkdirp (rev (FS.key f p)) (FS.nodes f) = Ok (FS.nodes f') /\ FS.cwd f' = FS.cwd f.
Proof.
  unfold FS.ensureDir. destruct (FS.mkdirp _ _) as [m | |]; [| discriminate ..].
  by intros [= <-].
Qed.

Lemma writeFile_inv (f f' : FS.t) (p data : string) :
  FS.writeFile f p data = Ok f' ->
  FS.nodes f' = <[ FS.key f p := FS.File data ]> (FS.nodes f) /\ FS.cwd f' = FS.cwd f.
Proof.
  unfold FS.writeFile.
  destruct (FS.nodes f !! FS.key f p) as [[|]|]; try discriminate;
    (destruct (FS.parent_is_dir _ _); [| discriminate]); by intros [= <-].
Qed.

Lemma download_name_differs (suffix bin : string) :
  bin = "mysqldump" \/ bin = "mysqldump.exe" -> "mysqldump-download-" +:+ suffix <> bin.
Proof.
  intros [-> | ->] E; apply (f_equal (String.get 9)) in E; vm_compute in E; discriminate E.
Qed.

Lemma pathExists_false_lookup (f : FS.t) (p : string) :
  FS.pathExists f p = false <-> FS.nodes f !! FS.key f p = None.
Proof.
  unfold FS.pathExists, FS.lookup. destruct (FS.nodes f !! FS.key f p); split; done.
Qed.

Lemma downloadToFile_inv (net : Downloader.Network) (dest url : string) (w : World) r w' :
  Downloader.downloadToFile net dest url w = (r, w') ->
  log w' = log w ++ [EvDownload url dest]
  /\ (fs w' = fs w
      \/ exists f3, FS.ensureDir (fs w) (Path.dirname dest) = Ok f3
           /\ (fs w' = f3 \/ exists data, FS.writeFile f3 dest data = Ok (fs w'))).
Proof.
  unfold Downloader.downloadToFile. intros Hrun.
  apply bind_inv in Hrun as [(u1 & w1 & H1 & Hrun) | [(e & H1 & _) | (H1 & _)]];
    [injection H1 as _ <- | discriminate H1 ..].
  apply bind_inv in Hrun as [(u2 & w2 & H2 & Hrun) | [(e & H2 & _) | (H2 & _)]].
  2, 3: apply fs_do_inv in H2 as [(f' & _ & Hr & _) | [-> _]]; [discriminate Hr | by auto].
  apply fs_do_inv in H2 as [(f3 & Hf3 & _ & ->) | [_ Hr]]; [| by destruct (Hr u2)].
  cbn [fs emit] in Hf3.
  apply bind_inv in Hrun as [(u & w3 & H3 & Hrun) | [(e & H3 & _) | (H3 & _)]].
  2, 3: injection H3 as _ <-; split; [reflexivity | right; exists f3; auto].
  assert (w3 = set_fs (emit w (EvDownload url dest)) f3) as ->.
  { cbn in H3. by injection H3 as _ <-. }
  destruct (Downloader.https_refusal u).
  { injection Hrun as _ <-. split; [reflexivity | right; exists f3; auto]. }
  apply (request_inv net dest Downloader.MAX_REDIRECTS) in Hrun as [Hlog Hfs]; [| lia].
  split; [by rewrite Hlog |]. right. exists f3. split; [done |]. exact Hfs.
Qed.

Lemma sha256File_inv (out : BinaryManager.Outside) (p : string) (w : World) r w' :
  BinaryManager.sha256File out p w = (r, w') ->
  fs w' = fs w
  /\ ((log w' = log w /\ forall h, r <> Ok h)
      \/ exists h, r = Ok h /\ log w' = log w ++ [EvHash p h]).
Proof.
  unfold BinaryManager.sha256File. intros Hrun.
  apply bind_inv in Hrun as [(content & w1 & H1 & Hrun) | [(e & H1 & ->) | (H1 & ->)]].
  - injection H1 as _ <-. cbn in Hrun. injection Hrun as <- <-.
    split; [reflexivity |]. right. eauto.
  - injection H1 as _ <-. split; [reflexivity |]. left. done.
  - injection H1 as _ <-. split; [reflexivity |]. left. done.
Qed.

(** ** The download-and-extract branch, case by case *)

Lemma download_and_extract_cases (pr : Process) (out : BinaryManager.Outside)
    (d : BinaryDescriptor) (bin : string) (w : World) (res : result string) (w' : World) :
  no_sep (BinaryManager.tmp_suffix out) = true ->
  descriptor_ok d = true ->
  bd_platform d = platform (getPlatformInfo pr) ->
  bd_arch d = arch (getPlatformInfo pr) ->
  bin = "mysqldump" \/ bin = "mysqldump.exe" ->
  FS.pathExists (fs w) (Path.join [Paths.getBinaryCacheDir pr; bin]) = false ->
  BinaryManager.download_and_extract pr out d (Paths.getBinaryCacheDir pr)
    (Path.join [Paths.getBinaryCacheDir pr; bin]) w = (res, w') ->
  exists evs, log w' = log w ++ evs
    /\ (evs = []
        \/ (exists u a, evs = [EvDownload u a])
        \/ (exists u a h, evs = [EvDownload u a; EvHash a h]
              /\ h <> bd_sha256 d
              /\ res = Throw (mismatch_error d h)
              /\ FS.pathExists (fs w') (Path.join [Paths.getBinaryCacheDir pr; bin]) = false)
        \/ (exists u a tl, evs = [EvDownload u a; EvHash a (bd_sha256 d)] ++ tl
              /\ Forall is_extract tl)).
Proof.
  intros Hsuf Hok Hplat Harch Hbin Hmiss Hrun.
  destruct (descriptor_ok_inv d Hok) as (Hc & Hfname & Hf1 & Hf2).
  rewrite Hplat, Harch in Hc.
  assert (Hbinp : plain bin = true) by (by destruct Hbin as [-> | ->]).
  assert (Hfbin : archive_name d <> bin) by (by destruct Hbin as [-> | ->]).
  clear Hf1 Hf2.
  destruct (cache_paths_general pr bin Hc Hbinp) as (ah & lh & Hlh & Hdir & Htarget).
  destruct (tmp_paths_general (os_tmpdir pr) (BinaryManager.tmp_suffix out) (archive_name d)
              Hsuf Hfname) as (at_ & l0 & Hl0 & Htmpdir & Harchive & Hdirname).
  cbv zeta in Htmpdir, Harchive, Hdirname.
  set (dl := "mysqldump-download-" +:+ BinaryManager.tmp_suffix out) in *.
  assert (Hdl : plain dl = true).
  { exact (filename_plain "mysqldump-download" _ eq_refl Hsuf). }
  set (tmpDir := Path.join [os_tmpdir pr; "mysqldump-download-"] +:+ BinaryManager.tmp_suffix out) in *.
  set (archivePath := Path.join [tmpDir; archive_name d]) in *.
  set (target := Path.join [Paths.getBinaryCacheDir pr; bin]) in *.
  set (cacheDir := Paths.getBinaryCacheDir pr) in *.
  set (cwd0 := FS.cwd (fs w)).
  set (kc := Path.canon cwd0 (render ah lh)).
  set (kt := Path.canon cwd0 (render at_ l0)).
  assert (Kcache : Path.canon cwd0 cacheDir = kc) by (by rewrite Hdir).
  assert (Ktarget : Path.canon cwd0 target = kc ++ [bin]).
  { rewrite Htarget. apply canon_render_app; [done | by repeat constructor]. }
  assert (Ktmp : Path.canon cwd0 tmpDir = kt ++ [dl]).
  { rewrite Htmpdir. apply canon_render_app; [done | by repeat constructor]. }
  assert (Karch : Path.canon cwd0 archivePath = (kt ++ [dl]) ++ [archive_name d]).
  { rewrite Harchive, canon_render_app; [| by apply normal_app_plain; [| repeat constructor]
                                         | by repeat constructor].
    f_equal. apply canon_render_app; [done | by repeat constructor]. }
  clearbody kc kt. clear Hdir Htarget Htmpdir Harchive Hlh Hl0.
  apply pathExists_false_lookup in Hmiss. unfold FS.key in Hmiss. fold cwd0 in Hmiss.
  rewrite Ktarget in Hmiss.
  unfold BinaryManager.download_and_extract in Hrun.
  (* ensureDir(cacheDir) *)
  apply bind_inv in Hrun as [(u1 & w1 & H1 & Hrun) | [(e & H1 & _) | (H1 & _)]].
  2, 3: apply fs_do_inv in H1 as [(f' & _ & Hr & _) | [-> _]];
        [discriminate Hr | exists []; rewrite app_nil_r; auto].
  apply fs_do_inv in H1 as [(f1 & Hf1 & _ & ->) | [_ Hr]]; [| by destruct (Hr u1)].
  apply ensureDir_inv in Hf1 as [Hm1 Hcwd1]. unfold FS.key in Hm1. fold cwd0 in Hm1, Hcwd1.
  rewrite Kcache in Hm1.
  assert (Hmiss1 : FS.nodes f1 !! (kc ++ [bin]) = None).
  { rewrite (mkdirp_frame _ _ _ (kc ++ [bin]) Hm1); [done |].
    rewrite rev_involutive. apply snoc_prefix_absurd. }
  (* mkdtemp *)
  apply bind_inv in Hrun as [(tmpDir' & w2 & H2 & Hrun) | [(e & H2 & _) | (H2 & _)]].
  2, 3: unfold BinaryManager.mkdtemp in H2; cbn [fs set_fs] in H2;
        destruct (FS.mkdtemp f1 _ _) as [[p f] | |]; inversion H2; subst;
        exists []; rewrite app_nil_r; auto.
  assert (Hw2 : tmpDir' = tmpDir /\ log w2 = log w
                /\ FS.nodes (fs w2) = <[ kt ++ [dl] := FS.Dir ]> (FS.nodes f1)
                /\ FS.cwd (fs w2) = cwd0).
  { unfold BinaryManager.mkdtemp in H2. cbn [fs set_fs] in H2.
    destruct (FS.mkdtemp f1 _ _) as [[p f2] | |] eqn:Hmk; [| discriminate ..].
    injection H2 as <- <-. apply mkdtemp_inv in Hmk as (-> & Hn & Hcwd).
    fold tmpDir in Hn |- *. unfold FS.key in Hn. rewrite Hcwd1, Ktmp in Hn.
    cbn. by rewrite Hcwd, Hcwd1. }
  destruct Hw2 as (-> & Hlog2 & Hnodes2 & Hcwd2).
  fold (archive_name d) in Hrun. cbv zeta in Hrun. fold archivePath in Hrun.
  (* downloadToFile *)
  assert (Hmiss2 : FS.nodes (fs w2) !! (kc ++ [bin]) = None).
  { rewrite Hnodes2, lookup_insert_ne; [done |].
    intros E%snoc_inj_last.
    exact (download_name_differs (BinaryManager.tmp_suffix out) bin Hbin E). }
  assert (Hdl4 : forall r4 w4,
             Downloader.downloadToFile (BinaryManager.net out) archivePath (bd_url d) w2 = (r4, w4) ->
             log w4 = log w ++ [EvDownload (bd_url d) archivePath]
             /\ FS.nodes (fs w4) !! (kc ++ [bin]) = None
             /\ FS.cwd (fs w4) = cwd0).
  { intros r4 w4 H4. apply downloadToFile_inv in H4 as [Hlog4 Hfs4].
    split; [by rewrite Hlog4, Hlog2 |].
    destruct Hfs4 as [-> | (f3 & Hf3 & Hfs4)]; [done |].
    rewrite Hdirname in Hf3. apply ensureDir_inv in Hf3 as [Hm3 Hcwd3].
    unfold FS.key in Hm3. rewrite Hcwd2, Ktmp in Hm3.
    rewrite mkdirp_existing in Hm3
      by (by rewrite rev_involutive, Hnodes2, lookup_insert_eq).
    injection Hm3 as Hn3.
    destruct Hfs4 as [-> | (data & Hw)]; [by rewrite <- Hn3, Hcwd3 |].
    apply writeFile_inv in Hw as [Hn4 Hcwd4].
    unfold FS.key in Hn4. rewrite Hcwd3, Hcwd2, Karch in Hn4.
    rewrite Hn4, Hcwd4, Hcwd3, <- Hn3. split; [| done].
    rewrite lookup_insert_ne; [done |]. by intros E%snoc_inj_last. }
  apply bind_inv in Hrun as [(reports & w4 & H3 & Hrun) | [(e & H3 & _) | (H3 & _)]].
  2, 3: apply Hdl4 in H3 as [Hlog4 _]; eexists; split; [exact Hlog4 | right; left; eauto].
  apply Hdl4 in H3 as (Hlog4 & Hmiss4 & Hcwd4). clear Hdl4.
  (* sha256File *)
  apply bind_inv in Hrun as [(actual & w5 & H5 & Hrun) | [(e & H5 & _) | (H5 & _)]].
  2, 3: apply sha256File_inv in H5 as [_ [[Hlog5 _] | (h & Hr & _)]];
        [eexists; split; [by rewrite Hlog5, Hlog4 | right; left; eauto] | discriminate Hr].
  apply sha256File_inv in H5 as [Hfs5 [[_ Hr] | (h & [= <-] & Hlog5)]]; [by destruct (Hr actual) |].
  rewrite checksum_mismatch_ok in Hrun by done.
  case_bool_decide as Hsha; cbn [negb] in Hrun.
  - (* the checksum passes *)
    subst actual.
    destruct (extract_and_install_appends _ _ _ _ _ _ _ _ _ Hrun) as (tl & Hlog & Htl).
    exists ([EvDownload (bd_url d) archivePath; EvHash archivePath (bd_sha256 d)] ++ tl).
    split; [| right; right; right; eauto].
    rewrite Hlog, Hlog5, Hlog4, <- !app_assoc. reflexivity.
  - (* the checksum fails *)
    injection Hrun as <- <-.
    exists [EvDownload (bd_url d) archivePath; EvHash archivePath actual].
    split; [by rewrite Hlog5, Hlog4, <- app_assoc |].
    right; right; left. exists (bd_url d), archivePath, actual.
    split; [done |]. split; [done |]. split; [done |].
    apply pathExists_false_lookup. unfold FS.key. cbn [fs emit].
    by rewrite Hfs5, Hcwd4, Ktarget.
Qed.

(** C2.  On a machine whose platform and architecture have a catalog
    descriptor and whose cache path holds nothing, when the hash computed
    for the downloaded archive differs from the descriptor's,
    [ensureBinary] throws the checksum-mismatch error; no extraction was
    started, and the cache path still holds nothing.  (The characters
    [mkdtemp] appends hold no separator.) *)
Theorem C2_checksum_mismatch (pr : Process) (out : BinaryManager.Outside)
    (d : BinaryDescriptor) (w : World) (archive actual : string) :
  no_sep (BinaryManager.tmp_suffix out) = true ->
  VersionMap.resolveBinaryDescriptor (platform (getPlatformInfo pr)) (arch (getPlatformInfo pr))
    = Some d ->
  FS.pathExists (fs w) (cache_path pr) = false ->
  In (EvHash archive actual) (new_events w (BinaryManager.ensureBinary pr out None w).2) ->
  actual <> bd_sha256 d ->
  (BinaryManager.ensureBinary pr out None w).1 = Throw (mismatch_error d actual)
  /\ (forall kind a dir,
        ~ In (EvExtract kind a dir) (new_events w (BinaryManager.ensureBinary pr out None w).2))
  /\ FS.pathExists (fs (BinaryManager.ensureBinary pr out None w).2) (cache_path pr) = false.
Proof.
  intros Hsuf Hdesc Hmiss.
  destruct (resolveBinaryDescriptor_Some _ _ _ Hdesc) as (Hok & Hplat & Harch).
  set (bin := if isWindows (getPlatformInfo pr) then BinaryManager.BINARY_NAMES_win32
              else BinaryManager.BINARY_NAMES_default).
  assert (Hbin : bin = "mysqldump" \/ bin = "mysqldump.exe").
  { unfold bin. destruct (isWindows _); auto. }
  destruct (BinaryManager.ensureBinary pr out None w) as [res w'] eqn:Hrun.
  unfold BinaryManager.ensureBinary in Hrun. cbn [BinaryManager.supplied] in Hrun.
  rewrite Hdesc in Hrun. fold bin in Hrun. unfold cache_path in *. fold bin in Hmiss |- *.
  unfold mbind at 1, prog_bind at 1, fs_get at 1 in Hrun. rewrite Hmiss in Hrun.
  destruct (download_and_extract_cases pr out d bin w res w'
              Hsuf Hok Hplat Harch Hbin Hmiss Hrun) as (evs & Hlog & Hcases).
  cbn [fst snd]. unfold new_events. rewrite Hlog, drop_app_length.
  intros Hin Hne.
  destruct Hcases as [-> | [(u & a & ->) | [(u & a & h & -> & _ & -> & Hgone)
                                           | (u & a & tl & -> & Htl)]]].
  - destruct Hin.
  - destruct Hin as [Hin | []]. discriminate Hin.
  - destruct Hin as [Hin | [Hin | []]]; [discriminate Hin |]. injection Hin as <- <-.
    split; [reflexivity |]. split; [| exact Hgone].
    intros kind a' dir [Hx | [Hx | []]]; discriminate Hx.
  - exfalso. destruct Hin as [Hin | [Hin | Hin]]; [discriminate Hin | |].
    + injection Hin as _ <-. by apply Hne.
    + rewrite List.Forall_forall in Htl. exact (Htl _ Hin).
Qed.

Lemma C2_checksum_mismatch_witness :
  let run := BinaryManager.ensureBinary linux_box tampered_outside None fresh_world in
  FS.pathExists (fs fresh_world) (cache_path linux_box) = false
  /\ In (EvHash "/tmp/mysqldump-download-Ab3dE9/mysqldump-linux-x64.tarxz"
           "0000000000000000000000000000000000000000000000000000000000000000")
        (new_events fresh_world run.2)
  /\ run.1 = Throw (mkError
       ("Checksum mismatch for mysqldump archive. Expected "
        +:+ "ffd80e375834dd07e25cc3c7f03ae1950668ec606655c9cb2eafdfb7e37d6026"
        +:+ ", got 0000000000000000000000000000000000000000000000000000000000000000."))
  /\ FS.pathExists (fs run.2) (cache_path linux_box) = false.
Proof.
  intros run.
  assert (Hmiss : FS.pathExists (fs fresh_world) (cache_path linux_box) = false)
    by (vm_compute; reflexivity).
  assert (Hin : In (EvHash "/tmp/mysqldump-download-Ab3dE9/mysqldump-linux-x64.tarxz"
                      "0000000000000000000000000000000000000000000000000000000000000000")
                   (new_events fresh_world run.2)).
  { assert (E : new_events fresh_world run.2
                = [EvDownload "https://cdn.mysql.com/archives/mysql-8.0/mysql-8.0.36-linux-glibc2.28-x86_64.tar.xz"
                     "/tmp/mysqldump-download-Ab3dE9/mysqldump-linux-x64.tarxz";
                   EvHash "/tmp/mysqldump-download-Ab3dE9/mysqldump-linux-x64.tarxz"
                     "0000000000000000000000000000000000000000000000000000000000000000"])
      by (vm_compute; reflexivity).
    rewrite E. right. left. reflexivity. }
  assert (Hne : "0000000000000000000000000000000000000000000000000000000000000000"
                <> "ffd80e375834dd07e25cc3c7f03ae1950668ec606655c9cb2eafdfb7e37d6026")
    by discriminate.
  destruct (C2_checksum_mismatch linux_box tampered_outside _ fresh_world _ _
              eq_refl eq_refl Hmiss Hin Hne) as (Hres & _ & Hgone).
  split; [exact Hmiss |]. split; [exact Hin |]. split; [exact Hres | exact Hgone].
Defined.

(* ===================================================================== *)
(** ** Flag catalog *)
(* ===================================================================== *)

Lemma filter_agree {A} (P Q : A -> Prop) `{!forall x, Decision (P x)} `{!forall x, Decision (Q x)}
    (l : list A) :
  (forall x, x ∈ l -> (P x <-> Q x)) -> filter P l = filter Q l.
Proof.
  induction l as [|a l IH]; intros Hall; [reflexivity |].
  rewrite !filter_cons.
  assert (Ha : P a <-> Q a) by (apply Hall; by left).
  rewrite IH by (intros x Hx; apply Hall; by right).
  destruct (decide (P a)), (decide (Q a)); tauto.
Qed.

Lemma resolveFlags_picked (ids : list string) (custom : option (list string)) :
  FlagsCatalog.resolveFlags ids custom
  = picked_flags ids ++ default [] custom.
Proof.
  unfold FlagsCatalog.resolveFlags, picked_flags.
  rewrite (filter_agree (fun f => FlagsCatalog.fo_id f ∈ (list_to_set ids : gset string))
             (fun f => FlagsCatalog.fo_id f ∈ ids) FlagsCatalog.CATALOG)
    by (intros x _; apply elem_of_list_to_set).
  destruct custom as [[|c custom] |]; cbn [default length Nat.eqb negb];
    by rewrite ?app_nil_r.
Qed.

Lemma catalog_flags_NoDup : NoDup (map FlagsCatalog.fo_flag FlagsCatalog.CATALOG).
Proof. apply (bool_decide_unpack _). vm_compute. reflexivity. Qed.

(** X1. [resolveFlags] returns the flags of the selected catalog entries,
    in the order of the catalog and each once, followed by the custom
    flags as they were given: ids that the catalog does not know are
    dropped. *)
Theorem resolveFlags_layout (ids : list string) (custom : option (list string)) :
  FlagsCatalog.resolveFlags ids custom = picked_flags ids ++ default [] custom
  /\ picked_flags ids `sublist_of` map FlagsCatalog.fo_flag FlagsCatalog.CATALOG
  /\ NoDup (picked_flags ids)
  /\ (forall flag, flag ∈ picked_flags ids
        <-> exists f, f ∈ FlagsCatalog.CATALOG /\ FlagsCatalog.fo_id f ∈ ids
                      /\ FlagsCatalog.fo_flag f = flag).
Proof.
  split; [apply resolveFlags_picked |].
  assert (Hsub : picked_flags ids `sublist_of` map FlagsCatalog.fo_flag FlagsCatalog.CATALOG).
  { unfold picked_flags.
    change (map FlagsCatalog.fo_flag ?l) with (FlagsCatalog.fo_flag <$> l).
    apply fmap_sublist, sublist_filter. }
  split; [exact Hsub |]. split.
  - eapply sublist_NoDup; [apply catalog_flags_NoDup | exact Hsub].
  - intros flag. unfold picked_flags.
    change (map FlagsCatalog.fo_flag ?l) with (FlagsCatalog.fo_flag <$> l).
    rewrite list_elem_of_fmap. split.
    + intros (f & -> & Hf). apply list_elem_of_filter in Hf as [Hid Hin]. eauto.
    + intros (f & Hin & Hid & <-). exists f. split; [reflexivity |].
      apply list_elem_of_filter. done.
Qed.

(** X2. The order of the selected ids, their repetitions and the ids the
    catalog does not know make no difference: two selections that hold
    the same catalog ids resolve to the same flags. *)
Theorem resolveFlags_selection_set (ids1 ids2 : list string) (custom : option (list string)) :
  (forall f, f ∈ FlagsCatalog.CATALOG ->
     (FlagsCatalog.fo_id f ∈ ids1 <-> FlagsCatalog.fo_id f ∈ ids2)) ->
  FlagsCatalog.resolveFlags ids1 custom = FlagsCatalog.resolveFlags ids2 custom.
Proof.
  intros Hsame. rewrite !resolveFlags_picked. f_equal.
  unfold picked_flags. f_equal. by apply filter_agree.
Qed.

Lemma resolveFlags_selection_set_witness :
  FlagsCatalog.resolveFlags ["quick"; "no-such-flag"; "single-transaction"; "quick"]
    (Some ["--custom-flag"])
  = ["--single-transaction"; "--quick"; "--custom-flag"].
Proof.
  rewrite (resolveFlags_selection_set
             ["quick"; "no-such-flag"; "single-transaction"; "quick"]
             ["single-transaction"; "quick"] (Some ["--custom-flag"])).
  - vm_compute. reflexivity.
  - intros f Hf. rewrite !elem_of_cons, !elem_of_nil.
    assert (FlagsCatalog.fo_id f <> "no-such-flag"); [| tauto].
    intros Hid. revert Hf. unfold FlagsCatalog.CATALOG.
    rewrite !elem_of_cons, elem_of_nil.
    intros H; repeat (destruct H as [-> | H]; [discriminate Hid |]). exact H.
Defined.

(** The checks of test/flagsCatalog.test.js. *)
Example resolveFlags_test_1 :
  FlagsCatalog.resolveFlags ["single-transaction"; "quick"] (Some ["--custom-flag"])
  = ["--single-transaction"; "--quick"; "--custom-flag"].
Proof. vm_compute. reflexivity. Qed.

Example resolveFlags_test_2 :
  FlagsCatalog.resolveFlags ["single-transaction"] None = ["--single-transaction"].
Proof. vm_compute. reflexivity. Qed.

(* ===================================================================== *)
(** ** Secrets: the keychain *)
(* ===================================================================== *)

Lemma loadKeytar_available installed st :
  keytar_available installed st ->
  exists st', Secrets.loadKeytar installed st = (Val tt, st')
              /\ Secrets.keytarModule st' = Val tt
              /\ Secrets.keychain st' = Secrets.keychain st.
Proof.
  intros [H | [H ->]]; unfold Secrets.loadKeytar; rewrite H.
  - exists st. done.
  - eexists. split; [reflexivity |]. done.
Qed.

(** Once the module variable is set, [require] is not tried again. *)
Lemma loadKeytar_cached installed st :
  Secrets.keytarModule st <> Undefined ->
  Secrets.loadKeytar installed st = (Secrets.keytarModule st, st).
Proof. unfold Secrets.loadKeytar. by destruct (Secrets.keytarModule st). Qed.

Lemma loadKeytar_sets installed st :
  Secrets.keytarModule (Secrets.loadKeytar installed st).2 <> Undefined.
Proof.
  unfold Secrets.loadKeytar.
  destruct (Secrets.keytarModule st) eqn:H; cbn; rewrite ?H; try done.
  by destruct installed.
Qed.

Lemma keytar_ref_scheme (account : string) :
  truthy_str ("keytar:" +:+ account) = true
  /\ startsWith ("keytar:" +:+ account) "plaintext:" = false
  /\ startsWith ("keytar:" +:+ account) "keytar:" = true
  /\ slice (String.length "keytar:") ("keytar:" +:+ account) = account.
Proof.
  split; [reflexivity |]. split; [reflexivity |].
  split; [apply startsWith_app | apply slice_app].
Qed.

Lemma resolvePassword_keytar installed account st :
  Secrets.keytarModule st = Val tt ->
  Secrets.resolvePassword installed ("keytar:" +:+ account) st
  = (match Secrets.keychain st !! (Secrets.SERVICE_NAME, account) with
     | Some pw => Val pw
     | None => Null
     end, st).
Proof.
  intros Hm. unfold Secrets.resolvePassword.
  destruct (keytar_ref_scheme account) as (-> & -> & -> & ->). cbn [negb].
  rewrite loadKeytar_cached by (rewrite Hm; discriminate).
  by rewrite Hm.
Qed.

Lemma savePassword_keytar installed uuid p existingRef st :
  keytar_available installed st ->
  exists account,
    Secrets.savePassword installed uuid p existingRef st
    = ({| Secrets.ref := "keytar:" +:+ account; Secrets.storage := Secrets.keytar;
          Secrets.warning := None |},
       {| Secrets.keytarModule := Val tt;
          Secrets.keychain := <[ (Secrets.SERVICE_NAME, account) := p ]> (Secrets.keychain st) |})
    /\ account = match existingRef with
                 | Some r => if truthy_str r && startsWith r "keytar:"
                             then Secrets.account_of r else uuid
                 | None => uuid
                 end.
Proof.
  intros Hav. destruct (loadKeytar_available _ _ Hav) as (st1 & Hload & Hm & Hk).
  unfold Secrets.savePassword. rewrite Hload, Hm, Hk.
  eexists. split; reflexivity.
Qed.

(** X3. With the keychain available, a saved password is stored under a
    ["keytar:"] reference, without a warning, and resolving that
    reference gives the password back. *)
Theorem savePassword_keytar_round_trip
    (installed installed' : bool) (uuid p : string) (existingRef : option string)
    (st : Secrets.state) :
  keytar_available installed st ->
  let saved := Secrets.savePassword installed uuid p existingRef st in
  Secrets.storage saved.1 = Secrets.keytar
  /\ Secrets.warning saved.1 = None
  /\ startsWith (Secrets.ref saved.1) "keytar:" = true
  /\ (Secrets.resolvePassword installed' (Secrets.ref saved.1) saved.2).1 = Val p.
Proof.
  intros Hav. cbn zeta.
  destruct (savePassword_keytar installed uuid p existingRef st Hav) as (account & -> & _).
  cbn [fst snd Secrets.ref Secrets.storage Secrets.warning].
  split; [reflexivity |]. split; [reflexivity |]. split; [apply startsWith_app |].
  rewrite resolvePassword_keytar by reflexivity.
  cbn. by rewrite lookup_insert_eq.
Qed.

Lemma savePassword_keytar_round_trip_witness :
  let st := {| Secrets.keytarModule := Undefined; Secrets.keychain := ∅ |} in
  let saved := Secrets.savePassword true "0b1e" "s3cret" None st in
  keytar_available true st
  /\ Secrets.ref saved.1 = "keytar:0b1e"
  /\ (Secrets.resolvePassword true (Secrets.ref saved.1) saved.2).1 = Val "s3cret".
Proof.
  intros st saved.
  assert (H : keytar_available true st) by (right; split; reflexivity).
  split; [exact H |]. split; [reflexivity |].
  exact (proj2 (proj2 (proj2 (savePassword_keytar_round_trip true true "0b1e" "s3cret" None st H)))).
Defined.

Lemma split_lacks (c : ascii) (s : string) : lacks c s = true -> JS.split c s = [s].
Proof.
  induction s as [|x s IH]; [reflexivity |].
  cbn. intros H. apply andb_prop in H as [Hx Hs]. apply negb_true_iff in Hx.
  rewrite Hx, (IH Hs). reflexivity.
Qed.

Lemma account_of_keytar_ref (account : string) :
  lacks ":" account = true -> Secrets.account_of ("keytar:" +:+ account) = account.
Proof.
  intros H. unfold Secrets.account_of.
  change (JS.split ":" ("keytar:" +:+ account))
    with ("keytar" :: JS.split ":" account).
  by rewrite (split_lacks _ _ H).
Qed.

(** X4. Saving a new password for a target that already has a keychain
    reference keeps the reference: the password is overwritten under the
    same account, provided the account holds no colon (as a UUID does
    not).  The fresh UUID is not used. *)
Theorem savePassword_keeps_reference
    (installed : bool) (uuid p account : string) (st : Secrets.state) :
  keytar_available installed st ->
  lacks ":" account = true ->
  let saved := Secrets.savePassword installed uuid p (Some ("keytar:" +:+ account)) st in
  Secrets.ref saved.1 = "keytar:" +:+ account
  /\ Secrets.keychain saved.2
     = <[ (Secrets.SERVICE_NAME, account) := p ]> (Secrets.keychain st).
Proof.
  intros Hav Hacc. cbn zeta.
  destruct (savePassword_keytar installed uuid p (Some ("keytar:" +:+ account)) st Hav)
    as (a & -> & Ha).
  destruct (keytar_ref_scheme account) as (Ht & _ & Hs & _).
  rewrite Ht, Hs, account_of_keytar_ref in Ha by exact Hacc. cbn in Ha. subst a.
  done.
Qed.

Lemma savePassword_keeps_reference_witness :
  let st := {| Secrets.keytarModule := Val tt;
               Secrets.keychain := {[ (Secrets.SERVICE_NAME, "0b1e") := "old" ]} |} in
  let saved := Secrets.savePassword true "ffff" "new" (Some "keytar:0b1e") st in
  keytar_available true st
  /\ lacks ":" "0b1e" = true
  /\ Secrets.ref saved.1 = "keytar:0b1e"
  /\ Secrets.keychain saved.2 !! (Secrets.SERVICE_NAME, "0b1e") = Some "new".
Proof.
  intros st saved.
  assert (H : keytar_available true st) by (left; reflexivity).
  split; [exact H |]. split; [reflexivity |].
  destruct (savePassword_keeps_reference true "ffff" "new" "0b1e" st H eq_refl) as [Hr Hk].
  split; [exact Hr |].
  change (Secrets.keychain saved.2)
    with (Secrets.keychain
            (Secrets.savePassword true "ffff" "new" (Some ("keytar:" +:+ "0b1e")) st).2).
  rewrite Hk. apply lookup_insert_eq.
Defined.

(** X5. Whether the keychain can be used is decided once per process:
    after any call of [savePassword], what [require('keytar')] would do
    is never consulted again, by none of the three operations. *)
Theorem keytar_choice_is_sticky
    (i1 i2 i3 : bool) (uuid p : string) (existingRef : option string) (st : Secrets.state)
    (uuid' p' ref : string) (existingRef' : option string) :
  let st1 := (Secrets.savePassword i1 uuid p existingRef st).2 in
  Secrets.savePassword i2 uuid' p' existingRef' st1
  = Secrets.savePassword i3 uuid' p' existingRef' st1
  /\ Secrets.resolvePassword i2 ref st1 = Secrets.resolvePassword i3 ref st1
  /\ Secrets.deletePassword i2 ref st1 = Secrets.deletePassword i3 ref st1.
Proof.
  cbn zeta.
  set (st1 := (Secrets.savePassword i1 uuid p existingRef st).2).
  assert (Hset : Secrets.keytarModule st1 <> Undefined).
  { subst st1. unfold Secrets.savePassword.
    pose proof (loadKeytar_sets i1 st) as Hl.
    destruct (Secrets.loadKeytar i1 st) as [kt st0]. cbn in Hl.
    by destruct kt. }
  unfold Secrets.savePassword, Secrets.resolvePassword, Secrets.deletePassword.
  by rewrite !(loadKeytar_cached _ st1 Hset).
Qed.

(** X6. With the keychain available, deleting a keychain reference makes
    it resolve to nothing ([null]) and leaves every other account as it
    was; deleting a plaintext reference changes nothing. *)
Theorem deletePassword_forgets
    (installed : bool) (account : string) (st : Secrets.state) :
  keytar_available installed st ->
  let st' := Secrets.deletePassword installed ("keytar:" +:+ account) st in
  (Secrets.resolvePassword installed ("keytar:" +:+ account) st').1 = Null
  /\ (forall other, other <> account ->
        (Secrets.resolvePassword installed ("keytar:" +:+ other) st').1
        = (Secrets.resolvePassword installed ("keytar:" +:+ other) st).1)
  /\ (forall s, Secrets.deletePassword installed ("plaintext:" +:+ s) st = st).
Proof.
  intros Hav. cbn zeta.
  destruct (loadKeytar_available _ _ Hav) as (st1 & Hload & Hm & Hk).
  assert (Hdel : Secrets.deletePassword installed ("keytar:" +:+ account) st
                 = {| Secrets.keytarModule := Val tt;
                      Secrets.keychain := delete (Secrets.SERVICE_NAME, account)
                                            (Secrets.keychain st) |}).
  { unfold Secrets.deletePassword.
    destruct (keytar_ref_scheme account) as (_ & _ & -> & ->).
    by rewrite Hload, Hm, Hk. }
  rewrite Hdel. split; [| split].
  - rewrite resolvePassword_keytar by reflexivity. cbn. by rewrite lookup_delete_eq.
  - intros other Hne.
    rewrite resolvePassword_keytar by reflexivity. cbn.
    rewrite lookup_delete_ne by congruence.
    unfold Secrets.resolvePassword.
    destruct (keytar_ref_scheme other) as (-> & -> & -> & ->). cbn [negb].
    by rewrite Hload, Hk.
  - intros s. reflexivity.
Qed.

Lemma deletePassword_forgets_witness :
  let st := {| Secrets.keytarModule := Val tt;
               Secrets.keychain := {[ (Secrets.SERVICE_NAME, "0b1e") := "s3cret" ]} |} in
  keytar_available true st
  /\ (Secrets.resolvePassword true "keytar:0b1e" st).1 = Val "s3cret"
  /\ (Secrets.resolvePassword true "keytar:0b1e"
        (Secrets.deletePassword true "keytar:0b1e" st)).1 = Null.
Proof.
  intros st.
  assert (H : keytar_available true st) by (left; reflexivity).
  split; [exact H |]. split; [reflexivity |].
  exact (proj1 (deletePassword_forgets true "0b1e" st H)).
Defined.

(** X7. What [savePassword] returns is consistent: the reference is a
    plaintext reference exactly when the storage is reported as
    plaintext, and exactly then a warning comes with it. *)
Theorem savePassword_plaintext_is_flagged
    (installed : bool) (uuid p : string) (existingRef : option string) (st : Secrets.state) :
  let saved := (Secrets.savePassword installed uuid p existingRef st).1 in
  (Secrets.isPlaintextRef (Secrets.ref saved) = true <-> Secrets.storage saved = Secrets.plaintext)
  /\ (is_Some (Secrets.warning saved) <-> Secrets.storage saved = Secrets.plaintext).
Proof.
  cbn zeta. unfold Secrets.savePassword.
  destruct (Secrets.loadKeytar installed st) as [kt st1].
  destruct kt as [| | []]; cbn [fst Secrets.ref Secrets.storage Secrets.warning];
    unfold Secrets.isPlaintextRef.
  - rewrite startsWith_app. split; split; eauto.
  - rewrite startsWith_app. split; split; eauto.
  - match goal with |- context [startsWith ("keytar:" +:+ ?a) _] =>
      destruct (keytar_ref_scheme a) as (_ & -> & _ & _) end.
    split; split; try discriminate. intros [x Hx]. discriminate Hx.
Qed.

(* ===================================================================== *)
(** ** The file system: directories, moves and removals *)
(* ===================================================================== *)

(** [mkdir -p] only adds. *)
Lemma mkdirp_mono (rk : list string) (m m' : gmap (list string) FS.node)
    (k : list string) (x : FS.node) :
  FS.mkdirp rk m = Ok m' -> m !! k = Some x -> m' !! k = Some x.
Proof.
  revert m'. induction rk as [|s parent IH]; intros m' Hrun Hk.
  - cbn in Hrun. destruct (m !! []) as [[|]|] eqn:H0.
    + discriminate.
    + by injection Hrun as <-.
    + injection Hrun as <-. rewrite lookup_insert_ne; [done |]. intros <-. congruence.
  - cbn [FS.mkdirp] in Hrun.
    destruct (m !! rev (s :: parent)) as [[|]|] eqn:H0.
    + discriminate.
    + by injection Hrun as <-.
    + destruct (FS.mkdirp parent m) as [m1 | |] eqn:Hp; cbn in Hrun; [| discriminate ..].
      injection Hrun as <-.
      rewrite lookup_insert_ne; [by apply IH |].
      intros Heq. subst k. cbn [rev] in H0. congruence.
Qed.

(** What it was asked for is a directory afterwards. *)
Lemma mkdirp_dir (rk : list string) (m m' : gmap (list string) FS.node) :
  FS.mkdirp rk m = Ok m' -> m' !! rev rk = Some FS.Dir.
Proof.
  destruct rk as [|s parent]; cbn [FS.mkdirp]; intros Hrun.
  - destruct (m !! rev []) as [[|]|] eqn:H0.
    + discriminate.
    + by injection Hrun as <-.
    + injection Hrun as <-. apply lookup_insert_eq.
  - destruct (m !! rev (s :: parent)) as [[|]|] eqn:H0.
    + discriminate.
    + by injection Hrun as <-.
    + destruct (FS.mkdirp parent m) as [m1 | |]; cbn in Hrun; [| discriminate ..].
      injection Hrun as <-. apply lookup_insert_eq.
Qed.

Lemma with_nodes_same (f : FS.t) : FS.with_nodes f (FS.nodes f) = f.
Proof. by destruct f. Qed.

Lemma ensureDir_existing (f : FS.t) (p : string) :
  FS.nodes f !! FS.key f p = Some FS.Dir -> FS.ensureDir f p = Ok f.
Proof.
  intros H. unfold FS.ensureDir.
  rewrite mkdirp_existing by (by rewrite rev_involutive).
  cbn. by rewrite with_nodes_same.
Qed.

Lemma ensureDir_mono (f f' : FS.t) (p : string) (k : list string) (x : FS.node) :
  FS.ensureDir f p = Ok f' -> FS.nodes f !! k = Some x -> FS.nodes f' !! k = Some x.
Proof. intros [H _]%ensureDir_inv. by apply mkdirp_mono with (1 := H). Qed.

Lemma ensureDir_dir (f f' : FS.t) (p : string) :
  FS.ensureDir f p = Ok f' -> FS.nodes f' !! FS.key f p = Some FS.Dir.
Proof.
  intros [H _]%ensureDir_inv. apply mkdirp_dir in H. by rewrite rev_involutive in H.
Qed.

Lemma copyFile_inv (f f' : FS.t) (src dst : string) :
  FS.copyFile f src dst = Ok f' ->
  exists d, FS.nodes f !! FS.key f src = Some (FS.File d)
            /\ FS.writeFile f dst d = Ok f'.
Proof.
  unfold FS.copyFile, FS.lookup.
  destruct (FS.nodes f !! FS.key f src) as [[d |] |]; [| discriminate ..].
  intros H. by exists d.
Qed.

Section Rekey.
Variables ks kd : list string.
Variable m : gmap (list string) FS.node.

Local Abbreviation moved := (filter (fun kv : list string * FS.node => FS.below ks kv.1 = true) m).
Local Abbreviation rekey :=
  (fun kv : list string * FS.node => (kd ++ drop (length ks) kv.1, kv.2)).
Local Abbreviation rekeyed :=
  (list_to_map (map rekey (map_to_list moved)) : gmap (list string) FS.node).

Lemma rekeyed_elem (k : list string) (x : FS.node) :
  (k, x) ∈ map rekey (map_to_list moved) ->
  exists t, k = kd ++ t /\ m !! (ks ++ t) = Some x.
Proof.
  intros Hin. apply list_elem_of_In, in_map_iff in Hin as ([k0 x0] & Heq & Hin).
  apply list_elem_of_In, elem_of_map_to_list, map_lookup_filter_Some in Hin as [Hm Hb].
  cbn in Heq, Hb. injection Heq as <- <-.
  unfold FS.below in Hb. apply bool_decide_eq_true in Hb as [t ->].
  exists t. by rewrite drop_app_length.
Qed.

Lemma rekeyed_outside (k : list string) : ~ kd `prefix_of` k -> rekeyed !! k = None.
Proof.
  intros Hk. apply not_elem_of_list_to_map_1. intros Hin.
  apply list_elem_of_fmap in Hin as ([k0 x0] & -> & Hin).
  apply rekeyed_elem in Hin as (t & -> & _). apply Hk. by exists t.
Qed.

Lemma rekeyed_inside (t : list string) : rekeyed !! (kd ++ t) = m !! (ks ++ t).
Proof.
  destruct (m !! (ks ++ t)) as [x |] eqn:Hm.
  - apply elem_of_list_to_map_1'.
    + intros y Hin. apply rekeyed_elem in Hin as (t' & Heq & Hy).
      apply app_inv_head in Heq as <-. congruence.
    + apply list_elem_of_In, in_map_iff. exists (ks ++ t, x). split.
      * cbn. by rewrite drop_app_length.
      * apply list_elem_of_In, elem_of_map_to_list, map_lookup_filter_Some.
        split; [exact Hm |]. cbn. unfold FS.below. apply bool_decide_eq_true. by exists t.
  - apply not_elem_of_list_to_map_1. intros Hin.
    apply list_elem_of_fmap in Hin as ([k0 x0] & Heq & Hin). cbn in Heq. subst k0.
    apply rekeyed_elem in Hin as (t' & Heq & Hy).
    apply app_inv_head in Heq as <-. congruence.
Qed.
End Rekey.

(** [fs.move]: what is at and below the source arrives at and below the
    destination; the source is gone; the rest stays. *)
Lemma move_inv (f f' : FS.t) (src dst : string) :
  FS.move f src dst = Ok f' ->
  FS.cwd f' = FS.cwd f /\ FS.immutable f' = FS.immutable f
  /\ is_Some (FS.nodes f !! FS.key f src)
  /\ (forall t, FS.nodes f' !! (FS.key f dst ++ t) = FS.nodes f !! (FS.key f src ++ t))
  /\ (forall k, FS.key f src `prefix_of` k -> ~ FS.key f dst `prefix_of` k ->
                FS.nodes f' !! k = None)
  /\ (forall k, ~ FS.key f src `prefix_of` k -> ~ FS.key f dst `prefix_of` k ->
                FS.nodes f' !! k = FS.nodes f !! k).
Proof.
  unfold FS.move.
  destruct (FS.nodes f !! FS.key f src) as [x |] eqn:Hsrc; [| discriminate].
  destruct (FS.parent_is_dir _ _); [| discriminate]. cbn [negb].
  intros [= <-]. cbn [FS.cwd FS.immutable FS.nodes FS.with_nodes].
  split; [reflexivity |]. split; [reflexivity |]. split; [eauto |].
  split; [| split].
  - intros t. destruct (FS.nodes f !! (FS.key f src ++ t)) as [y |] eqn:E.
    + apply lookup_union_Some_l. by rewrite rekeyed_inside.
    + apply lookup_union_None. split; [by rewrite rekeyed_inside |].
      apply map_lookup_filter_None. right. intros x' _ [_ Hb]. cbn in Hb.
      unfold FS.below in Hb. apply bool_decide_eq_false in Hb. apply Hb. by exists t.
  - intros k Hs Hd. apply lookup_union_None. split.
    + by apply rekeyed_outside.
    + apply map_lookup_filter_None. right. intros x' _ [Hb _]. cbn in Hb.
      unfold FS.below in Hb. by apply bool_decide_eq_false in Hb.
  - intros k Hs Hd. rewrite lookup_union_r by (by apply rekeyed_outside).
    destruct (FS.nodes f !! k) as [x' |] eqn:Hk.
    + apply map_lookup_filter_Some. split; [exact Hk |]. cbn. unfold FS.below.
      split; by apply bool_decide_eq_false.
    + apply map_lookup_filter_None. by left.
Qed.

(* ===================================================================== *)
(** ** Configuration store: finding, and the ids *)
(* ===================================================================== *)

Lemma targets_inv (h : Heap.t) (config : Heap.loc) (arr : list DatabaseConfig) :
  Heap.targets h config = Some arr ->
  exists o, Heap.objects h !! config = Some o /\ Heap.arrays h !! Heap.databases o = Some arr.
Proof.
  unfold Heap.targets. destruct (Heap.objects h !! config) as [o |]; [| discriminate].
  cbn. intros H. by exists o.
Qed.

(** [upsertDatabase] on a configuration that shows [arr]. *)
Lemma upsertDatabase_targets (w : World) (config : Heap.loc) (entry : DatabaseConfig)
    (arr : list DatabaseConfig) :
  Heap.targets (heap w) config = Some arr ->
  exists w', ConfigStore.upsertDatabase config entry w = (Ok config, w')
             /\ Heap.targets (heap w') config = Some (upserted arr entry)
             /\ Heap.objects (heap w') = Heap.objects (heap w)
             /\ fs w' = fs w.
Proof.
  intros (o & Ho & Ha)%targets_inv.
  rewrite (upsertDatabase_run w config o arr entry Ho Ha).
  eexists. split; [reflexivity |]. split; [| done].
  unfold Heap.targets. cbn. rewrite Ho. cbn. apply lookup_insert_eq.
Qed.

Lemma findIndex_Some (id : string) (arr : list DatabaseConfig) (idx : nat) :
  ConfigStore.findIndex id arr = Some idx ->
  exists d, arr !! idx = Some d /\ db_id d = id
            /\ forall j y, arr !! j = Some y -> (j < idx)%nat -> db_id y <> id.
Proof.
  unfold ConfigStore.findIndex.
  destruct (list_find _ arr) as [[i d] |] eqn:Hfind; [| discriminate].
  cbn. intros [= ->]. apply list_find_Some in Hfind as (Hi & Hd & Hfirst). eauto.
Qed.

Lemma findIndex_None (id : string) (arr : list DatabaseConfig) :
  ConfigStore.findIndex id arr = None -> Forall (fun d => db_id d <> id) arr.
Proof.
  unfold ConfigStore.findIndex.
  destruct (list_find _ arr) as [[i d] |] eqn:Hfind; [discriminate |].
  intros _. by apply list_find_None in Hfind.
Qed.

Lemma find_in_upserted (arr : list DatabaseConfig) (entry : DatabaseConfig) :
  (forall d, d ∈ arr -> db_alias d <> Some (db_id entry)) ->
  exists i,
    list_find (fun d => db_id d = db_id entry \/ db_alias d = Some (db_id entry))
      (upserted arr entry) = Some (i, entry).
Proof.
  intros Halias. unfold upserted.
  destruct (ConfigStore.findIndex (db_id entry) arr) as [idx |] eqn:Hidx.
  - apply findIndex_Some in Hidx as (d & Hd & _ & Hfirst).
    exists idx. apply list_find_Some. split; [| split].
    + apply list_lookup_insert_eq. by eapply lookup_lt_Some.
    + by left.
    + intros j y Hj Hlt. rewrite list_lookup_insert_ne in Hj by lia.
      intros [Hy | Hy]; [by eapply Hfirst |].
      eapply Halias; [| exact Hy]. by eapply list_elem_of_lookup_2.
  - apply findIndex_None in Hidx.
    exists (length arr). apply list_find_Some. split; [| split].
    + rewrite lookup_app_r, Nat.sub_diag by lia. reflexivity.
    + by left.
    + intros j y Hj Hlt. rewrite lookup_app_l in Hj by lia.
      assert (Hin : y ∈ arr) by (by eapply list_elem_of_lookup_2).
      intros [Hy | Hy]; [| by eapply Halias].
      rewrite Forall_forall in Hidx. by eapply Hidx.
Qed.

(** X8. What has been upserted is found by its id: after
    [upsertDatabase(config, entry)], [findDatabase(config, entry.id)]
    returns [entry], provided no target of the configuration uses that id
    as its alias (the search matches aliases as well, first match
    wins). *)
Theorem upsertDatabase_then_findDatabase
    (w : World) (config : Heap.loc) (entry : DatabaseConfig) (arr : list DatabaseConfig) :
  Heap.targets (heap w) config = Some arr ->
  (forall d, d ∈ arr -> db_alias d <> Some (db_id entry)) ->
  exists w', ConfigStore.upsertDatabase config entry w = (Ok config, w')
             /\ ConfigStore.findDatabase config (db_id entry) w' = Some entry.
Proof.
  intros Ht Halias.
  destruct (upsertDatabase_targets w config entry arr Ht) as (w' & Hrun & Ht' & _).
  exists w'. split; [exact Hrun |].
  unfold ConfigStore.findDatabase. rewrite Ht'. cbn.
  destruct (find_in_upserted arr entry Halias) as [i ->]. reflexivity.
Qed.

Lemma upsertDatabase_then_findDatabase_witness :
  Heap.targets (heap one_target_world) 1%nat = Some [sample_db]
  /\ exists w', ConfigStore.upsertDatabase 1%nat sample_db_edited one_target_world
                = (Ok 1%nat, w')
                /\ ConfigStore.findDatabase 1%nat "database-test-entry" w' = Some sample_db_edited.
Proof.
  assert (H : Heap.targets (heap one_target_world) 1%nat = Some [sample_db]) by reflexivity.
  split; [exact H |].
  apply (upsertDatabase_then_findDatabase one_target_world 1%nat sample_db_edited [sample_db] H).
  intros d Hd. apply list_elem_of_singleton in Hd as ->. discriminate.
Defined.

Lemma ids_upserted (arr : list DatabaseConfig) (entry : DatabaseConfig) :
  ids_of (upserted arr entry)
  = (if decide (db_id entry ∈ ids_of arr) then ids_of arr else ids_of arr ++ [db_id entry]).
Proof.
  unfold upserted, ids_of.
  change (map db_id) with (fmap (M := list) db_id).
  destruct (ConfigStore.findIndex (db_id entry) arr) as [idx |] eqn:Hidx.
  - apply findIndex_Some in Hidx as (d & Hd & Hid & _).
    rewrite decide_True by (apply list_elem_of_fmap; exists d; split;
                            [done | by eapply list_elem_of_lookup_2]).
    rewrite list_fmap_insert. apply list_insert_id.
    by rewrite list_lookup_fmap, Hd, <- Hid.
  - apply findIndex_None in Hidx.
    rewrite decide_False.
    + by rewrite fmap_app.
    + intros (d & Hid & Hin)%list_elem_of_fmap.
      rewrite Forall_forall in Hidx. by eapply Hidx.
Qed.

Lemma count_removed (id : string) (arr : list DatabaseConfig) :
  NoDup (ids_of arr) ->
  (length (filter (fun d => db_id d <> id) arr)
   + (if decide (id ∈ ids_of arr) then 1 else 0))%nat = length arr.
Proof.
  unfold ids_of. change (map db_id) with (fmap (M := list) db_id).
  induction arr as [|a r IH]; intros Hnd.
  - rewrite decide_False by apply not_elem_of_nil. reflexivity.
  - rewrite fmap_cons in Hnd. apply NoDup_cons in Hnd as [Ha Hr].
    specialize (IH Hr). rewrite filter_cons, fmap_cons.
    destruct (decide (db_id a <> id)) as [Hne | Heq].
    + cbn [length]. destruct (decide (id ∈ db_id a :: (db_id <$> r))) as [Hin | Hout].
      * apply elem_of_cons in Hin as [-> | Hin]; [done |].
        rewrite decide_True in IH by done. lia.
      * rewrite decide_False in IH by (intros ?; apply Hout; by right). lia.
    + apply dec_stable in Heq. subst id.
      rewrite decide_True by (by left).
      rewrite decide_False in IH by done. cbn [length]. lia.
Qed.

(** X9. The ids of a configuration stay pairwise distinct: when they are
    before [upsertDatabase] or [deleteDatabase], they are after.  An
    upsert adds one target exactly when the id is new, and a delete
    removes one target exactly when the id is there. *)
Theorem ids_stay_unique
    (w : World) (config : Heap.loc) (entry : DatabaseConfig) (id : string)
    (arr : list DatabaseConfig) :
  Heap.targets (heap w) config = Some arr ->
  NoDup (ids_of arr) ->
  (exists w' arr', ConfigStore.upsertDatabase config entry w = (Ok config, w')
        /\ Heap.targets (heap w') config = Some arr'
        /\ NoDup (ids_of arr')
        /\ length arr' = (if decide (db_id entry ∈ ids_of arr) then length arr
                          else S (length arr)))
  /\ (exists w' arr', ConfigStore.deleteDatabase config id w = (Ok config, w')
        /\ Heap.targets (heap w') config = Some arr'
        /\ NoDup (ids_of arr')
        /\ (id ∉ ids_of arr')
        /\ length arr' = (if decide (id ∈ ids_of arr) then (length arr - 1)%nat
                          else length arr)).
Proof.
  intros Ht Hnd. split.
  - destruct (upsertDatabase_targets w config entry arr Ht) as (w' & Hrun & Ht' & _).
    exists w', (upserted arr entry). split; [exact Hrun |]. split; [exact Ht' |].
    pose proof (ids_upserted arr entry) as Hids.
    pose proof (f_equal length Hids) as Hlen.
    unfold ids_of in Hlen at 1. rewrite length_map in Hlen.
    destruct (decide (db_id entry ∈ ids_of arr)) as [Hin | Hout].
    + rewrite Hids. unfold ids_of in Hlen. rewrite length_map in Hlen. done.
    + rewrite Hids. split.
      * apply NoDup_app. split; [exact Hnd |]. split; [| apply NoDup_singleton].
        intros x Hx ->%list_elem_of_singleton. contradiction.
      * rewrite Hlen, length_app. unfold ids_of. rewrite length_map. cbn. lia.
  - destruct (targets_inv _ _ _ Ht) as (o & Ho & Ha).
    destruct (deleteDatabase_run w config o arr id Ho Ha) as (w' & Hrun & Ht').
    exists w', (filter (fun d => db_id d <> id) arr).
    split; [exact Hrun |]. split; [exact Ht' |].
    split; [| split].
    + unfold ids_of in *. change (map db_id) with (fmap (M := list) db_id) in *.
      eapply sublist_NoDup; [exact Hnd |]. apply fmap_sublist, sublist_filter.
    + unfold ids_of. change (map db_id) with (fmap (M := list) db_id).
      intros (d & Hid & Hin)%list_elem_of_fmap.
      apply list_elem_of_filter in Hin as [Hne _]. congruence.
    + pose proof (count_removed id arr Hnd) as Hc.
      destruct (decide (id ∈ ids_of arr)); lia.
Qed.

Lemma ids_stay_unique_witness :
  Heap.targets (heap one_target_world) 1%nat = Some [sample_db]
  /\ NoDup (ids_of [sample_db])
  /\ exists w' arr', ConfigStore.upsertDatabase 1%nat sample_db_edited one_target_world
                     = (Ok 1%nat, w')
       /\ Heap.targets (heap w') 1%nat = Some arr'
       /\ length arr' = 1%nat.
Proof.
  assert (H : Heap.targets (heap one_target_world) 1%nat = Some [sample_db]) by reflexivity.
  assert (Hnd : NoDup (ids_of [sample_db])) by (apply NoDup_singleton).
  split; [exact H |]. split; [exact Hnd |].
  destruct (proj1 (ids_stay_unique one_target_world 1%nat sample_db_edited "x" [sample_db] H Hnd))
    as (w' & arr' & Hrun & Ht & _ & Hlen).
  exists w', arr'. split; [exact Hrun |]. split; [exact Ht |].
  rewrite Hlen. reflexivity.
Defined.

(* ===================================================================== *)
(** ** Configuration store: the default configuration is one object *)
(* ===================================================================== *)

Lemma ensureConfigDir_inv (pr : Process) (cp : option string) (w wa : World) :
  ConfigStore.ensureConfigDir pr cp w = (Ok tt, wa) ->
  heap wa = heap w /\ log wa = log w
  /\ exists target, FS.ensureDir (fs w) target = Ok (fs wa).
Proof.
  unfold ConfigStore.ensureConfigDir, fs_do.
  match goal with |- context [FS.ensureDir (fs w) ?t] =>
    destruct (FS.ensureDir (fs w) t) as [f' | |] eqn:Hd; intros [= <-]; eauto end.
Qed.

Lemma pathExists_ensureDir (f f' : FS.t) (p q : string) :
  FS.ensureDir f p = Ok f' -> FS.pathExists f q = true -> FS.pathExists f' q = true.
Proof.
  intros Hd. unfold FS.pathExists, FS.lookup, FS.key.
  destruct (ensureDir_inv _ _ _ Hd) as [_ ->].
  destruct (FS.nodes f !! Path.canon (FS.cwd f) q) as [x |] eqn:Hq; [| discriminate].
  by rewrite (ensureDir_mono _ _ _ _ _ Hd Hq).
Qed.

Section LoadInv.
Import ConfigStore Heap.
Variable JSON_parse : string -> result Parsed.

Lemma loadConfig_inv pr customPath (w w1 : World) (l : loc) :
  loadConfig JSON_parse pr customPath w = (Ok l, w1) ->
  exists wa,
    ensureConfigDir pr (Some (Paths.getConfigPath pr customPath)) w = (Ok tt, wa)
    /\ fs w1 = fs wa
    /\ (FS.pathExists (fs wa) (Paths.getConfigPath pr customPath) = false ->
        spread_DEFAULT_CONFIG wa = (Ok l, w1)).
Proof.
  unfold loadConfig. intros Hrun.
  apply bind_inv in Hrun as [(u & wa & Hdir & Hrun) | [(e & _ & He) | [_ He]]];
    [| discriminate ..].
  destruct u. exists wa. split; [exact Hdir |].
  unfold mbind at 1, prog_bind at 1, fs_get at 1 in Hrun.
  destruct (FS.pathExists (fs wa) _) eqn:Hex; cbn [negb] in Hrun.
  - split; [| discriminate].
    apply bind_inv in Hrun as [(content & wb & Hread & Hrun) | [(e & _ & He) | [_ He]]];
      [| discriminate ..].
    unfold fs_try in Hread. injection Hread as _ <-.
    apply bind_inv in Hrun as [(parsed & wc & Hparse & Hrun) | [(e & _ & He) | [_ He]]];
      [| discriminate ..].
    unfold lift in Hparse. injection Hparse as _ <-.
    destruct (materialise_stamp parsed wa) as (l' & w' & Hrun' & Hfs & _).
    rewrite Hrun in Hrun'. by injection Hrun' as _ ->.
  - split; [| done].
    unfold spread_DEFAULT_CONFIG in Hrun.
    destruct (objects (heap wa) !! DEFAULT_CONFIG); cbn in Hrun; by injection Hrun as _ <-.
Qed.

Lemma spread_DEFAULT_CONFIG_inv (wa w1 : World) (l : loc) :
  objects (heap wa) !! DEFAULT_CONFIG = Some DEFAULT_CONFIG_object ->
  spread_DEFAULT_CONFIG wa = (Ok l, w1) ->
  objects (heap wa) !! l = None
  /\ objects (heap w1) = <[ l := DEFAULT_CONFIG_object ]> (objects (heap wa))
  /\ arrays (heap w1) = arrays (heap wa).
Proof.
  intros Hdef. unfold spread_DEFAULT_CONFIG, new_object. rewrite Hdef.
  intros [= <- <-]. cbn. split; [| done].
  apply not_elem_of_dom, is_fresh.
Qed.
End LoadInv.

Lemma entry_in_upserted (arr : list DatabaseConfig) (entry : DatabaseConfig) :
  entry ∈ upserted arr entry.
Proof.
  unfold upserted. destruct (ConfigStore.findIndex _ arr) as [idx |] eqn:Hidx.
  - apply findIndex_Some in Hidx as (d & Hd & _).
    eapply list_elem_of_lookup_2, list_lookup_insert_eq. by eapply lookup_lt_Some.
  - apply elem_of_app. right. by left.
Qed.

(** X10. The configuration returned for a missing file is a copy of one
    module-level object and shares its target array: a target upserted
    into one such configuration is a target of every configuration that is
    loaded from a missing file afterwards, although the two are distinct
    objects. *)
Theorem default_targets_are_shared
    (JSON_parse : string -> result ConfigStore.Parsed) (pr : Process)
    (path1 path2 : option string) (entry : DatabaseConfig)
    (w w' : World) (l1 l2 : Heap.loc) :
  Heap.objects (heap w) !! ConfigStore.DEFAULT_CONFIG = Some ConfigStore.DEFAULT_CONFIG_object ->
  load_upsert_load JSON_parse pr path1 path2 entry w = (Ok (l1, l2), w') ->
  FS.pathExists (fs w') (Paths.getConfigPath pr path1) = false ->
  FS.pathExists (fs w') (Paths.getConfigPath pr path2) = false ->
  l1 <> l2
  /\ exists arr, Heap.targets (heap w') l2 = Some arr
                 /\ Heap.targets (heap w') l1 = Some arr
                 /\ entry ∈ arr.
Proof.
  intros Hdef Hrun Hno1 Hno2. unfold load_upsert_load in Hrun.
  apply bind_inv in Hrun as [(l1' & w1 & Hload1 & Hrun) | [(e & _ & He) | [_ He]]];
    [| discriminate ..].
  apply bind_inv in Hrun as [(c & w2 & Hup & Hrun) | [(e & _ & He) | [_ He]]];
    [| discriminate ..].
  apply bind_inv in Hrun as [(l2' & w3 & Hload2 & Hrun) | [(e & _ & He) | [_ He]]];
    [| discriminate ..].
  injection Hrun as -> -> ->.
  destruct (loadConfig_inv _ _ _ _ _ _ Hload1) as (wa1 & Hdir1 & Hfs1 & Hsp1).
  destruct (loadConfig_inv _ _ _ _ _ _ Hload2) as (wa2 & Hdir2 & Hfs2 & Hsp2).
  destruct (ensureConfigDir_inv _ _ _ _ Hdir1) as (Hh1 & _ & t1 & Hd1).
  destruct (ensureConfigDir_inv _ _ _ _ Hdir2) as (Hh2 & _ & t2 & Hd2).
  (* the upsert leaves the files alone *)
  assert (Hup' : exists o arr0,
             Heap.objects (heap w1) !! l1 = Some o
             /\ Heap.arrays (heap w1) !! Heap.databases o = Some arr0
             /\ w2 = set_heap w1 (Heap.set_array (heap w1) (Heap.databases o)
                                    (upserted arr0 entry))).
  { unfold ConfigStore.upsertDatabase in Hup.
    destruct (Heap.objects (heap w1) !! l1) as [o |]; [| discriminate].
    destruct (Heap.arrays (heap w1) !! Heap.databases o) as [arr0 |] eqn:Ha; [| discriminate].
    injection Hup as _ <-. exists o, arr0.
    split; [reflexivity |]. split; [exact Ha | reflexivity]. }
  destruct Hup' as (o & arr0 & Ho & Harr0 & ->).
  cbn [fs set_heap] in Hd2.
  (* both loads took the branch of the missing file *)
  assert (Hmiss2 : FS.pathExists (fs wa2) (Paths.getConfigPath pr path2) = false)
    by (by rewrite <- Hfs2).
  assert (Hmiss1 : FS.pathExists (fs wa1) (Paths.getConfigPath pr path1) = false).
  { destruct (FS.pathExists (fs wa1) _) eqn:Hex; [| reflexivity].
    rewrite Hfs1 in Hd2. pose proof (pathExists_ensureDir _ _ _ _ Hd2 Hex) as Hthere.
    rewrite Hfs2 in Hno1. congruence. }
  specialize (Hsp1 Hmiss1). specialize (Hsp2 Hmiss2).
  rewrite <- Hh1 in Hdef.
  destruct (spread_DEFAULT_CONFIG_inv _ _ _ Hdef Hsp1) as (Hfresh1 & Hobj1 & Harr1).
  rewrite Hobj1, lookup_insert_eq in Ho. injection Ho as <-.
  assert (Hdef2 : Heap.objects (heap wa2) !! ConfigStore.DEFAULT_CONFIG
                  = Some ConfigStore.DEFAULT_CONFIG_object).
  { rewrite Hh2. cbn. rewrite Hobj1, lookup_insert_ne; [exact Hdef |]. congruence. }
  destruct (spread_DEFAULT_CONFIG_inv _ _ _ Hdef2 Hsp2) as (Hfresh2 & Hobj2 & Harr2).
  assert (Hne : l1 <> l2).
  { intros ->. rewrite Hh2 in Hfresh2. cbn in Hfresh2.
    by rewrite Hobj1, lookup_insert_eq in Hfresh2. }
  split; [exact Hne |].
  exists (upserted arr0 entry).
  unfold Heap.targets. rewrite Hobj2, Harr2, Hh2. cbn.
  rewrite lookup_insert_eq, lookup_insert_ne by congruence.
  rewrite Hobj1, lookup_insert_eq. cbn.
  rewrite lookup_insert_eq. split; [done |]. split; [done |].
  apply entry_in_upserted.
Qed.

Lemma default_targets_are_shared_witness :
  let run := load_upsert_load sample_JSON_parse linux_box (Some "/home/u/a.json")
               (Some "/home/u/b.json") sample_db fresh_world in
  run.1 = Ok (1%nat, 2%nat)
  /\ Heap.targets (heap run.2) 2%nat = Some [sample_db].
Proof.
  intros run.
  assert (Hok : run.1 = Ok (1%nat, 2%nat)) by (vm_compute; reflexivity).
  assert (Hrun : run = (Ok (1%nat, 2%nat), run.2)) by (rewrite <- Hok; by destruct run).
  split; [exact Hok |].
  destruct (default_targets_are_shared sample_JSON_parse linux_box (Some "/home/u/a.json")
              (Some "/home/u/b.json") sample_db fresh_world run.2 1%nat 2%nat)
    as (_ & arr & Ht & _ & _).
  - reflexivity.
  - exact Hrun.
  - vm_compute. reflexivity.
  - vm_compute. reflexivity.
  - rewrite Ht. f_equal.
    assert (Hv : Heap.targets (heap run.2) 2%nat = Some [sample_db]) by (vm_compute; reflexivity).
    rewrite Ht in Hv. by injection Hv.
Defined.

(* ===================================================================== *)
(** ** Configuration store: save, then load *)
(* ===================================================================== *)

Lemma plain_tmp (s : string) : plain s = true -> plain (s +:+ ".tmp") = true.
Proof.
  intros Hs. unfold plain. rewrite no_sep_app, (plain_no_sep _ Hs). cbn [andb].
  rewrite !bool_decide_eq_false_2; [reflexivity | ..];
    intros E; apply (f_equal String.length) in E; rewrite str_length_app in E;
    cbn in E; lia.
Qed.

Lemma tmp_differs (s : string) : s <> s +:+ ".tmp".
Proof.
  intros E. apply (f_equal String.length) in E. rewrite str_length_app in E. cbn in E. lia.
Qed.

Lemma snoc_prefix_snoc {A} (l : list A) (x y : A) (k : list A) :
  (l ++ [x]) `prefix_of` (l ++ y :: k) -> x = y.
Proof.
  intros [t Ht]. rewrite <- app_assoc in Ht. apply app_inv_head in Ht. by injection Ht.
Qed.

(** The paths of a save to a normalised path [l/s]. *)
Lemma save_paths (cwd : string) (a : bool) (l : list string) (s : string) :
  l <> [] -> normal (negb a) l -> plain s = true ->
  truthy_str (render a (l ++ [s])) = true
  /\ Path.dirname (render a (l ++ [s])) = render a l
  /\ Path.canon cwd (render a (l ++ [s])) = Path.canon cwd (render a l) ++ [s]
  /\ Path.canon cwd (render a (l ++ [s]) +:+ ".tmp")
     = Path.canon cwd (render a l) ++ [s +:+ ".tmp"].
Proof.
  intros Hne Hl Hs. split; [| split; [| split]].
  - assert (Hx : render a (l ++ [s]) <> "").
    { unfold render. intros E. apply str_app_eq_nil in E as [_ E].
      by apply (join_snoc_nonempty "/" l s (plain_nonempty _ Hs)). }
    by destruct (render a (l ++ [s])).
  - by apply dirname_render.
  - apply canon_render_app; [done | by repeat constructor].
  - replace (render a (l ++ [s]) +:+ ".tmp") with (render a (l ++ [s +:+ ".tmp"])).
    + apply canon_render_app; [done |]. repeat constructor. by apply plain_tmp.
    + unfold render. by rewrite str_app_assoc, join_snoc_app.
Qed.

Lemma set_fs_same (w : World) : set_fs w (fs w) = w.
Proof. by destruct w. Qed.

Lemma parent_snoc (K : list string) (s : string) : FS.parent (K ++ [s]) = K.
Proof. unfold FS.parent. apply removelast_last. Qed.

Lemma parent_is_dir_snoc (m : gmap (list string) FS.node) (K : list string) (s : string) :
  m !! K = Some FS.Dir -> FS.parent_is_dir m (K ++ [s]) = true.
Proof.
  intros HK. unfold FS.parent_is_dir. rewrite parent_snoc, HK. by destruct K.
Qed.

(** Writing the text to [K/s.tmp] and moving it to [K/s]. *)
Lemma write_and_move (f2 f3 f4 : FS.t) (tmp file text : string) (K : list string) (s : string) :
  FS.key f2 file = K ++ [s] ->
  FS.key f2 tmp = K ++ [s +:+ ".tmp"] ->
  FS.writeFile f2 tmp text = Ok f3 ->
  FS.move f3 tmp file = Ok f4 ->
  FS.cwd f4 = FS.cwd f2
  /\ FS.nodes f4 !! (K ++ [s]) = Some (FS.File text)
  /\ FS.nodes f4 !! (K ++ [s +:+ ".tmp"]) = None
  /\ (forall k, ~ (K ++ [s]) `prefix_of` k -> ~ (K ++ [s +:+ ".tmp"]) `prefix_of` k ->
                FS.nodes f4 !! k = FS.nodes f2 !! k).
Proof.
  intros Hkd Hks Hw Hm.
  destruct (writeFile_inv _ _ _ _ Hw) as [Hn3 Hc3].
  destruct (move_inv _ _ _ _ Hm) as (Hc4 & _ & _ & Hdst & Hsrc & Hframe).
  assert (Hkd3 : FS.key f3 file = K ++ [s]) by (unfold FS.key in *; by rewrite Hc3).
  assert (Hks3 : FS.key f3 tmp = K ++ [s +:+ ".tmp"]) by (unfold FS.key in *; by rewrite Hc3).
  rewrite Hkd3, Hks3 in *. rewrite Hks in Hn3.
  split; [congruence |]. split; [| split].
  - specialize (Hdst []). rewrite !app_nil_r in Hdst.
    rewrite Hdst, Hn3. apply lookup_insert_eq.
  - apply Hsrc; [done |]. intros Hp%snoc_prefix_snoc. by apply (tmp_differs s).
  - intros k Hd Hs. rewrite Hframe by done. rewrite Hn3.
    apply lookup_insert_ne. intros <-. by apply Hs.
Qed.

Lemma write_and_move_ok (f2 : FS.t) (tmp file text : string) (K : list string) (s : string) :
  FS.key f2 file = K ++ [s] ->
  FS.key f2 tmp = K ++ [s +:+ ".tmp"] ->
  FS.nodes f2 !! K = Some FS.Dir ->
  FS.nodes f2 !! (K ++ [s +:+ ".tmp"]) = None ->
  exists f3 f4, FS.writeFile f2 tmp text = Ok f3 /\ FS.move f3 tmp file = Ok f4.
Proof.
  intros Hkd Hks HK Hfree.
  assert (Hw : FS.writeFile f2 tmp text
               = Ok (FS.with_nodes f2 (<[ K ++ [s +:+ ".tmp"] := FS.File text ]> (FS.nodes f2)))).
  { unfold FS.writeFile. rewrite Hks, Hfree, parent_is_dir_snoc by done. reflexivity. }
  eexists _, _. split; [exact Hw |].
  unfold FS.move, FS.key. cbn [FS.cwd FS.nodes FS.with_nodes].
  unfold FS.key in Hkd, Hks. rewrite Hkd, Hks, lookup_insert_eq.
  rewrite parent_is_dir_snoc; [reflexivity |].
  rewrite lookup_insert_ne; [exact HK |]. intros E.
  apply (f_equal length) in E. rewrite length_app in E. cbn in E. lia.
Qed.

Section Save.
Import ConfigStore Heap.
Variable JSON_stringify : Parsed -> string.

Lemma backupExisting_inv pr now filePath (w w' : World) :
  backupExisting pr now filePath w = (Ok tt, w') ->
  exists fb f2,
    FS.ensureDir (fs w) (Paths.getBackupDir pr) = Ok fb
    /\ FS.copyFile fb filePath (Path.join [Paths.getBackupDir pr; backup_name now]) = Ok f2
    /\ w' = set_fs w f2.
Proof.
  unfold backupExisting. intros Hrun.
  apply bind_inv in Hrun as [(u & wa & Hdir & Hrun) | [(e & _ & He) | [_ He]]];
    [| discriminate ..].
  apply fs_do_inv in Hdir as [(fb & Hfb & _ & ->) | [_ Hne]]; [| by destruct (Hne u)].
  apply fs_do_inv in Hrun as [(f2 & Hf2 & _ & ->) | [_ Hne]]; [| by destruct (Hne tt)].
  exists fb, f2. cbn in Hf2. split; [exact Hfb |]. split; [exact Hf2 |]. by destruct w.
Qed.

(** What a successful [saveConfig] went through. *)
Lemma saveConfig_inv pr now config customPath (w w' : World) :
  saveConfig JSON_stringify pr now config customPath w = (Ok tt, w') ->
  exists o arr f1 f2 f3,
    objects (heap w) !! config = Some o
    /\ arrays (heap w) !! databases o = Some arr
    /\ ensureConfigDir pr (Some (Paths.getConfigPath pr customPath)) w = (Ok tt, set_fs w f1)
    /\ (if FS.pathExists f1 (Paths.getConfigPath pr customPath)
        then exists fb,
               FS.ensureDir f1 (Paths.getBackupDir pr) = Ok fb
               /\ FS.copyFile fb (Paths.getConfigPath pr customPath)
                    (Path.join [Paths.getBackupDir pr; backup_name now]) = Ok f2
        else f2 = f1)
    /\ FS.writeFile f2 (Paths.getConfigPath pr customPath +:+ ".tmp")
         (JSON_stringify {| p_version := Some SCHEMA_VERSION; p_databases := arr;
                            p_defaults := defaults o |}) = Ok f3
    /\ FS.move f3 (Paths.getConfigPath pr customPath +:+ ".tmp")
         (Paths.getConfigPath pr customPath) = Ok (fs w')
    /\ heap w' = set_object (heap w) config (stamped o)
    /\ log w' = log w.
Proof.
  unfold saveConfig. intros Hrun.
  apply bind_inv in Hrun as [(u & wa & Hdir & Hrun) | [(e & _ & He) | [_ He]]];
    [| discriminate ..].
  destruct u.
  assert (Hwa : exists f1, wa = set_fs w f1) .
  { unfold ensureConfigDir in Hdir.
    apply fs_do_inv in Hdir as [(f1 & _ & _ & ->) | [_ Hne]]; [eauto | by destruct (Hne tt)]. }
  destruct Hwa as [f1 ->].
  apply bind_inv in Hrun as [(u & wb & Hver & Hrun) | [(e & _ & He) | [_ He]]];
    [| discriminate ..].
  unfold set_version in Hver. cbn [heap set_fs] in Hver.
  destruct (objects (heap w) !! config) as [o |] eqn:Ho; [| discriminate].
  injection Hver as _ <-.
  unfold mbind at 1, prog_bind at 1, fs_get at 1 in Hrun. cbn [fs set_fs set_heap] in Hrun.
  apply bind_inv in Hrun as [(u' & wc & Hbak & Hrun) | [(e & _ & He) | [_ He]]];
    [| discriminate ..].
  apply bind_inv in Hrun as [(parsed & wd & Hsnap & Hrun) | [(e & _ & He) | [_ He]]];
    [| discriminate ..].
  apply bind_inv in Hrun as [(u'' & we & Hwrite & Hmove) | [(e & _ & He) | [_ He]]];
    [| discriminate ..].
  apply fs_do_inv in Hwrite as [(f3 & Hf3 & _ & ->) | [_ Hne]]; [| by destruct (Hne u'')].
  apply fs_do_inv in Hmove as [(f4 & Hf4 & _ & ->) | [_ Hne]]; [| by destruct (Hne tt)].
  cbn [fs set_fs] in Hf4.
  (* the state after the backup step *)
  assert (Hwc : exists f2, wc = set_heap (set_fs w f2) (set_object (heap w) config (stamped o))
             /\ (if FS.pathExists f1 (Paths.getConfigPath pr customPath)
                 then exists fb,
                        FS.ensureDir f1 (Paths.getBackupDir pr) = Ok fb
                        /\ FS.copyFile fb (Paths.getConfigPath pr customPath)
                             (Path.join [Paths.getBackupDir pr; backup_name now]) = Ok f2
                 else f2 = f1)).
  { destruct u'. destruct (FS.pathExists f1 _).
    - apply backupExisting_inv in Hbak as (fb & f2 & Hfb & Hf2 & ->).
      exists f2. split; [reflexivity | eauto].
    - injection Hbak as <-. exists f1. done. }
  destruct Hwc as (f2 & -> & Hbackup).
  unfold snapshot in Hsnap. cbn [heap set_heap set_object objects arrays] in Hsnap.
  rewrite lookup_insert_eq in Hsnap. cbn [databases stamped] in Hsnap.
  destruct (arrays (heap w) !! databases o) as [arr |] eqn:Harr; [| discriminate].
  injection Hsnap as <- <-.
  exists o, arr, f1, f2, f3.
  split; [reflexivity |]. split; [exact Harr |]. split; [exact Hdir |].
  split; [exact Hbackup |]. split; [exact Hf3 |]. split; [exact Hf4 |]. done.
Qed.

(** The first save: there is no file yet, and no backup is made. *)
Lemma saveConfig_first pr now config customPath (w : World) o arr target f1 f3 f4 :
  objects (heap w) !! config = Some o ->
  arrays (heap w) !! databases o = Some arr ->
  ensureConfigDir pr (Some (Paths.getConfigPath pr customPath)) w = (Ok tt, set_fs w f1) ->
  FS.pathExists f1 (Paths.getConfigPath pr customPath) = false ->
  FS.writeFile f1 (Paths.getConfigPath pr customPath +:+ ".tmp")
    (JSON_stringify {| p_version := Some SCHEMA_VERSION; p_databases := arr;
                       p_defaults := defaults o |}) = Ok f3 ->
  FS.move f3 (Paths.getConfigPath pr customPath +:+ ".tmp")
    (Paths.getConfigPath pr customPath) = Ok f4 ->
  target = {| fs := f4; heap := set_object (heap w) config (stamped o); log := log w |} ->
  saveConfig JSON_stringify pr now config customPath w = (Ok tt, target).
Proof.
  intros Ho Harr Hdir Hno Hw Hm ->. unfold saveConfig.
  unfold mbind at 1, prog_bind at 1. rewrite Hdir.
  unfold mbind at 1, prog_bind at 1, set_version at 1. cbn [heap set_fs]. rewrite Ho.
  unfold mbind at 1, prog_bind at 1, fs_get at 1. cbn [fs set_fs set_heap]. rewrite Hno.
  unfold mbind at 1, prog_bind at 1. cbn [mret prog_ret].
  unfold mbind at 1, prog_bind at 1, snapshot at 1.
  cbn [heap set_heap set_object objects arrays]. rewrite lookup_insert_eq.
  cbn [databases]. rewrite Harr.
  unfold mbind at 1, prog_bind at 1, fs_do at 1.
  cbn [fs set_fs set_heap defaults version]. rewrite Hw.
  unfold fs_do. cbn [fs set_fs]. rewrite Hm. reflexivity.
Qed.
End Save.

Section SaveLoad.
Import ConfigStore Heap.
Variable JSON_parse : string -> result Parsed.
Variable JSON_stringify : Parsed -> string.

(** Loading from a file system that holds the saved text at [l/s]. *)
Lemma loadConfig_saved pr customPath (w' : World) (a : bool) (l : list string) (s : string)
    (saved : Parsed) :
  Paths.getConfigPath pr customPath = render a (l ++ [s]) ->
  l <> [] -> normal (negb a) l -> plain s = true ->
  FS.nodes (fs w') !! Path.canon (FS.cwd (fs w')) (render a l) = Some FS.Dir ->
  FS.nodes (fs w') !! (Path.canon (FS.cwd (fs w')) (render a l) ++ [s])
  = Some (FS.File (JSON_stringify saved)) ->
  JSON_parse (JSON_stringify saved) = Ok saved ->
  FS.readFile (fs w') (Paths.getConfigPath pr customPath) = Ok (JSON_stringify saved)
  /\ exists l' w'',
       loadConfig JSON_parse pr customPath w' = (Ok l', w'')
       /\ version_of w'' l' = Some (loaded_version (p_version saved))
       /\ targets (heap w'') l' = Some (p_databases saved)
       /\ defaults_of w'' l' = p_defaults saved.
Proof.
  intros Hpath Hne Hl Hs HK Hfile Hparse.
  destruct (save_paths (FS.cwd (fs w')) a l s Hne Hl Hs) as (Htruthy & Hdirname & Hkd & _).
  assert (Hread : FS.readFile (fs w') (Paths.getConfigPath pr customPath)
                  = Ok (JSON_stringify saved)).
  { unfold FS.readFile, FS.lookup, FS.key. by rewrite Hpath, Hkd, Hfile. }
  split; [exact Hread |].
  apply (loadConfig_file JSON_parse pr customPath w' w' (JSON_stringify saved) saved);
    [| exact Hread | exact Hparse].
  unfold ensureConfigDir, fs_do. rewrite Hpath, Htruthy, Hdirname.
  rewrite ensureDir_existing by exact HK. by rewrite set_fs_same.
Qed.

Lemma ensureConfigDir_normal pr customPath (w wa : World) (a : bool) (l : list string)
    (s : string) :
  Paths.getConfigPath pr customPath = render a (l ++ [s]) ->
  l <> [] -> normal (negb a) l -> plain s = true ->
  ensureConfigDir pr (Some (Paths.getConfigPath pr customPath)) w = (Ok tt, wa) ->
  FS.ensureDir (fs w) (render a l) = Ok (fs wa) /\ wa = set_fs w (fs wa).
Proof.
  intros Hpath Hne Hl Hs Hdir.
  destruct (save_paths (FS.cwd (fs w)) a l s Hne Hl Hs) as (Htruthy & Hdirname & _).
  unfold ensureConfigDir in Hdir. rewrite Hpath, Htruthy, Hdirname in Hdir.
  apply fs_do_inv in Hdir as [(f1 & Hf1 & _ & ->) | [_ Hn]]; [| by destruct (Hn tt)].
  done.
Qed.
End SaveLoad.

(** X11. The first save round-trips.  On a POSIX platform, for a
    configuration path in normal form where no file and no stale [.tmp]
    file exist and whose directory can be created, [saveConfig] succeeds:
    it stamps the current schema version on the configuration, leaves the
    JSON text at the path and no [.tmp] file behind; and [loadConfig] from
    that path then returns the version, targets and defaults that were
    saved (for a JSON library that reads back what it printed). *)
Theorem saveConfig_then_loadConfig
    (JSON_parse : string -> result ConfigStore.Parsed)
    (JSON_stringify : ConfigStore.Parsed -> string)
    (pr : Process) (now_iso : string) (config : Heap.loc) (customPath : option string)
    (w : World) (a : bool) (l : list string) (s : string) (arr : list DatabaseConfig) :
  let filePath := Paths.getConfigPath pr customPath in
  let saved := {| ConfigStore.p_version := Some ConfigStore.SCHEMA_VERSION;
                  ConfigStore.p_databases := arr;
                  ConfigStore.p_defaults := defaults_of w config |} in
  platform (getPlatformInfo pr) <> "win32" ->
  filePath = render a (l ++ [s]) -> l <> [] -> normal (negb a) l -> plain s = true ->
  is_ok (FS.ensureDir (fs w) (Path.dirname filePath)) = true ->
  FS.pathExists (fs w) filePath = false ->
  FS.pathExists (fs w) (filePath +:+ ".tmp") = false ->
  Heap.targets (heap w) config = Some arr ->
  JSON_parse (JSON_stringify saved) = Ok saved ->
  exists w',
    ConfigStore.saveConfig JSON_stringify pr now_iso config customPath w = (Ok tt, w')
    /\ FS.readFile (fs w') filePath = Ok (JSON_stringify saved)
    /\ FS.pathExists (fs w') (filePath +:+ ".tmp") = false
    /\ version_of w' config = Some ConfigStore.SCHEMA_VERSION
    /\ exists l' w'',
         ConfigStore.loadConfig JSON_parse pr customPath w' = (Ok l', w'')
         /\ version_of w'' l' = Some ConfigStore.SCHEMA_VERSION
         /\ Heap.targets (heap w'') l' = Some arr
         /\ defaults_of w'' l' = defaults_of w config.
Proof.
  intros fp saved. subst fp. intros _ Hpath Hne Hl Hs Hdirok Hnofile Hnotmp Ht Hparse.
  destruct (targets_inv _ _ _ Ht) as (o & Ho & Harr).
  assert (Hdef : defaults_of w config = Heap.defaults o).
  { unfold defaults_of. by rewrite Ho. }
  destruct (save_paths (FS.cwd (fs w)) a l s Hne Hl Hs) as (Htruthy & Hdirname & Hkd & Hks).
  set (K := Path.canon (FS.cwd (fs w)) (render a l)) in *.
  (* the directory *)
  rewrite Hpath, Hdirname in Hdirok.
  apply (value_of_ok _ (fs w)) in Hdirok.
  set (f1 := value_of (FS.ensureDir (fs w) (render a l)) (fs w)) in *.
  destruct (ensureDir_inv _ _ _ Hdirok) as [Hmk Hc1].
  assert (HK1 : FS.nodes f1 !! K = Some FS.Dir) by exact (ensureDir_dir _ _ _ Hdirok).
  assert (Hframe1 : forall x, FS.nodes f1 !! (K ++ [x]) = FS.nodes (fs w) !! (K ++ [x])).
  { intros x. apply (mkdirp_frame _ _ _ _ Hmk). rewrite rev_involutive.
    apply snoc_prefix_absurd. }
  assert (Hdir : ConfigStore.ensureConfigDir pr (Some (Paths.getConfigPath pr customPath)) w = (Ok tt, set_fs w f1)).
  { unfold ConfigStore.ensureConfigDir, fs_do.     by rewrite Hpath, Htruthy, Hdirname, Hdirok. }
  assert (Hkd1 : FS.key f1 (Paths.getConfigPath pr customPath) = K ++ [s]).
  { unfold FS.key. by rewrite Hc1, Hpath. }
  assert (Hks1 : FS.key f1 ((Paths.getConfigPath pr customPath) +:+ ".tmp") = K ++ [s +:+ ".tmp"]).
  { unfold FS.key. by rewrite Hc1, Hpath. }
  assert (Hno1 : FS.pathExists f1 (Paths.getConfigPath pr customPath) = false).
  { apply pathExists_false_lookup. rewrite Hkd1, Hframe1.
    apply pathExists_false_lookup in Hnofile. unfold FS.key in Hnofile.
    by rewrite Hpath, Hkd in Hnofile. }
  assert (Hfree : FS.nodes f1 !! (K ++ [s +:+ ".tmp"]) = None).
  { rewrite Hframe1. apply pathExists_false_lookup in Hnotmp.
    unfold FS.key in Hnotmp. by rewrite Hpath, Hks in Hnotmp. }
  destruct (write_and_move_ok f1 ((Paths.getConfigPath pr customPath) +:+ ".tmp") (Paths.getConfigPath pr customPath) (JSON_stringify saved)
              K s Hkd1 Hks1 HK1 Hfree) as (f3 & f4 & Hw & Hm).
  destruct (write_and_move f1 f3 f4 _ _ _ K s Hkd1 Hks1 Hw Hm) as (Hc4 & Hfile & Hgone & Hframe).
  set (w' := {| fs := f4; heap := Heap.set_object (heap w) config (stamped o); log := log w |}).
  exists w'.
  assert (Hrun : ConfigStore.saveConfig JSON_stringify pr now_iso config customPath w
                 = (Ok tt, w')).
  { eapply saveConfig_first; try done.
    unfold saved in Hw. rewrite Hdef in Hw. exact Hw. }
  assert (HK4 : FS.nodes f4 !! K = Some FS.Dir).
  { rewrite Hframe; [exact HK1 | apply snoc_prefix_absurd ..]. }
  destruct (loadConfig_saved JSON_parse JSON_stringify pr customPath w' a l s saved)
    as (Hread & l' & w'' & Hload & Hv & Htg & Hd); try done.
  { cbn [fs w']. by rewrite Hc4, Hc1. }
  { cbn [fs w']. by rewrite Hc4, Hc1. }
  split; [exact Hrun |]. split; [exact Hread |]. split; [| split].
  - apply pathExists_false_lookup. cbn [fs w']. unfold FS.key. rewrite Hc4, Hc1.
    by rewrite Hpath, Hks.
  - unfold version_of. cbn. by rewrite lookup_insert_eq.
  - exists l', w''. done.
Qed.

(* ===================================================================== *)
(** ** The configuration directory, whatever the environment *)
(* ===================================================================== *)

Lemma join_two_general (x y : string) :
  plain y = true ->
  exists a l, normal (negb a) l /\ Path.join [x; y] = render a (l ++ [y]).
Proof.
  intros Hy.
  exists (Path.isAbsolute x),
         (Path.normalizeString (negb (Path.isAbsolute x)) (Path.segments x)).
  split; [apply normalizeString_is_normal, segments_all_no_sep |].
  apply join_general; [by repeat constructor | done].
Qed.

Lemma config_dir_general (pr : Process) :
  exists a l,
    normal (negb a) l /\ Paths.getConfigDir pr = render a (l ++ [Paths.APP_NAME]).
Proof.
  assert (Hhome : exists a l, normal (negb a) l
            /\ Path.join [Paths.homeDir pr; ".config"; Paths.APP_NAME]
               = render a (l ++ [Paths.APP_NAME])).
  { exists (Path.isAbsolute (Paths.homeDir pr)),
           (Path.normalizeString (negb (Path.isAbsolute (Paths.homeDir pr)))
              (Path.segments (Paths.homeDir pr)) ++ [".config"]).
    split.
    - apply normal_app_plain; [| by repeat constructor].
      apply normalizeString_is_normal, segments_all_no_sep.
    - rewrite <- app_assoc. apply join_general; [by repeat constructor | done]. }
  unfold Paths.getConfigDir.
  case_bool_decide.
  - by apply join_two_general.
  - destruct (env_XDG_CONFIG_HOME pr) as [xdg |]; [| exact Hhome].
    destruct (truthy_str xdg); [| exact Hhome].
    by apply join_two_general.
Qed.

Lemma render_snoc (a : bool) (l : list string) (s : string) :
  l <> [] -> render a (l ++ [s]) = render a l +:+ "/" +:+ s.
Proof.
  intros Hne. unfold render. rewrite join_app by done. cbn [JS.join].
  by rewrite !str_app_assoc.
Qed.

(** X12. On a POSIX platform the default configuration file and the
    backup directory lie directly inside the configuration directory,
    whatever the home directory and [XDG_CONFIG_HOME] are (relative or
    unnormalised values included): their paths are the directory's path
    followed by [/config.json] and [/backups]. *)
Theorem config_file_and_backups_in_config_dir (pr : Process) :
  platform (getPlatformInfo pr) <> "win32" ->
  Paths.getConfigPath pr None = Paths.getConfigDir pr +:+ "/config.json"
  /\ Paths.getBackupDir pr = Paths.getConfigDir pr +:+ "/backups"
  /\ Path.dirname (Paths.getConfigPath pr None) = Paths.getConfigDir pr.
Proof.
  intros _.
  destruct (config_dir_general pr) as (a & l & Hl & Hdir).
  assert (Hl' : normal (negb a) (l ++ [Paths.APP_NAME])).
  { apply normal_app_plain; [done | by repeat constructor]. }
  assert (Hne : l ++ [Paths.APP_NAME] <> []) by (by destruct l).
  unfold Paths.getConfigPath, Paths.getBackupDir. rewrite Hdir.
  rewrite !join_render by (done || by repeat constructor).
  rewrite dirname_render by done.
  rewrite (render_snoc a (l ++ [Paths.APP_NAME]) "config.json"),
          (render_snoc a (l ++ [Paths.APP_NAME]) "backups") by done.
  done.
Qed.

Lemma config_file_and_backups_in_config_dir_witness :
  platform (getPlatformInfo linux_box) <> "win32"
  /\ Paths.getConfigPath linux_box None = "/home/u/.config/database-cli-dumper/config.json"
  /\ Paths.getBackupDir linux_box = "/home/u/.config/database-cli-dumper/backups".
Proof.
  assert (H : platform (getPlatformInfo linux_box) <> "win32") by discriminate.
  split; [exact H |].
  destruct (config_file_and_backups_in_config_dir linux_box H) as (H1 & H2 & _).
  rewrite H1, H2. split; reflexivity.
Defined.

(* ===================================================================== *)
(** ** Configuration store: the backup of a save *)
(* ===================================================================== *)

Lemma plain_backup_name (now : string) : no_sep now = true -> plain (backup_name now) = true.
Proof.
  intros Hnow. unfold backup_name, plain.
  rewrite !no_sep_app, no_sep_timestamp, Hnow. cbn [no_sep andb negb Path.is_sep].
  rewrite !bool_decide_eq_false_2; [reflexivity | ..]; intros E; discriminate E.
Qed.

Lemma snoc_ne_self {A} (l : list A) (x : A) : l <> l ++ [x].
Proof. intros E. apply (f_equal length) in E. rewrite length_app in E. cbn in E. lia. Qed.

(** X13. A save over an existing file keeps the old text.  On a POSIX
    platform, with the default configuration path: when the file holds
    [old] before a [saveConfig] that succeeds, then afterwards the backup
    directory holds a file [config.bak.<timestamp>.json] with the text
    [old], the configuration file holds the new JSON text, no [.tmp] file
    is left, and [loadConfig] returns what was saved. *)
Theorem saveConfig_keeps_backup
    (JSON_parse : string -> result ConfigStore.Parsed)
    (JSON_stringify : ConfigStore.Parsed -> string)
    (pr : Process) (now_iso : string) (config : Heap.loc)
    (w w' : World) (old : string) (arr : list DatabaseConfig) :
  let filePath := Paths.getConfigPath pr None in
  let saved := {| ConfigStore.p_version := Some ConfigStore.SCHEMA_VERSION;
                  ConfigStore.p_databases := arr;
                  ConfigStore.p_defaults := defaults_of w config |} in
  platform (getPlatformInfo pr) <> "win32" ->
  no_sep now_iso = true ->
  FS.readFile (fs w) filePath = Ok old ->
  Heap.targets (heap w) config = Some arr ->
  JSON_parse (JSON_stringify saved) = Ok saved ->
  ConfigStore.saveConfig JSON_stringify pr now_iso config None w = (Ok tt, w') ->
  FS.readFile (fs w') (Path.join [Paths.getBackupDir pr; backup_name now_iso]) = Ok old
  /\ FS.readFile (fs w') filePath = Ok (JSON_stringify saved)
  /\ FS.pathExists (fs w') (filePath +:+ ".tmp") = false
  /\ exists l' w'',
       ConfigStore.loadConfig JSON_parse pr None w' = (Ok l', w'')
       /\ version_of w'' l' = Some ConfigStore.SCHEMA_VERSION
       /\ Heap.targets (heap w'') l' = Some arr
       /\ defaults_of w'' l' = defaults_of w config.
Proof.
  intros fp saved. subst fp. intros _ Hnow Hold Ht Hparse Hrun.
  destruct (targets_inv _ _ _ Ht) as (o & Ho & Harr).
  assert (Hdef : defaults_of w config = Heap.defaults o).
  { unfold defaults_of. by rewrite Ho. }
  (* the paths *)
  destruct (config_dir_general pr) as (a & l0 & Hl0 & Hcd).
  set (l := l0 ++ [Paths.APP_NAME]) in *.
  assert (Hl : normal (negb a) l) by (apply normal_app_plain; [done | by repeat constructor]).
  assert (Hne : l <> []) by (subst l; by destruct l0).
  assert (Hpath : Paths.getConfigPath pr None = render a (l ++ ["config.json"])).
  { unfold Paths.getConfigPath. rewrite Hcd.
    apply join_render; [done | by repeat constructor | done]. }
  assert (Hbd : Paths.getBackupDir pr = render a (l ++ ["backups"])).
  { unfold Paths.getBackupDir. rewrite Hcd.
    apply join_render; [done | by repeat constructor | done]. }
  assert (Hlb : normal (negb a) (l ++ ["backups"])).
  { apply normal_app_plain; [done | by repeat constructor]. }
  pose proof (plain_backup_name now_iso Hnow) as Hname.
  assert (Hbp : Path.join [Paths.getBackupDir pr; backup_name now_iso]
                = render a ((l ++ ["backups"]) ++ [backup_name now_iso])).
  { rewrite Hbd. apply join_render; [done | by repeat constructor | done]. }
  destruct (save_paths (FS.cwd (fs w)) a l "config.json" Hne Hl eq_refl)
    as (_ & _ & Hkd & Hks).
  assert (Hkb : Path.canon (FS.cwd (fs w)) (render a ((l ++ ["backups"]) ++ [backup_name now_iso]))
                = Path.canon (FS.cwd (fs w)) (render a l) ++ ["backups"; backup_name now_iso]).
  { rewrite canon_render_app by (done || by repeat constructor).
    rewrite canon_render_app by (done || by repeat constructor).
    by rewrite <- app_assoc. }
  set (K := Path.canon (FS.cwd (fs w)) (render a l)) in *.
  (* the run *)
  destruct (saveConfig_inv JSON_stringify _ _ _ _ _ _ Hrun)
    as (o' & arr' & f1 & f2 & f3 & Ho' & Harr' & Hdir & Hbak & Hw & Hm & Hheap & _).
  rewrite Ho in Ho'. injection Ho' as <-. rewrite Harr in Harr'. injection Harr' as <-.
  destruct (ensureConfigDir_normal pr None w _ a l "config.json" Hpath Hne Hl eq_refl Hdir)
    as [Hd1 _]. cbn [fs set_fs] in Hd1.
  destruct (ensureDir_inv _ _ _ Hd1) as [_ Hc1].
  assert (HK1 : FS.nodes f1 !! K = Some FS.Dir) by exact (ensureDir_dir _ _ _ Hd1).
  assert (Hold0 : FS.nodes (fs w) !! (K ++ ["config.json"]) = Some (FS.File old)).
  { unfold FS.readFile, FS.lookup, FS.key in Hold. rewrite Hpath, Hkd in Hold.
    by destruct (FS.nodes (fs w) !! (K ++ ["config.json"])) as [[d |] |]; inversion Hold. }
  assert (Hold1 : FS.nodes f1 !! (K ++ ["config.json"]) = Some (FS.File old))
    by exact (ensureDir_mono _ _ _ _ _ Hd1 Hold0).
  assert (Hex1 : FS.pathExists f1 (Paths.getConfigPath pr None) = true).
  { unfold FS.pathExists, FS.lookup, FS.key. by rewrite Hc1, Hpath, Hkd, Hold1. }
  rewrite Hex1 in Hbak. destruct Hbak as (fb & Hfb & Hcopy).
  destruct (ensureDir_inv _ _ _ Hfb) as [_ Hcb].
  apply copyFile_inv in Hcopy as (d & Hsrc & Hwb).
  unfold FS.key in Hsrc. rewrite Hcb, Hc1, Hpath, Hkd in Hsrc.
  rewrite (ensureDir_mono _ _ _ _ _ Hfb Hold1) in Hsrc. injection Hsrc as <-.
  destruct (writeFile_inv _ _ _ _ Hwb) as [Hn2 Hc2].
  unfold FS.key in Hn2. rewrite Hcb, Hc1, Hbp, Hkb in Hn2.
  assert (Hkd2 : FS.key f2 (Paths.getConfigPath pr None) = K ++ ["config.json"]).
  { unfold FS.key. by rewrite Hc2, Hcb, Hc1, Hpath. }
  assert (Hks2 : FS.key f2 (Paths.getConfigPath pr None +:+ ".tmp")
                 = K ++ ["config.json" +:+ ".tmp"]).
  { unfold FS.key. by rewrite Hc2, Hcb, Hc1, Hpath. }
  destruct (write_and_move f2 f3 (fs w') _ _ _ K "config.json" Hkd2 Hks2 Hw Hm)
    as (Hc4 & Hfile & Hgone & Hframe).
  assert (Hcwd : FS.cwd (fs w') = FS.cwd (fs w)) by congruence.
  assert (Houtside : forall x y t, x <> y -> ~ (K ++ [x]) `prefix_of` (K ++ y :: t)).
  { intros x y t Hxy Hp%snoc_prefix_snoc. contradiction. }
  assert (HK4 : FS.nodes (fs w') !! K = Some FS.Dir).
  { rewrite Hframe by apply snoc_prefix_absurd. rewrite Hn2.
    rewrite lookup_insert_ne.
    - exact (ensureDir_mono _ _ _ _ _ Hfb HK1).
    - intros E. apply (f_equal length) in E. rewrite length_app in E. cbn in E. lia. }
  destruct (loadConfig_saved JSON_parse JSON_stringify pr None w' a l "config.json" saved)
    as (Hread & l' & w'' & Hload & Hv & Htg & Hd); try done.
  { by rewrite Hcwd. }
  { rewrite Hcwd. unfold saved. rewrite Hdef. exact Hfile. }
  split; [| split; [exact Hread | split]].
  - unfold FS.readFile, FS.lookup, FS.key. rewrite Hcwd, Hbp, Hkb.
    rewrite Hframe by (apply Houtside; discriminate).
    by rewrite Hn2, lookup_insert_eq.
  - apply pathExists_false_lookup. unfold FS.key. by rewrite Hcwd, Hpath, Hks.
  - exists l', w''. done.
Qed.

Lemma saveConfig_then_loadConfig_witness :
  FS.pathExists (fs one_target_world) "/home/u/cfg/config.json" = false
  /\ Heap.targets (heap one_target_world) 1%nat = Some [sample_db]
  /\ exists w',
       ConfigStore.saveConfig sample_JSON_stringify linux_box "2024-06-01T00:00:00.000Z" 1%nat
         (Some "/home/u/cfg/config.json") one_target_world = (Ok tt, w')
       /\ FS.readFile (fs w') "/home/u/cfg/config.json" = Ok sample_saved_text
       /\ exists l' w'',
            ConfigStore.loadConfig sample_JSON_reader linux_box (Some "/home/u/cfg/config.json") w'
            = (Ok l', w'')
            /\ Heap.targets (heap w'') l' = Some [sample_db].
Proof.
  assert (Hno : FS.pathExists (fs one_target_world) "/home/u/cfg/config.json" = false)
    by (vm_compute; reflexivity).
  assert (Ht : Heap.targets (heap one_target_world) 1%nat = Some [sample_db]) by reflexivity.
  split; [exact Hno |]. split; [exact Ht |].
  destruct (saveConfig_then_loadConfig sample_JSON_reader sample_JSON_stringify linux_box
              "2024-06-01T00:00:00.000Z" 1%nat (Some "/home/u/cfg/config.json")
              one_target_world true ["home"; "u"; "cfg"] "config.json" [sample_db])
    as (w' & Hrun & Hread & _ & _ & l' & w'' & Hload & _ & Htg & _).
  - discriminate.
  - reflexivity.
  - discriminate.
  - apply normal_plain. by repeat constructor.
  - reflexivity.
  - vm_compute. reflexivity.
  - exact Hno.
  - vm_compute. reflexivity.
  - exact Ht.
  - vm_compute. reflexivity.
  - exists w'. split; [exact Hrun |]. split; [exact Hread |].
    exists l', w''. split; [exact Hload | exact Htg].
Defined.

Lemma saveConfig_keeps_backup_witness :
  let run := ConfigStore.saveConfig sample_JSON_stringify linux_box "2024-06-01T00:00:00.000Z"
               1%nat None world_with_default_config in
  FS.readFile (fs world_with_default_config) (Paths.getConfigPath linux_box None)
  = Ok config_v0_text
  /\ run.1 = Ok tt
  /\ FS.readFile (fs run.2)
       "/home/u/.config/database-cli-dumper/backups/config.bak.2024-06-01T00-00-00-000Z.json"
     = Ok config_v0_text
  /\ FS.readFile (fs run.2) "/home/u/.config/database-cli-dumper/config.json"
     = Ok sample_saved_text.
Proof.
  intros run.
  assert (Hold : FS.readFile (fs world_with_default_config) (Paths.getConfigPath linux_box None)
                 = Ok config_v0_text) by (vm_compute; reflexivity).
  assert (Hok : run.1 = Ok tt) by (vm_compute; reflexivity).
  assert (Hrun : run = (Ok tt, run.2)) by (rewrite <- Hok; by destruct run).
  split; [exact Hold |]. split; [exact Hok |].
  destruct (saveConfig_keeps_backup sample_JSON_reader sample_JSON_stringify linux_box
              "2024-06-01T00:00:00.000Z" 1%nat world_with_default_config run.2
              config_v0_text [sample_db])
    as (Hbackup & Hfile & _).
  - discriminate.
  - reflexivity.
  - exact Hold.
  - reflexivity.
  - vm_compute. reflexivity.
  - exact Hrun.
  - split; [exact Hbackup | exact Hfile].
Defined.

(* ===================================================================== *)
(** ** Network fetcher: what a finished download leaves *)
(* ===================================================================== *)

Lemma concat_chunks_cons (c : string) (cs : list string) :
  Downloader.concat_chunks (c :: cs) = c +:+ Downloader.concat_chunks cs.
Proof. reflexivity. Qed.

Lemma progress_length (r : number) (t : option number) (cs : list string) :
  length (Downloader.progress r t cs) = length cs.
Proof. revert r. induction cs as [|c cs IH]; intros r; cbn; [reflexivity | by rewrite IH]. Qed.

Lemma progress_bounds (r : number) (t : option number) (cs : list string) (x : number)
    (t' : option number) :
  (x, t') ∈ Downloader.progress r t cs ->
  r <= x <= r + Z.of_nat (String.length (Downloader.concat_chunks cs)) /\ t' = t.
Proof.
  revert r. induction cs as [|c cs IH]; intros r; cbn [Downloader.progress].
  - intros Hin. by apply elem_of_nil in Hin.
  - rewrite concat_chunks_cons, str_length_app.
    intros Hin. apply elem_of_cons in Hin as [[= -> ->] | Hin].
    + split; [lia | reflexivity].
    + apply IH in Hin as [Hx ->]. split; [lia | reflexivity].
Qed.

Lemma progress_last (r : number) (t : option number) (cs : list string) :
  cs <> [] ->
  last (Downloader.progress r t cs)
  = Some (r + Z.of_nat (String.length (Downloader.concat_chunks cs)), t).
Proof.
  revert r. induction cs as [|c cs IH]; intros r Hne; [done |].
  cbn [Downloader.progress]. rewrite concat_chunks_cons, str_length_app.
  destruct cs as [|c' cs].
  - cbn. do 2 f_equal. lia.
  - rewrite last_cons, IH by done. do 2 f_equal. lia.
Qed.

Lemma receive_ok (destination : string) (res : Downloader.Response) (w w' : World)
    (reports : list (number * option number)) :
  Downloader.receive destination res w = (Ok reports, w') ->
  Downloader.complete res = true
  /\ reports = Downloader.progress 0 (Downloader.contentLength res) (Downloader.chunks res)
  /\ FS.readFile (fs w') destination = Ok (Downloader.concat_chunks (Downloader.chunks res))
  /\ log w' = log w.
Proof.
  unfold Downloader.receive.
  destruct (FS.writeFile (fs w) destination _) as [f | e |] eqn:Hw; [| discriminate ..].
  destruct (Downloader.complete res); [| discriminate].
  intros [= <- <-]. split; [reflexivity |]. split; [reflexivity |]. split; [| reflexivity].
  destruct (writeFile_inv _ _ _ _ Hw) as [Hn Hc].
  unfold FS.readFile, FS.lookup, FS.key. cbn [fs set_fs].
  by rewrite Hc, Hn, lookup_insert_eq.
Qed.

Lemma request_ok (net : Downloader.Network) (destination : string) :
  forall (budget : nat) (u : string) (n : nat) (w w' : World) reports,
    (Downloader.MAX_REDIRECTS - n <= budget)%nat ->
    (n <= Downloader.MAX_REDIRECTS)%nat ->
    Downloader.request net destination u n w = (Ok reports, w') ->
    exists n' u' res,
      (n' <= Downloader.MAX_REDIRECTS)%nat
      /\ Downloader.serve net n' u' = Downloader.Answer res
      /\ Downloader.redirect_target res = None
      /\ Downloader.bad_status res = false
      /\ Downloader.receive destination res w = (Ok reports, w').
Proof.
  induction budget as [|budget IH]; intros u n w w' reports Hb Hn; rewrite request_body;
    destruct (Downloader.serve net n u) as [res | e] eqn:Hserve; try discriminate;
    (destruct (Downloader.redirect_target res) as [loc |] eqn:Hred;
     [| unfold settle; destruct (Downloader.bad_status res) eqn:Hbad; [discriminate |];
        intros Hrec; by exists n, u, res]);
    (destruct (le_lt_dec Downloader.MAX_REDIRECTS n); [discriminate |]).
  - lia.
  - destruct (Downloader.URL_new net loc (Some u)) as [next | |]; try discriminate.
    destruct (Downloader.https_refusal next); [discriminate |].
    apply IH; lia.
Qed.

(** X14. What a download that resolves leaves behind.  The destination
    file holds the body of a reply with a good status that is no redirect
    (one of the first six replies), chunk after chunk; one progress report
    was made per chunk, each with the bytes received so far, which never
    exceed the size of the file, and with the announced total; the last
    report gives the size of the file. *)
Theorem downloadToFile_delivers (net : Downloader.Network) (destination urlStr : string)
    (w w' : World) (reports : list (number * option number)) :
  Downloader.downloadToFile net destination urlStr w = (Ok reports, w') ->
  exists n u res,
    (n <= 5)%nat
    /\ Downloader.serve net n u = Downloader.Answer res
    /\ Downloader.redirect_target res = None
    /\ Downloader.bad_status res = false
    /\ FS.readFile (fs w') destination = Ok (Downloader.concat_chunks (Downloader.chunks res))
    /\ length reports = length (Downloader.chunks res)
    /\ (forall r t, (r, t) ∈ reports ->
          0 <= r <= body_size res /\ t = Downloader.contentLength res)
    /\ (Downloader.chunks res <> [] ->
        last reports = Some (body_size res, Downloader.contentLength res)).
Proof.
  unfold Downloader.downloadToFile. intros Hrun.
  apply bind_inv in Hrun as [(u1 & w1 & _ & Hrun) | [(e & _ & He) | [_ He]]];
    [| discriminate ..].
  apply bind_inv in Hrun as [(u2 & w2 & _ & Hrun) | [(e & _ & He) | [_ He]]];
    [| discriminate ..].
  apply bind_inv in Hrun as [(u & w3 & _ & Hrun) | [(e & _ & He) | [_ He]]];
    [| discriminate ..].
  destruct (Downloader.https_refusal u); [discriminate |].
  apply (request_ok net destination Downloader.MAX_REDIRECTS) in Hrun
    as (n & u' & res & Hn & Hserve & Hred & Hbad & Hrec); [| lia ..].
  apply receive_ok in Hrec as (_ & -> & Hread & _).
  exists n, u', res. unfold body_size.
  split; [exact Hn |]. split; [exact Hserve |]. split; [exact Hred |]. split; [exact Hbad |].
  split; [exact Hread |]. split; [apply progress_length |]. split.
  - intros r t Hin. by apply progress_bounds in Hin.
  - intros Hne. by rewrite progress_last.
Qed.

Lemma downloadToFile_delivers_witness :
  let run := Downloader.downloadToFile mirror_net "/tmp/dl/archive.tarxz"
               "https://cdn.example/archive" fresh_world in
  run.1 = Ok [(4, None); (7, None)]
  /\ FS.readFile (fs run.2) "/tmp/dl/archive.tarxz" = Ok "archive".
Proof.
  intros run.
  assert (Hok : run.1 = Ok [(4, None); (7, None)]) by (vm_compute; reflexivity).
  assert (Hrun : run = (Ok [(4, None); (7, None)], run.2)) by (rewrite <- Hok; by destruct run).
  split; [exact Hok |].
  destruct (downloadToFile_delivers mirror_net "/tmp/dl/archive.tarxz"
              "https://cdn.example/archive" fresh_world run.2 _ Hrun)
    as (n & u & res & _ & _ & _ & _ & Hread & _ & _ & Hlast).
  rewrite Hread. f_equal.
  assert (Hv : FS.readFile (fs run.2) "/tmp/dl/archive.tarxz" = Ok "archive")
    by (vm_compute; reflexivity).
  rewrite Hread in Hv. by injection Hv.
Defined.

(* ===================================================================== *)
(** ** Dump executor: success *)
(* ===================================================================== *)



Section DumpData.
Import DumpRunner.
Variable req : DumpRequest.
Variables startedAt finishedAt : number.

Local Abbreviation handle := (handle req startedAt finishedAt).
Local Abbreviation run := (fold_left (handle)).
Local Abbreviation dest := (req_outputPath req).





End DumpData.



(** The exporter is done before the write stream has opened its file:
    [fs.stat] finds nothing, and [runDump] never settles, although the
    file is written in the end. *)
Example runDump_exit_before_open :
  let run := DumpRunner.runDump sample_request 0 1500 hasty_success_os fresh_world in
  run.1 = Never
  /\ FS.readFile (fs run.2) (req_outputPath sample_request) = Ok "hello".
Proof. split; vm_compute; reflexivity. Qed.

(* ===================================================================== *)
(** ** Binary resolver: the cache *)
(* ===================================================================== *)

Lemma remove_inv (f f' : FS.t) (p : string) :
  FS.remove f p = Ok f' ->
  FS.cwd f' = FS.cwd f
  /\ (forall k, ~ FS.key f p `prefix_of` k -> FS.nodes f' !! k = FS.nodes f !! k)
  /\ (forall k, FS.key f p `prefix_of` k -> FS.nodes f' !! k = None).
Proof.
  unfold FS.remove. case_bool_decide; [discriminate |]. intros [= <-].
  cbn [FS.cwd FS.nodes FS.with_nodes]. split; [reflexivity |]. split.
  - intros k Hk. destruct (FS.nodes f !! k) as [x |] eqn:Hx.
    + apply map_lookup_filter_Some. split; [exact Hx |]. cbn. unfold FS.below.
      by apply bool_decide_eq_false.
    + apply map_lookup_filter_None. by left.
  - intros k Hk. apply map_lookup_filter_None. right. intros x _. cbn.
    unfold FS.below. by rewrite bool_decide_eq_true_2.
Qed.

(** What a successful install went through: the move into the cache,
    then the removal of the temp directory. *)
Lemma extract_and_install_ok (pr : Process) (out : BinaryManager.Outside)
    (d : BinaryDescriptor) (tmpDir archivePath targetPath p : string) (w w' : World) :
  BinaryManager.extract_and_install pr out d tmpDir archivePath targetPath w = (Ok p, w') ->
  p = targetPath
  /\ exists found f0 f1,
       FS.move f0 found targetPath = Ok f1 /\ FS.remove f1 tmpDir = Ok (fs w').
Proof.
  unfold BinaryManager.extract_and_install. intros Hrun.
  apply bind_inv in Hrun as [(u1 & w1 & _ & Hrun) | [(e & _ & He) | [_ He]]];
    [| discriminate ..].
  apply bind_inv in Hrun as [(u2 & w2 & _ & Hrun) | [(e & _ & He) | [_ He]]];
    [| discriminate ..].
  apply bind_inv in Hrun as [(found & w3 & _ & Hrun) | [(e & _ & He) | [_ He]]];
    [| discriminate ..].
  destruct found as [found |]; [| discriminate].
  apply bind_inv in Hrun as [(u4 & w4 & Hmove & Hrun) | [(e & _ & He) | [_ He]]];
    [| discriminate ..].
  apply fs_do_inv in Hmove as [(f1 & Hf1 & _ & ->) | [_ Hn]]; [| by destruct (Hn u4)].
  apply bind_inv in Hrun as [(u5 & w5 & Hchmod & Hrun) | [(e & _ & He) | [_ He]]];
    [| discriminate ..].
  assert (Hfs5 : fs w5 = f1).
  { destruct (negb (isWindows (getPlatformInfo pr))).
    - apply fs_do_inv in Hchmod as [(f' & Hf' & _ & ->) | [_ Hn]]; [| by destruct (Hn u5)].
      cbn [fs set_fs] in *. unfold FS.chmod in Hf'.
      destruct (FS.lookup f1 targetPath); by inversion Hf'.
    - by injection Hchmod as _ <-. }
  apply bind_inv in Hrun as [(u6 & w6 & Hremove & Hrun) | [(e & _ & He) | [_ He]]];
    [| discriminate ..].
  apply fs_do_inv in Hremove as [(f2 & Hf2 & _ & ->) | [_ Hn]]; [| by destruct (Hn u6)].
  injection Hrun as <- <-. split; [reflexivity |].
  exists found, (fs w3), f1. rewrite Hfs5 in Hf2. done.
Qed.

Lemma download_and_extract_ok (pr : Process) (out : BinaryManager.Outside)
    (d : BinaryDescriptor) (cacheDir targetPath p : string) (w w' : World) :
  BinaryManager.download_and_extract pr out d cacheDir targetPath w = (Ok p, w') ->
  p = targetPath
  /\ exists found f0 f1,
       FS.move f0 found targetPath = Ok f1
       /\ FS.remove f1 (tmp_dir pr out) = Ok (fs w').
Proof.
  unfold BinaryManager.download_and_extract. intros Hrun.
  apply bind_inv in Hrun as [(u1 & w1 & _ & Hrun) | [(e & _ & He) | [_ He]]];
    [| discriminate ..].
  apply bind_inv in Hrun as [(tmpDir & w2 & Htmp & Hrun) | [(e & _ & He) | [_ He]]];
    [| discriminate ..].
  assert (Htd : tmpDir = tmp_dir pr out).
  { unfold BinaryManager.mkdtemp in Htmp.
    destruct (FS.mkdtemp (fs w1) _ _) as [[p' f'] | |] eqn:Hmk; [| discriminate ..].
    apply mkdtemp_inv in Hmk as [-> _]. by injection Htmp as <- _. }
  subst tmpDir.
  apply bind_inv in Hrun as [(u3 & w3 & _ & Hrun) | [(e & _ & He) | [_ He]]];
    [| discriminate ..].
  apply bind_inv in Hrun as [(sha & w4 & _ & Hrun) | [(e & _ & He) | [_ He]]];
    [| discriminate ..].
  destruct (BinaryManager.checksum_mismatch d sha); [discriminate |].
  by apply extract_and_install_ok in Hrun.
Qed.

Lemma ensureBinary_hit (pr : Process) (out : BinaryManager.Outside) (w : World) :
  is_Some (VersionMap.resolveBinaryDescriptor (platform (getPlatformInfo pr))
             (arch (getPlatformInfo pr))) ->
  FS.pathExists (fs w) (cache_path pr) = true ->
  BinaryManager.ensureBinary pr out None w = (Ok (cache_path pr), w).
Proof.
  unfold BinaryManager.ensureBinary, cache_path. cbn [BinaryManager.supplied].
  intros [d ->] Hhit. unfold mbind, prog_bind, fs_get. by rewrite Hhit.
Qed.



(** X18. Once installed, the exporter is cached.  On a POSIX platform,
    when [ensureBinary] (without override) has returned a path, that is
    the cache path,
    something exists at that path ([fs.pathExists] holds of it: the code
    looks no further, a directory there passes as well), the temp
    directory of a download is gone, and every later call returns the
    same path without touching the network or the file system --
    provided the cache path does not lie inside that temp directory. *)
Theorem ensureBinary_is_cached (pr : Process) (out out' : BinaryManager.Outside)
    (w w' : World) (p : string) :
  platform (getPlatformInfo pr) <> "win32" ->
  (forall cwd, ~ Path.canon cwd (tmp_dir pr out) `prefix_of` Path.canon cwd (cache_path pr)) ->
  BinaryManager.ensureBinary pr out None w = (Ok p, w') ->
  p = cache_path pr
  /\ FS.pathExists (fs w') (cache_path pr) = true
  /\ (FS.pathExists (fs w) (cache_path pr) = false ->
      FS.pathExists (fs w') (tmp_dir pr out) = false)
  /\ BinaryManager.ensureBinary pr out' None w' = (Ok p, w').
Proof.
  intros _ Hapart Hrun.
  assert (Hmain : p = cache_path pr
                  /\ FS.pathExists (fs w') (cache_path pr) = true
                  /\ (FS.pathExists (fs w) (cache_path pr) = false ->
                      FS.pathExists (fs w') (tmp_dir pr out) = false)
                  /\ is_Some (VersionMap.resolveBinaryDescriptor
                                (platform (getPlatformInfo pr)) (arch (getPlatformInfo pr)))).
  { unfold BinaryManager.ensureBinary in Hrun. cbn [BinaryManager.supplied] in Hrun.
    destruct (VersionMap.resolveBinaryDescriptor _ _) as [d |]; [| discriminate].
    fold (cache_path pr) in Hrun.
    unfold mbind at 1, prog_bind at 1, fs_get at 1 in Hrun.
    destruct (FS.pathExists (fs w) (cache_path pr)) eqn:Hhit.
    - injection Hrun as <- <-. split; [done |]. split; [done |]. split; [done | eauto].
    - apply download_and_extract_ok in Hrun as (-> & found & f0 & f1 & Hmove & Hremove).
      split; [reflexivity |].
      destruct (move_inv _ _ _ _ Hmove) as (Hc1 & _ & [x Hx] & Hdst & _).
      destruct (remove_inv _ _ _ Hremove) as (Hc2 & Hkeep & _).
      split; [| split; [| eauto]].
      + unfold FS.pathExists, FS.lookup, FS.key. rewrite Hc2.
        rewrite Hkeep by (unfold FS.key; apply Hapart).
        specialize (Hdst []). rewrite !app_nil_r in Hdst. unfold FS.key in Hdst, Hx.
        by rewrite Hc1, Hdst, Hx.
      + intros _. by destruct (remove_ok_gone _ _ _ Hremove). }
  destruct Hmain as (-> & Hthere & Hgone & Hd).
  split; [reflexivity |]. split; [exact Hthere |]. split; [exact Hgone |].
  by apply ensureBinary_hit.
Qed.

Lemma ensureBinary_is_cached_witness :
  let run := BinaryManager.ensureBinary linux_box honest_outside None fresh_world in
  platform (getPlatformInfo linux_box) <> "win32"
  /\ FS.pathExists (fs fresh_world) (cache_path linux_box) = false
  /\ run.1 = Ok "/home/u/.database-cli-dumper/bin/linux-x64/mysqldump"
  /\ FS.pathExists (fs run.2) (tmp_dir linux_box honest_outside) = false
  /\ BinaryManager.ensureBinary linux_box tampered_outside None run.2
     = (Ok "/home/u/.database-cli-dumper/bin/linux-x64/mysqldump", run.2).
Proof.
  intros run.
  assert (Hmiss : FS.pathExists (fs fresh_world) (cache_path linux_box) = false)
    by (vm_compute; reflexivity).
  assert (Hok : run.1 = Ok "/home/u/.database-cli-dumper/bin/linux-x64/mysqldump")
    by (vm_compute; reflexivity).
  assert (Hrun : run = (Ok "/home/u/.database-cli-dumper/bin/linux-x64/mysqldump", run.2))
    by (rewrite <- Hok; by destruct run).
  assert (Hapart : forall cwd,
             ~ Path.canon cwd (tmp_dir linux_box honest_outside)
               `prefix_of` Path.canon cwd (cache_path linux_box)).
  { intros cwd. rewrite !canon_absolute by reflexivity.
    intros [t Ht]. vm_compute in Ht. discriminate Ht. }
  assert (Hposix : platform (getPlatformInfo linux_box) <> "win32") by discriminate.
  destruct (ensureBinary_is_cached linux_box honest_outside tampered_outside fresh_world run.2 _
              Hposix Hapart Hrun) as (_ & _ & Hgone & Hagain).
  split; [exact Hposix |]. split; [exact Hmiss |]. split; [exact Hok |]. split; [exact (Hgone Hmiss) | exact Hagain].
Defined.

(* ===================================================================== *)
(** ** Prompts: lists typed by the user *)
(* ===================================================================== *)

Lemma lacks_app (c : ascii) (a b : string) : lacks c (a +:+ b) = lacks c a && lacks c b.
Proof.
  induction a as [|x a IH]; [reflexivity |].
  rewrite str_app_cons. cbn. by rewrite IH, andb_assoc.
Qed.

Lemma lacks_rev (c : ascii) (s : string) : lacks c (String.rev s) = lacks c s.
Proof.
  induction s as [|x s IH]; [reflexivity |].
  rewrite str_rev_cons, lacks_app, IH. cbn. rewrite andb_true_r. apply andb_comm.
Qed.

Lemma split_all_lack (c : ascii) (s : string) : Forall (fun x => lacks c x = true) (JS.split c s).
Proof.
  induction s as [|x s IH]; [by repeat constructor |].
  cbn. destruct (Ascii.eqb x c) eqn:E.
  - by constructor.
  - destruct (JS.split c s) as [|y ys]; [by repeat constructor; cbn; rewrite E |].
    apply Forall_cons in IH as [Hy Hys]. constructor; [| exact Hys].
    cbn. by rewrite E, Hy.
Qed.

Lemma trim_fixed (s : string) : trim (trim s) = trim s.
Proof.
  destruct (trim_spec s) as (a & b & _ & _ & _ & Hs & He). by apply trim_clean.
Qed.

Lemma trim_lacks (c : ascii) (s : string) : lacks c s = true -> lacks c (trim s) = true.
Proof.
  intros H. destruct (trim_spec s) as (a & b & Hs & _).
  rewrite Hs, !lacks_app in H.
  apply andb_prop in H as [_ H]. by apply andb_prop in H as [H _].
Qed.

Lemma trimmed_nonempty_spec (fields : list string) (t : string) :
  t ∈ Prompts.trimmed_nonempty fields <-> t <> "" /\ exists x, x ∈ fields /\ t = trim x.
Proof.
  unfold Prompts.trimmed_nonempty.
  change (map trim fields) with (trim <$> fields).
  rewrite list_elem_of_filter, list_elem_of_fmap. split.
  - intros [Ht (x & -> & Hx)]. split; [by destruct (trim x) | eauto].
  - intros (Hne & x & Hx & ->). split; [by destruct (trim x) | eauto].
Qed.

(** X19. The tables to exclude, as typed: [promptExcludeTables] returns
    the comma-separated fields of the answer, trimmed -- the white space
    of JavaScript, the no-break space and the other Unicode spaces
    included, taken off the two ends and nothing else --, without the
    blank ones; so no returned name is empty, holds a comma, or begins or
    ends with white space, and a cancelled or empty answer gives no
    names. *)
Theorem promptExcludeTables_names (tty : Prompts.Terminal) :
  (forall t, t ∈ Prompts.promptExcludeTables tty ->
     t <> "" /\ lacks "," t = true /\ trim t = t /\ starts_clean t /\ ends_clean t)
  /\ (forall answer,
        Prompts.text tty "Tables to exclude (comma-separated, optional)" None = Some answer ->
        forall t, t ∈ Prompts.promptExcludeTables tty
                  <-> t <> "" /\ exists x, x ∈ JS.split "," answer /\ t = trim x /\ trimmed x t)
  /\ (Prompts.text tty "Tables to exclude (comma-separated, optional)" None = None ->
      Prompts.promptExcludeTables tty = []).
Proof.
  unfold Prompts.promptExcludeTables.
  destruct (Prompts.text tty _ None) as [answer |]; [| split; [| split]].
  - assert (Hin : forall t, t ∈ (if truthy_str answer
                                 then Prompts.trimmed_nonempty (JS.split "," answer) else [])
                        <-> t <> "" /\ exists x, x ∈ JS.split "," answer /\ t = trim x).
    { intros t. destruct answer as [|c answer].
      - cbn. rewrite elem_of_nil. split; [done |].
        intros (Hne & x & Hx & ->). apply list_elem_of_singleton in Hx as ->. by apply Hne.
      - apply trimmed_nonempty_spec. }
    split; [| split].
    + intros t (Hne & x & Hx & ->)%Hin. split; [exact Hne |]. split; [| split].
      * apply trim_lacks. pose proof (split_all_lack "," answer) as Hall.
        rewrite Forall_forall in Hall. by apply Hall.
      * apply trim_fixed.
      * by destruct (trim_spec x) as (a & b & _ & _ & _ & Hs & He).
    + intros a [= <-] t. rewrite Hin. split.
      * intros (Hne & x & Hx & ->). split; [exact Hne |]. exists x.
        split; [exact Hx |]. split; [reflexivity | apply trim_spec].
      * intros (Hne & x & Hx & Ht & _). eauto.
    + discriminate.
  - intros t Hin. by apply elem_of_nil in Hin.
  - discriminate.
  - reflexivity.
Qed.

Lemma promptExcludeTables_names_witness :
  let tty := {| Prompts.text := fun _ _ => Some (" users , ,audit log" +:+ nbsp +:+ ",");
                Prompts.multiselect := fun _ _ => None |} in
  Prompts.promptExcludeTables tty = ["users"; "audit log"]
  /\ forall t, t ∈ Prompts.promptExcludeTables tty -> t <> "" /\ lacks "," t = true.
Proof.
  intros tty. split; [vm_compute; reflexivity |].
  intros t Ht. destruct (proj1 (promptExcludeTables_names tty) t Ht) as (H1 & H2 & _).
  by split.
Defined.

Lemma SEPARATORS_nonempty : Forall (fun q => q <> "") Prompts.SEPARATORS.
Proof. repeat constructor; discriminate. Qed.

(** No separator has a space after its first byte. *)
Lemma SEPARATORS_no_inner_space :
  Forall (fun q => match q with String _ t => lacks " " t = true | EmptyString => True end)
    Prompts.SEPARATORS.
Proof. repeat constructor. Qed.

Lemma unbroken_suffix (a b : string) : unbroken (a +:+ b) = true -> unbroken b = true.
Proof.
  induction a as [|x a IH]; [done |].
  rewrite str_app_cons. cbn [unbroken]. intros [_ H]%andb_prop. by apply IH.
Qed.

Lemma unbroken_head (c : ascii) (r : string) :
  unbroken (String c r) = true ->
  Forall (fun q => String.prefix q (String c r) = false) Prompts.SEPARATORS.
Proof.
  cbn [unbroken]. intros [H _]%andb_prop. rewrite forallb_forall in H.
  apply Forall_forall. intros q Hq. apply list_elem_of_In in Hq.
  by apply negb_true_iff, H.
Qed.

Lemma unbroken_starts_clean (s : string) : unbroken s = true -> starts_clean s.
Proof.
  destruct s as [|c s].
  { intros _. unfold starts_clean, WHITE_SPACE. repeat constructor. }
  intros H%unbroken_head. by apply Forall_cons in H as [_ H].
Qed.

Lemma unbroken_ends_clean (s : string) : unbroken s = true -> ends_clean s.
Proof.
  intros Hu. apply Forall_forall. intros q Hq.
  destruct (String.prefix (String.rev q) (String.rev s)) eqn:E; [| reflexivity].
  apply prefix_spec in E as [r Hr].
  apply (f_equal String.rev) in Hr. rewrite str_rev_app, !str_rev_involutive in Hr.
  rewrite Hr in Hu. apply unbroken_suffix in Hu.
  pose proof WHITE_SPACE_nonempty as Hne. rewrite Forall_forall in Hne.
  specialize (Hne q Hq). destruct q as [|c q]; [done |].
  apply unbroken_head in Hu. rewrite Forall_forall in Hu.
  assert (Hself : String.prefix (String c q) (String c q) = true).
  { apply prefix_spec. exists "". by rewrite str_app_nil_r. }
  rewrite Hu in Hself; [discriminate |]. by right.
Qed.

Lemma trim_unbroken (s : string) : unbroken s = true -> trim s = s.
Proof.
  intros H. apply trim_clean; [by apply unbroken_starts_clean | by apply unbroken_ends_clean].
Qed.

(** The field before the first separator is a first part of the string. *)
Lemma split_runs_head (s : string) :
  exists x xs rest, Prompts.split_runs 0 false s = x :: xs /\ s = x +:+ rest.
Proof.
  induction s as [|c s (x & xs & rest & IH & Hs)]; [by exists "", [], "" |].
  cbn [Prompts.split_runs].
  destruct (lead_len Prompts.SEPARATORS (String c s)) as [|k].
  - rewrite IH. exists (String c x), xs, rest. split; [done |]. by rewrite str_app_cons, <- Hs.
  - exists "", (Prompts.split_runs k true s), (String c s). by rewrite str_app_nil_l.
Qed.

Lemma split_runs_all_unbroken (s : string) (skip : nat) (b : bool) :
  Forall (fun x => unbroken x = true) (Prompts.split_runs skip b s).
Proof.
  revert skip b. induction s as [|c s IH]; intros skip b; [by repeat constructor |].
  cbn [Prompts.split_runs]. destruct skip as [|k]; [| apply IH].
  destruct (lead_len Prompts.SEPARATORS (String c s)) as [|k] eqn:Hlead.
  - destruct (split_runs_head s) as (x & xs & rest & Hx & Hs).
    specialize (IH O false). rewrite Hx in IH |- *.
    apply Forall_cons in IH as [Hux Huxs]. constructor; [| exact Huxs].
    cbn [unbroken]. rewrite Hux, andb_true_r.
    apply forallb_forall. intros q Hq. apply negb_true_iff.
    apply (lead_len_O _ _ SEPARATORS_nonempty) in Hlead. rewrite Forall_forall in Hlead.
    apply list_elem_of_In in Hq. specialize (Hlead q Hq).
    destruct (String.prefix q (String c x)) eqn:E; [| reflexivity].
    apply (prefix_app_mono _ _ rest) in E. by rewrite str_app_cons, <- Hs, Hlead in E.
  - destruct b; [apply IH | constructor; [reflexivity | apply IH]].
Qed.

Lemma unbroken_lead (c : ascii) (r : string) :
  unbroken (String c r) = true -> lead_len Prompts.SEPARATORS (String c r) = O.
Proof. intros H. apply (lead_len_O _ _ SEPARATORS_nonempty). by apply unbroken_head. Qed.

(** A separator that starts inside a word ends inside it. *)
Lemma prefix_cases (q a b : string) :
  String.prefix q (a +:+ b) = true ->
  String.prefix q a = true \/ exists t, q = a +:+ t /\ t <> "".
Proof.
  revert a. induction q as [|x q IH]; intros a; [intros _; left; by destruct a |].
  destruct a as [|y a].
  - intros _. right. exists (String x q). by rewrite str_app_nil_l.
  - rewrite str_app_cons. cbn [String.prefix].
    destruct (ascii_dec x y) as [-> | Hne]; [| discriminate].
    intros [H | (t & -> & Ht)]%IH; [by left |]. right. exists t. by rewrite str_app_cons.
Qed.

Lemma word_lead (c : ascii) (w r : string) :
  unbroken (String c w) = true ->
  lead_len Prompts.SEPARATORS (String c w +:+ String " " r) = O.
Proof.
  intros Hu. apply unbroken_head in Hu.
  apply (lead_len_O _ _ SEPARATORS_nonempty), Forall_forall. intros q Hq.
  rewrite Forall_forall in Hu. specialize (Hu q Hq).
  destruct (String.prefix q (String c w +:+ String " " r)) eqn:E; [| reflexivity].
  destruct (prefix_cases _ _ _ E) as [H | (t & -> & Ht)]; [congruence |].
  apply prefix_spec in E as [r' E]. rewrite str_app_assoc in E.
  apply str_app_inj_l in E.
  destruct t as [|y t]; [done |]. rewrite str_app_cons in E. injection E as <- _.
  pose proof SEPARATORS_no_inner_space as Hin. rewrite Forall_forall in Hin.
  specialize (Hin _ Hq). rewrite str_app_cons in Hin. rewrite lacks_app in Hin.
  apply andb_prop in Hin as [_ Hin]. cbn in Hin. discriminate Hin.
Qed.

Lemma split_runs_to_sep (w r : string) :
  unbroken w = true ->
  Prompts.split_runs 0 false (w +:+ String " " r) = w :: Prompts.split_runs 0 true r.
Proof.
  intros Hw. induction w as [|x w IH].
  - assert (Hlead : lead_len Prompts.SEPARATORS (String " " r) = 1%nat)
      by (destruct r; vm_compute; reflexivity).
    rewrite str_app_nil_l. cbn [Prompts.split_runs]. by rewrite Hlead.
  - pose proof (word_lead x w r Hw) as Hlead.
    rewrite str_app_cons in Hlead |- *. cbn [Prompts.split_runs]. rewrite Hlead.
    cbn [unbroken] in Hw. apply andb_prop in Hw as [_ Hw]. by rewrite (IH Hw).
Qed.

Lemma split_runs_unbroken (s : string) :
  unbroken s = true -> Prompts.split_runs 0 false s = [s].
Proof.
  induction s as [|x s IH]; [reflexivity |].
  intros Hu. cbn [Prompts.split_runs]. rewrite (unbroken_lead _ _ Hu).
  cbn [unbroken] in Hu. apply andb_prop in Hu as [_ Hu]. by rewrite (IH Hu).
Qed.

(** In front of a word the run flag makes no difference. *)
Lemma split_runs_at_word (b : bool) (s : string) :
  s <> "" -> lead_len Prompts.SEPARATORS s = O ->
  Prompts.split_runs 0 b s = Prompts.split_runs 0 false s.
Proof. destruct s as [|x s]; [done |]. intros _ H. cbn [Prompts.split_runs]. by rewrite H. Qed.

Lemma split_runs_join (b : bool) (ws : list string) :
  Forall (fun c => word c = true) ws -> ws <> [] ->
  Prompts.split_runs 0 b (JS.join " " ws) = ws.
Proof.
  intros Hall. revert b. induction Hall as [|w ws Hw Hws IH]; intros b Hne; [done |].
  unfold word in Hw. apply andb_prop in Hw as [Hfull Hu].
  destruct w as [|x w]; [discriminate Hfull |].
  destruct ws as [|w2 ws].
  - cbn [JS.join]. rewrite split_runs_at_word; [| done | by apply unbroken_lead].
    by apply split_runs_unbroken.
  - change (JS.join " " (String x w :: w2 :: ws))
      with (String x w +:+ String " " (JS.join " " (w2 :: ws))).
    rewrite split_runs_at_word; [| by rewrite str_app_cons | by apply word_lead].
    rewrite split_runs_to_sep by done. f_equal. by apply IH.
Qed.

Lemma trimmed_nonempty_words (ws : list string) :
  Forall (fun c => word c = true) ws -> Prompts.trimmed_nonempty ws = ws.
Proof.
  unfold Prompts.trimmed_nonempty. induction 1 as [|w ws Hw _ IH]; [reflexivity |].
  unfold word in Hw. apply andb_prop in Hw as [Hne Hu].
  cbn [map]. rewrite (trim_unbroken _ Hu), filter_cons, decide_True by done.
  by rewrite IH.
Qed.

Lemma confirmed_choices (sel : gset string) (l : list FlagsCatalog.FlagOption) :
  map (fun c : string * string * bool => c.1.2)
      (filter (fun c : string * string * bool => c.2 = true)
         (map (fun f => (Prompts.choice_title f, FlagsCatalog.fo_id f,
                         bool_decide (FlagsCatalog.fo_id f ∈ sel))) l))
  = map FlagsCatalog.fo_id (filter (fun f => FlagsCatalog.fo_id f ∈ sel) l).
Proof.
  induction l as [|f l IH]; [reflexivity |].
  cbn [map]. rewrite !filter_cons. cbn [snd].
  destruct (decide (FlagsCatalog.fo_id f ∈ sel)) as [Hin | Hout].
  - rewrite bool_decide_eq_true_2, decide_True by done. cbn [map fst snd]. by rewrite IH.
  - rewrite bool_decide_eq_false_2, decide_False by done. exact IH.
Qed.

(** X20. The flag picker.  The custom flags it returns are words: none is
    empty or holds a comma or white space -- the white space of
    JavaScript, the no-break space and the other Unicode spaces
    included --, whatever is typed.  And for someone who confirms both
    prompts as they are shown, it returns the catalog ids that were
    selected before, in catalog order, and the custom flags that were
    there before -- provided those are words: a custom flag with a space
    or a comma in it does not survive the round. *)
Theorem promptFlagPicker_round_trip (tty : Prompts.Terminal)
    (existingSelected existingCustom : option (list string)) :
  Forall (fun c => word c = true) (Prompts.promptFlagPicker tty existingSelected existingCustom).2
  /\ (confirms_all tty ->
      Forall (fun c => word c = true) (default [] existingCustom) ->
      Prompts.promptFlagPicker tty existingSelected existingCustom
      = (match existingSelected with
         | Some ids => map FlagsCatalog.fo_id
                         (filter (fun f => FlagsCatalog.fo_id f ∈ ids) FlagsCatalog.CATALOG)
         | None => ["single-transaction"; "quick"; "set-gtid-off"; "column-statistics";
                    "add-drop-table"; "charset-utf8mb4"]
         end,
         default [] existingCustom)).
Proof.
  unfold Prompts.promptFlagPicker. cbn [snd]. split.
  - unfold Prompts.trimmed_nonempty.
    apply Forall_forall. intros t [Ht (x & -> & Hx)%list_elem_of_fmap]%list_elem_of_filter.
    pose proof (split_runs_all_unbroken
                  (or_opt_str (Prompts.text tty "Custom flags (space/comma separated, optional)"
                                 (Some (JS.join " " (default [] existingCustom)))) "")
                  0 false) as Hall.
    rewrite Forall_forall in Hall. specialize (Hall x Hx).
    rewrite (trim_unbroken _ Hall) in *. unfold word. by rewrite Ht, Hall.
  - intros [Htext Hmulti] Hwords. rewrite Htext, Hmulti. f_equal.
    + unfold FlagsCatalog.getFlagCatalog. rewrite confirmed_choices. cbv [from_option id].
      destruct existingSelected as [ids |].
      * f_equal. apply filter_agree. intros f _. apply elem_of_list_to_set.
      * vm_compute. reflexivity.
    + set (cs := default [] existingCustom) in *.
      destruct (decide (cs = [])) as [-> | Hne]; [reflexivity |].
      assert (Hraw : or_opt_str (Some (JS.join " " cs)) "" = JS.join " " cs).
      { cbn. unfold or_str. by destruct (JS.join " " cs). }
      rewrite Hraw, split_runs_join by done.
      by apply trimmed_nonempty_words.
Qed.

Lemma promptFlagPicker_round_trip_witness :
  confirms_all enter_presser
  /\ Prompts.promptFlagPicker enter_presser (Some ["quick"; "hex-blob"])
       (Some ["--where=id>5"; "--no-tablespaces"])
     = (["quick"; "hex-blob"], ["--where=id>5"; "--no-tablespaces"]).
Proof.
  assert (H : confirms_all enter_presser) by (by split).
  split; [exact H |].
  rewrite (proj2 (promptFlagPicker_round_trip enter_presser (Some ["quick"; "hex-blob"])
                    (Some ["--where=id>5"; "--no-tablespaces"])) H).
  - vm_compute. reflexivity.
  - by repeat constructor.
Defined.

(** A custom flag with a space in it comes back in pieces. *)
Example promptFlagPicker_breaks_spaced_flag :
  (Prompts.promptFlagPicker enter_presser None (Some ["--where=a = 1"])).2
  = ["--where=a"; "="; "1"].
Proof. vm_compute. reflexivity. Qed.

(** So does one with a no-break space in it. *)
Example promptFlagPicker_breaks_at_nbsp :
  (Prompts.promptFlagPicker enter_presser None (Some ["--where=a" +:+ nbsp +:+ "=1"])).2
  = ["--where=a"; "=1"].
Proof. vm_compute. reflexivity. Qed.

(* ===================================================================== *)
(** ** Output path planner: the extension *)
(* ===================================================================== *)

(** The last segment of a path takes what is appended to the path. *)
Lemma segments_last (y : string) :
  exists init b,
    no_sep b = true
    /\ forall ext, no_sep ext = true -> Path.segments (y +:+ ext) = init ++ [b +:+ ext].
Proof.
  induction y as [|c y (init & b & Hb & IH)].
  - exists [], "". split; [reflexivity |]. intros ext Hext.
    rewrite !str_app_nil_l. by apply segments_no_sep.
  - destruct (Ascii.eqb c Path.sep) eqn:Hc.
    + apply Ascii.eqb_eq in Hc as ->.
      exists ("" :: init), b. split; [exact Hb |]. intros ext Hext.
      rewrite str_app_cons, segments_cons_sep, (IH ext Hext). reflexivity.
    + destruct init as [|x init].
      * exists [], (String c b). split; [cbn; unfold Path.is_sep; by rewrite Hc, Hb |].
        intros ext Hext. rewrite str_app_cons. unfold Path.segments in *. cbn [JS.split].
        rewrite Hc, (IH ext Hext). reflexivity.
      * exists (String c x :: init), b. split; [exact Hb |]. intros ext Hext.
        rewrite str_app_cons. unfold Path.segments in *. cbn [JS.split].
        rewrite Hc, (IH ext Hext). reflexivity.
Qed.

(** [path.normalize] keeps a suffix that is part of the last segment
    and makes it a name. *)
Lemma normalize_keeps_suffix (y ext : string) :
  no_sep ext = true -> (2 < String.length ext)%nat ->
  exists stem, Path.normalize (y +:+ ext) = stem +:+ ext.
Proof.
  intros Hext Hlen.
  assert (Hne : ext <> "") by (intros ->; cbn in Hlen; lia).
  destruct (segments_last y) as (init & b & Hb & Hseg).
  assert (Hplain : plain (b +:+ ext) = true).
  { unfold plain. rewrite no_sep_app, Hb, Hext. cbn [andb].
    rewrite !bool_decide_eq_false_2; [reflexivity | ..];
      intros E; apply (f_equal String.length) in E; rewrite str_length_app in E;
      cbn in E; lia. }
  unfold Path.normalize.
  rewrite bool_decide_eq_false_2 by (intros [_ ?]%str_app_eq_nil; done).
  rewrite (Hseg ext Hext), normalizeString_app_plain by (by repeat constructor).
  rewrite bool_decide_eq_false_2 by (apply join_snoc_nonempty; by apply plain_nonempty).
  rewrite endsWithSep_app, (endsWithSep_no_sep _ Hext) by done.
  destruct (join_snoc "/" (Path.normalizeString (negb (Path.isAbsolute (y +:+ ext))) init)
              (b +:+ ext)) as [pre ->].
  exists ((if Path.isAbsolute (y +:+ ext) then "/" else "") +:+ pre +:+ b).
  by rewrite str_app_nil_r, !str_app_assoc.
Qed.

Lemma join_keeps_suffix (dir y ext : string) :
  no_sep ext = true -> (2 < String.length ext)%nat ->
  exists stem, Path.join [dir; y +:+ ext] = stem +:+ ext.
Proof.
  intros Hext Hlen.
  assert (Hne : y +:+ ext <> "").
  { intros [_ ->]%str_app_eq_nil. cbn in Hlen. lia. }
  unfold Path.join. rewrite !filter_cons, filter_nil.
  rewrite (decide_True (P := y +:+ ext <> "")) by done.
  destruct (decide (dir <> "")).
  - cbn [JS.join]. rewrite <- !str_app_assoc. by apply normalize_keeps_suffix.
  - cbn [JS.join]. by apply normalize_keeps_suffix.
Qed.

(** X21. The name of the dump file always carries its extension.  On a
    POSIX platform, whatever the environment, the name, the root and the
    clock reading are (slashes, dots and empty strings included), the
    planned path ends in [.sql] when gzip is off and in [.sql.gz] when it
    is on. *)
Theorem defaultDumpPath_extension (pr : Process) (now_iso env aliasOrName : string)
    (gzip : bool) (rootOverride : option string) :
  platform (getPlatformInfo pr) <> "win32" ->
  exists stem,
    OutputPaths.defaultDumpPath pr now_iso env aliasOrName gzip rootOverride
    = stem +:+ (if gzip then ".sql.gz" else ".sql").
Proof.
  intros _. unfold OutputPaths.defaultDumpPath.
  set (safeName := or_str aliasOrName "database").
  set (dir := Paths.resolveDumpPath _ _).
  set (ext := if gzip then ".sql.gz" else ".sql").
  assert (Hfile : safeName +:+ "-" +:+ OutputPaths.timestampString now_iso +:+ ".sql"
                  +:+ (if gzip then ".gz" else "")
                  = (safeName +:+ "-" +:+ OutputPaths.timestampString now_iso) +:+ ext).
  { subst ext. destruct gzip; rewrite !str_app_assoc; reflexivity. }
  rewrite Hfile. apply join_keeps_suffix; subst ext; destruct gzip; (reflexivity || cbn; lia).
Qed.

Lemma defaultDumpPath_extension_witness :
  platform (getPlatformInfo linux_box) <> "win32"
  /\ exists stem,
       OutputPaths.defaultDumpPath linux_box "2024-05-06T07:08:09.123Z" "../x" "a/b/" true
         (Some "dumps/")
       = stem +:+ ".sql.gz".
Proof.
  assert (H : platform (getPlatformInfo linux_box) <> "win32") by discriminate.
  split; [exact H |].
  exact (defaultDumpPath_extension linux_box "2024-05-06T07:08:09.123Z" "../x" "a/b/" true
           (Some "dumps/") H).
Defined.

Example defaultDumpPath_odd_names :
  OutputPaths.defaultDumpPath linux_box "2024-05-06T07:08:09.123Z" "../x" "a/b/" true
    (Some "dumps/")
  = "x/a/b/a/b/-2024-05-06T07-08-09-123Z.sql.gz".
Proof. vm_compute. reflexivity. Qed.

(* ===================================================================== *)
(** ** Dump executor: the progress lines *)
(* ===================================================================== *)

Section DumpProgress.
Import DumpRunner.
Variable req : DumpRequest.
Variables startedAt finishedAt : number.

Local Abbreviation handle := (handle req startedAt finishedAt).

Lemma progress_while_running (pre : list event) (st : state) :
  forallb (fun ev => negb (terminal ev)) pre = true ->
  calls st = [] ->
  timer st = true ->
  timer (fold_left handle pre st) = true
  /\ length (logged (fold_left handle pre st)) = (length (logged st) + ticks_of pre)%nat.
Proof.
  revert st. induction pre as [|ev pre IH]; intros st Hq Hc Ht.
  - cbn. split; [exact Ht | lia].
  - cbn in Hq. apply andb_prop in Hq as [Hev Hq]. cbn [fold_left].
    destruct (run_quiet req startedAt finishedAt [ev] st) as (Hc1 & Ht1 & _);
      [by cbn; rewrite Hev | exact Hc |].
    cbn [fold_left] in Hc1, Ht1. rewrite Ht in Ht1.
    destruct (IH (handle st ev) Hq Hc1 Ht1) as [H1 H2]. split; [exact H1 |].
    rewrite H2. clear IH H1 H2 Hc1 Ht1.
    destruct ev as [chunk | chunk | e | code | e | | | n | i | i];
      try discriminate Hev; cbn; rewrite ?Hc, ?lookup_nil; try reflexivity.
    + rewrite Ht. cbn. rewrite length_app. cbn. lia.
    + destruct (opened st); [reflexivity |]. by destruct (FS.writeFile _ _ _).
    + by destruct (opened st).
Qed.

Lemma progress_ended (t : event) (st : state) :
  terminal t = true ->
  timer (handle st t) = false /\ logged (handle st t) = logged st.
Proof.
  destruct t as [chunk | chunk | e | code | e | | | n | i | i]; try discriminate; intros _.
  - done.
  - cbn. by destruct (bool_decide (code = Some 0)).
  - done.
Qed.

Lemma progress_after (post : list event) (st : state) :
  timer st = false -> logged (fold_left handle post st) = logged st.
Proof. intros Ht. by destruct (run_timer_off req startedAt finishedAt post st Ht). Qed.
End DumpProgress.

(** X22. Progress is reported while the dump runs, and not after.  Of the
    events of a dump, every firing of the progress timer before the first
    'exit' or 'error' event logs one line, and none that comes later logs
    anything: the timer is cleared by whatever ends the dump. *)
Theorem runDump_progress_stops (req : DumpRequest) (startedAt finishedAt : number)
    (w : World) (pre post : list event) (t : event) :
  forallb (fun ev => negb (terminal ev)) pre = true ->
  terminal t = true ->
  let run := fold_left (DumpRunner.handle req startedAt finishedAt) in
  DumpRunner.logged (run (pre ++ t :: post) (DumpRunner.initial w))
  = DumpRunner.logged (run pre (DumpRunner.initial w))
  /\ length (DumpRunner.logged (run (pre ++ t :: post) (DumpRunner.initial w))) = ticks_of pre.
Proof.
  intros Hq Ht run. subst run. rewrite fold_left_app. cbn [fold_left].
  destruct (progress_while_running req startedAt finishedAt pre (DumpRunner.initial w)
              Hq eq_refl eq_refl) as [_ Hlen].
  destruct (progress_ended req startedAt finishedAt t
              (fold_left (DumpRunner.handle req startedAt finishedAt) pre (DumpRunner.initial w))
              Ht) as [Hoff Hsame].
  rewrite (progress_after req startedAt finishedAt post _ Hoff), Hsame.
  split; [reflexivity | exact Hlen].
Qed.

Lemma runDump_progress_stops_witness :
  DumpRunner.logged
    (fold_left (DumpRunner.handle sample_request 0 1500)
       ([Stdout "-- MySQL dump 10.13"; Tick; Stdout "CREATE TABLE t (id INT);"]
        ++ Exit (Some 0) :: [Tick; Tick])
       (DumpRunner.initial fresh_world))
  = ["Dumping... 0 KB written"].
Proof.
  rewrite (proj1 (runDump_progress_stops sample_request 0 1500 fresh_world
                    [Stdout "-- MySQL dump 10.13"; Tick; Stdout "CREATE TABLE t (id INT);"]
                    [Tick; Tick] (Exit (Some 0)) eq_refl eq_refl)).
  vm_compute. reflexivity.
Defined.

(* ===================================================================== *)
(** ** The catalog: one entry per platform and architecture *)
(* ===================================================================== *)

(** X23. [resolveBinaryDescriptor] returns an entry exactly when it is
    the catalog's entry for that platform and architecture: no entry is
    shadowed by another one with the same platform and architecture. *)
Theorem resolveBinaryDescriptor_exact (p a : string) (d : BinaryDescriptor) :
  VersionMap.resolveBinaryDescriptor p a = Some d
  <-> d ∈ VersionMap.BINARY_MAP /\ bd_platform d = p /\ bd_arch d = a.
Proof.
  split.
  - intros H. unfold VersionMap.resolveBinaryDescriptor in H.
    apply find_some in H as [Hin Hf]. apply andb_prop in Hf as [Hp Ha].
    apply bool_decide_eq_true in Hp, Ha. split; [by apply list_elem_of_In | done].
  - intros (Hin & <- & <-). unfold VersionMap.BINARY_MAP in Hin.
    rewrite !elem_of_cons, elem_of_nil in Hin.
    repeat (destruct Hin as [-> | Hin]; [vm_compute; reflexivity |]). destruct Hin.
Qed.

(* ===================================================================== *)
(** ** Configuration store: what a load does to the file system *)
(* ===================================================================== *)

(** [mkdir -p] makes directories, no files. *)
Lemma mkdirp_files (rk : list string) (m m' : gmap (list string) FS.node)
    (k : list string) (d : string) :
  FS.mkdirp rk m = Ok m' -> m' !! k = Some (FS.File d) -> m !! k = Some (FS.File d).
Proof.
  revert m'. induction rk as [|s parent IH]; intros m' Hrun Hk.
  - cbn in Hrun. destruct (m !! []) as [[|]|] eqn:H0.
    + discriminate.
    + by injection Hrun as <-.
    + injection Hrun as <-. destruct (decide (k = [])) as [-> | Hne].
      * by rewrite lookup_insert_eq in Hk.
      * by rewrite lookup_insert_ne in Hk.
  - cbn [FS.mkdirp] in Hrun.
    destruct (m !! rev (s :: parent)) as [[|]|] eqn:H0.
    + discriminate.
    + by injection Hrun as <-.
    + destruct (FS.mkdirp parent m) as [m1 | |] eqn:Hp; cbn in Hrun; [| discriminate ..].
      injection Hrun as <-.
      destruct (decide (k = rev (s :: parent))) as [-> | Hne].
      * by rewrite lookup_insert_eq in Hk.
      * rewrite lookup_insert_ne in Hk by done. exact (IH _ eq_refl Hk).
Qed.

Section LoadFs.
Import ConfigStore Heap.
Variable JSON_parse : string -> result Parsed.

Lemma spread_DEFAULT_CONFIG_fs (w w' : World) r :
  spread_DEFAULT_CONFIG w = (r, w') -> fs w' = fs w /\ log w' = log w.
Proof.
  unfold spread_DEFAULT_CONFIG, new_object.
  destruct (objects (heap w) !! DEFAULT_CONFIG); intros [= <- <-]; done.
Qed.

Lemma materialise_fs (parsed : Parsed) (w w' : World) r :
  materialise parsed w = (r, w') -> fs w' = fs w /\ log w' = log w.
Proof. unfold materialise, new_array, new_object. cbn. by intros [= <- <-]. Qed.

Lemma stamp_if_missing_fs (l : loc) (w w' : World) r :
  stamp_if_missing l w = (r, w') -> fs w' = fs w /\ log w' = log w.
Proof.
  unfold stamp_if_missing.
  destruct (objects (heap w) !! l) as [o |]; [| by intros [= <- <-]].
  destruct (falsy_version _); by intros [= <- <-].
Qed.

(** Whatever comes of it, a load changes the file system by one
    [ensureDir] at most, and logs nothing. *)
Lemma loadConfig_fs pr customPath (w w' : World) r :
  loadConfig JSON_parse pr customPath w = (r, w') ->
  log w' = log w
  /\ (fs w' = fs w
      \/ exists target, FS.ensureDir (fs w) target = Ok (fs w')).
Proof.
  unfold loadConfig. intros Hrun.
  apply bind_inv in Hrun as [(u & wa & Hdir & Hrun) | [(e & Hdir & _) | [Hdir _]]].
  2, 3: unfold ensureConfigDir in Hdir;
        apply fs_do_inv in Hdir as [(f' & _ & Hr & _) | [-> _]]; [discriminate Hr | by auto].
  destruct u. destruct (ensureConfigDir_inv _ _ _ _ Hdir) as (_ & Hlog & target & Htarget).
  assert (Hrest : fs w' = fs wa /\ log w' = log wa).
  { unfold mbind at 1, prog_bind at 1, fs_get at 1 in Hrun.
    destruct (negb (FS.pathExists (fs wa) _)); [by apply spread_DEFAULT_CONFIG_fs in Hrun |].
    apply bind_inv in Hrun as [(content & wb & Hread & Hrun) | [(e & Hread & _) | [Hread _]]];
      unfold fs_try in Hread; injection Hread as _ <-; [| done ..].
    apply bind_inv in Hrun as [(parsed & wc & Hparse & Hrun) | [(e & Hparse & _) | [Hparse _]]];
      unfold lift in Hparse; injection Hparse as _ <-; [| done ..].
    apply bind_inv in Hrun as [(l & wd & Hmat & Hrun) | [(e & Hmat & _) | [Hmat _]]];
      apply materialise_fs in Hmat as [Hf1 Hl1]; [| by rewrite Hf1, Hl1 ..].
    apply bind_inv in Hrun as [(u & we & Hst & Hrun) | [(e & Hst & _) | [Hst _]]];
      apply stamp_if_missing_fs in Hst as [Hf2 Hl2]; [| by rewrite Hf2, Hl2, Hf1, Hl1 ..].
    injection Hrun as _ <-. by rewrite Hf2, Hl2, Hf1, Hl1. }
  destruct Hrest as [Hf Hl]. split; [by rewrite Hl |].
  right. exists target. by rewrite Hf.
Qed.
End LoadFs.

(** X24. Loading a configuration writes no file.  Whatever comes of
    [loadConfig] -- a configuration, or an error of the file system or of
    the parser -- every file is afterwards where it was with the content it
    had, no file has appeared, every directory is still there, and nothing
    was downloaded, hashed or extracted.  What a load may add is
    directories: after a successful load from the default path on a POSIX
    platform the configuration directory exists. *)
Theorem loadConfig_writes_no_file
    (JSON_parse : string -> result ConfigStore.Parsed) (pr : Process)
    (customPath : option string) (w w' : World) (r : result Heap.loc) :
  ConfigStore.loadConfig JSON_parse pr customPath w = (r, w') ->
  (forall k d, FS.nodes (fs w') !! k = Some (FS.File d) <-> FS.nodes (fs w) !! k = Some (FS.File d))
  /\ (forall k, FS.nodes (fs w) !! k = Some FS.Dir -> FS.nodes (fs w') !! k = Some FS.Dir)
  /\ log w' = log w
  /\ (is_ok r = true -> customPath = None -> platform (getPlatformInfo pr) <> "win32" ->
      FS.lookup (fs w') (Paths.getConfigDir pr) = Some FS.Dir).
Proof.
  intros Hrun.
  destruct (loadConfig_fs JSON_parse _ _ _ _ _ Hrun) as [Hlog Hfs].
  split; [| split; [| split; [exact Hlog |]]].
  - intros k d. destruct Hfs as [-> | [target Hd]]; [done |].
    destruct (ensureDir_inv _ _ _ Hd) as [Hmk _]. split.
    + by apply mkdirp_files with (1 := Hmk).
    + by apply mkdirp_mono with (1 := Hmk).
  - intros k Hk. destruct Hfs as [-> | [target Hd]]; [done |].
    by apply ensureDir_mono with (1 := Hd).
  - intros Hok -> Hposix. destruct r as [l | |]; try discriminate Hok.
    apply loadConfig_inv in Hrun as (wa & Hdir & Hfswa & _).
    unfold ConfigStore.ensureConfigDir in Hdir.
    destruct (config_dir_general pr) as (a & l0 & Hl0 & Hcd).
    assert (Hl : normal (negb a) (l0 ++ [Paths.APP_NAME])).
    { apply normal_app_plain; [done | by repeat constructor]. }
    assert (Hpath : Paths.getConfigPath pr None
                    = render a ((l0 ++ [Paths.APP_NAME]) ++ ["config.json"])).
    { unfold Paths.getConfigPath. rewrite Hcd.
      apply join_render; [done | by repeat constructor | done]. }
    destruct (save_paths (FS.cwd (fs w)) a (l0 ++ [Paths.APP_NAME]) "config.json")
      as (Htruthy & Hdirname & _); [by destruct l0 | done | done |].
    rewrite Hpath, Htruthy, Hdirname, <- Hcd in Hdir.
    apply fs_do_inv in Hdir as [(f1 & Hf1 & _ & ->) | [_ Hn]]; [| by destruct (Hn tt)].
    rewrite Hfswa. cbn [fs set_fs]. unfold FS.lookup.
    destruct (ensureDir_inv _ _ _ Hf1) as [_ Hc]. unfold FS.key. rewrite Hc.
    exact (ensureDir_dir _ _ _ Hf1).
Qed.

Lemma loadConfig_writes_no_file_witness :
  let run := ConfigStore.loadConfig sample_JSON_parse linux_box None fresh_world in
  is_ok run.1 = true
  /\ FS.lookup (fs fresh_world) "/home/u/.config/database-cli-dumper" = None
  /\ FS.lookup (fs run.2) "/home/u/.config/database-cli-dumper" = Some FS.Dir
  /\ FS.pathExists (fs run.2) "/home/u/.config/database-cli-dumper/config.json" = false.
Proof.
  intros run.
  assert (Hok : is_ok run.1 = true) by (vm_compute; reflexivity).
  split; [exact Hok |]. split; [vm_compute; reflexivity |].
  destruct (loadConfig_writes_no_file sample_JSON_parse linux_box None fresh_world run.2 run.1)
    as (Hfiles & _ & _ & Hdir).
  { apply surjective_pairing. }
  split.
  - apply Hdir; [exact Hok | reflexivity | discriminate].
  - vm_compute. reflexivity.
Defined.

(* ===================================================================== *)
(** ** The menu: the cursor stays on an item *)
(* ===================================================================== *)

Lemma Menu_input_in_range {A} (items : list A) (index : number) (key : App.Key) :
  0 <= index < Z.of_nat (length items) ->
  0 <= (App.Menu_input items index key).1 < Z.of_nat (length items).
Proof.
  intros Hi. unfold App.Menu_input. cbn [fst].
  destruct (App.upArrow key), (App.downArrow key);
    repeat (match goal with |- context [?a =? ?b] => destruct (Z.eqb_spec a b) end); lia.
Qed.

Lemma item_value_in_range {A} (items : list A) (index : number) :
  0 <= index < Z.of_nat (length items) ->
  exists item, App.item_value items index = Ok item /\ items !! Z.to_nat index = Some item.
Proof.
  intros Hi. unfold App.item_value.
  destruct (Z.ltb_spec index 0); [lia |].
  destruct (lookup_lt_is_Some_2 items (Z.to_nat index)) as [item Hitem]; [lia |].
  exists item. by rewrite Hitem.
Qed.

(** X25. In a menu with at least one item the cursor never leaves the
    items: after any sequence of key presses the index is that of an item,
    so Enter always selects an item and never fails; Up on the first item
    goes to the last one, Down on the last one to the first, and Down
    undoes Up. *)
Theorem Menu_cursor_stays_on_an_item {A} (items : list A) (keys : list App.Key) :
  items <> [] ->
  let len := Z.of_nat (length items) in
  let up := {| App.upArrow := true; App.downArrow := false; App.return_ := false |} in
  let down := {| App.upArrow := false; App.downArrow := true; App.return_ := false |} in
  let enter := {| App.upArrow := false; App.downArrow := false; App.return_ := true |} in
  0 <= App.Menu_index items keys < len
  /\ (exists item, (App.Menu_input items (App.Menu_index items keys) enter).2 = Some (Ok item)
                   /\ item ∈ items)
  /\ (App.Menu_input items 0 up).1 = len - 1
  /\ (App.Menu_input items (len - 1) down).1 = 0
  /\ (forall i, 0 <= i < len ->
        (App.Menu_input items (App.Menu_input items i up).1 down).1 = i).
Proof.
  intros Hne len up down enter.
  assert (Hlen : 0 < len) by (subst len; destruct items; [done | cbn; lia]).
  assert (Hrange : 0 <= App.Menu_index items keys < len).
  { unfold App.Menu_index.
    assert (Hgen : forall i, 0 <= i < len ->
              0 <= fold_left (fun index key => (App.Menu_input items index key).1) keys i < len).
    { induction keys as [|k keys IH]; intros i Hi; [exact Hi |].
      cbn [fold_left]. apply IH. by apply Menu_input_in_range. }
    apply Hgen. lia. }
  split; [exact Hrange |]. split; [| split; [| split]].
  - destruct (item_value_in_range items _ Hrange) as (item & Hv & Hitem).
    exists item. cbn. split; [by rewrite Hv | by eapply list_elem_of_lookup_2].
  - reflexivity.
  - cbn. rewrite Z.eqb_refl. reflexivity.
  - intros i Hi. unfold App.Menu_input. cbn [fst App.upArrow App.downArrow up down].
    fold len. destruct (Z.eqb_spec i 0).
    + rewrite Z.eqb_refl. lia.
    + destruct (Z.eqb_spec (i - 1) (len - 1)); lia.
Qed.

Lemma Menu_cursor_stays_on_an_item_witness :
  let up := {| App.upArrow := true; App.downArrow := false; App.return_ := false |} in
  let enter := {| App.upArrow := false; App.downArrow := false; App.return_ := true |} in
  ["dump"; "list"; "exit"] <> []
  /\ App.Menu_index ["dump"; "list"; "exit"] [up] = 2
  /\ exists item,
       (App.Menu_input ["dump"; "list"; "exit"] (App.Menu_index ["dump"; "list"; "exit"] [up])
          enter).2 = Some (Ok item)
       /\ item ∈ ["dump"; "list"; "exit"].
Proof.
  intros up enter.
  assert (H : ["dump"; "list"; "exit"] <> []) by discriminate.
  split; [exact H |]. split; [reflexivity |].
  exact (proj1 (proj2 (Menu_cursor_stays_on_an_item ["dump"; "list"; "exit"] [up] H))).
Defined.

(** In an empty menu Up moves the cursor off the list, and Enter fails. *)
Example Menu_empty :
  let up := {| App.upArrow := true; App.downArrow := false; App.return_ := false |} in
  let enter := {| App.upArrow := false; App.downArrow := false; App.return_ := true |} in
  App.Menu_index ([] : list string) [up] = -1
  /\ (App.Menu_input ([] : list string) 0 enter).2 = Some (Throw (mkError "TypeError")).
Proof. split; reflexivity. Qed.
